(** * Requirements-to-user-story service: embedding and verified properties

    A shallow embedding of the back-end's security module, routers,
    generation agent, knowledge-graph validation, retrieval filter and
    text-processing utilities, followed by the properties proved about
    them.

    Conventions.
    - Python values that cross a JSON or ORM boundary are [pyval]s; a
      [dict] is a [gmap string pyval].
    - Text is a [list ascii]: one element per character, code points
      below 256.  Whitespace is Python's [str.isspace] on that range.
    - [datetime.utcnow()] is an explicit [now : Z] (seconds); a
      [timedelta] is a number of seconds.
    - An [HTTPException] is a value of the response type; a Python
      exception caught by [except Exception] is a value of [outcome].
    - Third-party libraries (the JWT codec, the graph runner, the LLM and
      vector-store clients) are parameters or oracles. *)

From Stdlib Require Import ZArith QArith List String Ascii Bool Lia.
From stdpp Require Import gmap strings list pretty.
Import ListNotations.
Open Scope string_scope.
Open Scope list_scope.
Open Scope Z_scope.
Set Warnings "-register-all".

(* ================================================================== *)
(** * Part I: the embedding                                            *)
(* ================================================================== *)

(** ** Python values *)

Module Py.

Inductive pyval : Type :=
| VNone
| VBool (b : bool)
| VInt (n : Z)
| VFloat (q : Q)
| VStr (s : string)
| VList (l : list pyval)
| VDict (d : gmap string pyval).

(** [bool(v)]: the truth value Python gives to [v]. *)
Definition truthy (v : pyval) : bool :=
  match v with
  | VNone => false
  | VBool b => b
  | VInt n => negb (n =? 0)
  | VFloat q => negb (Qeq_bool q 0)
  | VStr s => negb (String.eqb s "")
  | VList l => match l with [] => false | _ :: _ => true end
  | VDict d => negb (bool_decide (d = ∅))
  end.

(** [d.get(k)]: [None] when the key is absent. *)
Definition dict_get (d : gmap string pyval) (k : string) : pyval :=
  default VNone (d !! k).

(** [d.get(k, dflt)]. *)
Definition dict_get_default (d : gmap string pyval) (k : string) (dflt : pyval) : pyval :=
  default dflt (d !! k).

(** [v == s] for a [str] literal [s]. *)
Definition eq_str (v : pyval) (s : string) : bool :=
  match v with
  | VStr s' => String.eqb s' s
  | _ => false
  end.

(** [v is None]. *)
Definition is_none (v : pyval) : bool :=
  match v with
  | VNone => true
  | _ => false
  end.

(** What a call produces: a value, or a raised [Exception] with its
    message. *)
Inductive outcome (A : Type) : Type :=
| Returns (a : A)
| Raises (e : string).
Arguments Returns {A} a.
Arguments Raises {A} e.

(** [len(v)]; [TypeError] for values without a length. *)
Definition py_len (v : pyval) : outcome Z :=
  match v with
  | VStr s => Returns (Z.of_nat (String.length s))
  | VList l => Returns (Z.of_nat (length l))
  | VDict d => Returns (Z.of_nat (size d))
  | _ => Raises "TypeError: object has no len()"
  end.

(** [needle in haystack] for two strings. *)
Fixpoint is_substring (needle haystack : string) : bool :=
  String.prefix needle haystack
  || match haystack with
     | EmptyString => false
     | String _ rest => is_substring needle rest
     end.

(** [field not in v]; [TypeError] when [v] is not a container. *)
Definition not_in (field : string) (entity : pyval) : outcome bool :=
  match entity with
  | VDict d => Returns (negb (bool_decide (is_Some (d !! field))))
  | VList l => Returns (negb (existsb (λ x, eq_str x field) l))
  | VStr s => Returns (negb (is_substring field s))
  | _ => Raises "TypeError: argument is not iterable"
  end.

(** [v[field]] with a string key. *)
Definition subscript (entity : pyval) (field : string) : outcome pyval :=
  match entity with
  | VDict d => match d !! field with
               | Some v => Returns v
               | None => Raises "KeyError"
               end
  | _ => Raises "TypeError: indices must be integers"
  end.

(** [v.get(k, dflt)]; [AttributeError] when [v] is not a dict. *)
Definition py_get (v : pyval) (k : string) (dflt : pyval) : outcome pyval :=
  match v with
  | VDict d => Returns (default dflt (d !! k))
  | _ => Raises "AttributeError: object has no attribute get"
  end.

(** The items a [for] loop over [v] visits; a dict yields its keys. *)
Definition py_iter (v : pyval) : outcome (list pyval) :=
  match v with
  | VList l => Returns l
  | VDict d => Returns (map (λ kv, VStr (fst kv)) (map_to_list d))
  | VStr s => Returns (map (λ c, VStr (String c EmptyString)) (list_ascii_of_string s))
  | _ => Raises "TypeError: object is not iterable"
  end.

End Py.
Import Py.

(** ** HTTP responses *)

Inductive response (A : Type) : Type :=
| Ok (body : A)
| HTTPException (status_code : Z) (detail : string).
Arguments Ok {A} body.
Arguments HTTPException {A} status_code detail.

Definition HTTP_400_BAD_REQUEST : Z := 400.
Definition HTTP_401_UNAUTHORIZED : Z := 401.
Definition HTTP_403_FORBIDDEN : Z := 403.
Definition HTTP_404_NOT_FOUND : Z := 404.

(** ** Security module (security_module.py) *)

Module Security.

Record Settings : Type := {
  SECRET_KEY : string;
  ALGORITHM : string;
  ACCESS_TOKEN_EXPIRE_MINUTES : Z;
  REFRESH_TOKEN_EXPIRE_MINUTES : Z
}.

(** core_config.py: the secret comes from the environment, the rest are
    the declared defaults. *)
Definition default_settings (secret : string) : Settings :=
  {| SECRET_KEY := secret;
     ALGORITHM := "HS256";
     ACCESS_TOKEN_EXPIRE_MINUTES := 30;
     REFRESH_TOKEN_EXPIRE_MINUTES := 60 * 24 * 7 |}.

(** [timedelta(minutes=m)] in seconds. *)
Definition minutes (m : Z) : Z := 60 * m.

(** The expiry check of the codec: a token whose integer [exp] claim lies
    before the current time is refused. *)
Definition claims_expired (claims : gmap string pyval) (now : Z) : bool :=
  match claims !! "exp" with
  | Some (VInt e) => e <? now
  | _ => false
  end.

Section JWT.
  (** The JWT codec is a third-party library: [jwt_encode claims key alg]
      is [jwt.encode], and [jwt_decode token key algorithms now] is
      [jwt.decode] run at time [now], with [None] for a raised
      [JWTError]. *)
  Context {token : Type}.
  Variable jwt_encode : gmap string pyval → string → string → token.
  Variable jwt_decode : token → string → list string → Z → option (gmap string pyval).
  Variable settings : Settings.

  (** The contract assumed of the codec: decoding what was encoded under
      the same key and algorithm gives back the claims, unless the token
      has expired. *)
Definition jwt_contract : Prop :=
    ∀ claims key alg now,
      jwt_decode (jwt_encode claims key alg) key [alg] now
      = if claims_expired claims now then None else Some claims.

  (** [expire] as computed by both issuers; [if expires_delta:] is false
      for an absent and for a zero [timedelta]. *)
Definition expiry (now : Z) (expires_delta : option Z) (default_minutes : Z) : Z :=
    match expires_delta with
    | Some d => if d =? 0 then now + minutes default_minutes else now + d
    | None => now + minutes default_minutes
    end.

Definition create_access_token (now : Z) (data : gmap string pyval)
      (expires_delta : option Z) : token :=
    let to_encode := data in
    let expire := expiry now expires_delta (ACCESS_TOKEN_EXPIRE_MINUTES settings) in
    let to_encode := <["type" := VStr "access"]> (<["exp" := VInt expire]> to_encode) in
    jwt_encode to_encode (SECRET_KEY settings) (ALGORITHM settings).

Definition create_refresh_token (now : Z) (data : gmap string pyval)
      (expires_delta : option Z) : token :=
    let to_encode := data in
    let expire := expiry now expires_delta (REFRESH_TOKEN_EXPIRE_MINUTES settings) in
    let to_encode := <["type" := VStr "refresh"]> (<["exp" := VInt expire]> to_encode) in
    jwt_encode to_encode (SECRET_KEY settings) (ALGORITHM settings).

Definition verify_token (now : Z) (tok : token) (token_type : string)
      : option (gmap string pyval) :=
    match jwt_decode tok (SECRET_KEY settings) [ALGORITHM settings] now with
    | Some payload =>
        let token_type_in_token := dict_get payload "type" in
        if negb (eq_str token_type_in_token token_type) then None
        else
          let username := dict_get payload "sub" in
          if is_none username then None
          else Some payload
    | None => None
    end.
End JWT.

(** The claim sets the two issuers hand to the codec. *)
Definition access_claims (settings : Settings) (now : Z) (data : gmap string pyval)
    (delta : option Z) : gmap string pyval :=
  <["type" := VStr "access"]>
    (<["exp" := VInt (expiry now delta (ACCESS_TOKEN_EXPIRE_MINUTES settings))]> data).

Definition refresh_claims (settings : Settings) (now : Z) (data : gmap string pyval)
    (delta : option Z) : gmap string pyval :=
  <["type" := VStr "refresh"]>
    (<["exp" := VInt (expiry now delta (REFRESH_TOKEN_EXPIRE_MINUTES settings))]> data).

(** The claim set the login route issues tokens from, for one user. *)
Definition login_claims : gmap string pyval :=
  <["sub" := VStr "alice"]> (<["user_id" := VInt 1]> (<["role" := VStr "user"]> ∅)).

(** A symbolic codec: a token is the claims together with the key and
    algorithm that signed it, and decoding checks all three. *)
Record sym_token : Type := {
  sym_claims : gmap string pyval;
  sym_key : string;
  sym_alg : string
}.

Definition sym_encode (claims : gmap string pyval) (key alg : string) : sym_token :=
  {| sym_claims := claims; sym_key := key; sym_alg := alg |}.

Definition sym_decode (tok : sym_token) (key : string) (algorithms : list string)
    (now : Z) : option (gmap string pyval) :=
  if String.eqb (sym_key tok) key
     && existsb (String.eqb (sym_alg tok)) algorithms
     && negb (claims_expired (sym_claims tok) now)
  then Some (sym_claims tok)
  else None.

(** *** Users, sessions and the revocation list *)

Record User : Type := {
  user_id : Z;
  username : string;
  email : string;
  is_active : bool;
  role : string
}.

Record UserSession : Type := {
  session_id : Z;
  session_user_id : Z;
  session_token : string;
  session_is_active : bool;
  expires_at : Z
}.

Section Auth.
  Context {token : Type} `{Countable token}.
  Variable jwt_decode : token → string → list string → Z → option (gmap string pyval).
  Variable settings : Settings.

  (** The relational tables the auth routes touch, and the process-wide
      [token_blacklist]. *)
Record AppState : Type := {
    users : list User;
    user_sessions : list UserSession;
    _blacklisted_tokens : gset token
  }.

Definition blacklist_token (tok : token) (st : AppState) : AppState :=
    {| users := users st;
       user_sessions := user_sessions st;
       _blacklisted_tokens := {[tok]} ∪ _blacklisted_tokens st |}.

Definition is_blacklisted (tok : token) (st : AppState) : bool :=
    bool_decide (tok ∈ _blacklisted_tokens st).

Definition logout_user (tok : token) (st : AppState) : AppState :=
    blacklist_token tok st.

  (** [db.query(User).filter(User.username == username).first()] *)
Definition query_user_by_username (name : pyval) (st : AppState) : option User :=
    find (λ u, eq_str name (username u)) (users st).

Definition get_current_user (now : Z) (credentials : token) (st : AppState)
      : response User :=
    let credentials_exception :=
      HTTPException HTTP_401_UNAUTHORIZED "Could not validate credentials" in
    match verify_token jwt_decode settings now credentials "access" with
    | None => credentials_exception
    | Some payload =>
        let name := dict_get payload "sub" in
        if is_none name then credentials_exception
        else match query_user_by_username name st with
             | None => credentials_exception
             | Some user => Ok user
             end
    end.

Definition get_current_active_user (now : Z) (credentials : token) (st : AppState)
      : response User :=
    match get_current_user now credentials st with
    | Ok current_user =>
        if negb (is_active current_user)
        then HTTPException 400 "Inactive user"
        else Ok current_user
    | HTTPException c d => HTTPException c d
    end.

Definition get_current_user_with_blacklist_check (now : Z) (credentials : token)
      (st : AppState) : response User :=
    if is_blacklisted credentials st
    then HTTPException HTTP_401_UNAUTHORIZED "Token has been revoked"
    else get_current_user now credentials st.

  (** *** Auth router (auth_router.py) *)

Definition deactivate (s : UserSession) : UserSession :=
    {| session_id := session_id s;
       session_user_id := session_user_id s;
       session_token := session_token s;
       session_is_active := false;
       expires_at := expires_at s |}.

  (** [POST /auth/logout] *)
Definition logout (now : Z) (credentials : token) (st : AppState)
      : response string * AppState :=
    match get_current_active_user now credentials st with
    | HTTPException c d => (HTTPException c d, st)
    | Ok current_user =>
        let st := logout_user credentials st in
        let sessions :=
          map (λ s, if (session_user_id s =? user_id current_user)
                       && session_is_active s
                    then deactivate s else s)
              (user_sessions st) in
        (Ok "Successfully logged out",
         {| users := users st;
            user_sessions := sessions;
            _blacklisted_tokens := _blacklisted_tokens st |})
    end.

  (** [GET /auth/sessions]: the ids of the caller's active, unexpired
      sessions. *)
Definition get_user_sessions (now : Z) (credentials : token) (st : AppState)
      : response (list Z) :=
    match get_current_active_user now credentials st with
    | HTTPException c d => HTTPException c d
    | Ok current_user =>
        Ok (map session_id
              (List.filter (λ s, (session_user_id s =? user_id current_user)
                            && session_is_active s
                            && (now <? expires_at s))
                      (user_sessions st)))
    end.

  (** [GET /auth/me], reduced to the identity fields of the profile. *)
Definition get_current_user_profile (now : Z) (credentials : token) (st : AppState)
      : response User :=
    get_current_active_user now credentials st.
End Auth.

(** *** A small deployment, used to run the routes

    Tokens are strings here; [demo_decode] is the codec's answer for the
    one token in play: the access token issued to alice at time 1000
    under the default 30-minute lifetime, signed with the deployment's
    secret. *)
Definition demo_settings : Settings := default_settings "s3cret".

Definition alice_token : string := "eyJhbGciOiJIUzI1NiJ9.alice.c2ln".

Definition demo_decode (tok key : string) (algorithms : list string) (now : Z)
    : option (gmap string pyval) :=
  if String.eqb tok alice_token
     && String.eqb key (SECRET_KEY demo_settings)
     && existsb (String.eqb (ALGORITHM demo_settings)) algorithms
     && negb (claims_expired (access_claims demo_settings 1000 login_claims None) now)
  then Some (access_claims demo_settings 1000 login_claims None)
  else None.

Definition alice : User :=
  {| user_id := 1; username := "alice"; email := "a@x.com";
     is_active := true; role := "user" |}.

Definition bob : User :=
  {| user_id := 2; username := "bob"; email := "b@x.com";
     is_active := true; role := "user" |}.

Definition demo_state : AppState (token := string) :=
  {| users := [alice; bob];
     user_sessions :=
       [ {| session_id := 1; session_user_id := 1;
            session_token := "eyJhbGciOiJIUzI1NiJ9.alice.c2ln";
            session_is_active := true; expires_at := 2800 |};
         {| session_id := 2; session_user_id := 2; session_token := "bob";
            session_is_active := true; expires_at := 2800 |};
         {| session_id := 3; session_user_id := 1; session_token := "older";
            session_is_active := true; expires_at := 2000 |} ];
     _blacklisted_tokens := ∅ |}.

End Security.

(** ** Relational store and the document / user-story routers
    (documents_router.py, user_stories_router.py, *_model.py) *)

Module Routers.

(** An ORM row: attribute name to value.  Reading an attribute that was
    never set gives [None]; [setattr] is an insert. *)
Abbreviation row := (gmap string pyval).

Definition attr (r : row) (k : string) : pyval := default VNone (r !! k).

(** [Column == n] for an integer [n]. *)
Definition col_eq_int (r : row) (k : string) (n : Z) : bool :=
  match attr r k with
  | VInt m => m =? n
  | _ => false
  end.

Definition col_eq_str (r : row) (k : string) (s : string) : bool :=
  eq_str (attr r k) s.

(** The dictionary a model's [to_dict] builds from the listed attributes. *)
Definition to_dict_of (columns : list string) (r : row) : gmap string pyval :=
  list_to_map (map (λ k, (k, attr r k)) columns).

Definition Document_columns : list string :=
  [ "id"; "filename"; "original_filename"; "file_path"; "file_size"; "file_type";
    "document_type"; "title"; "summary"; "status"; "processing_error";
    "embeddings_generated"; "vector_store_id"; "chunk_count"; "project_id";
    "uploaded_by_id"; "source_type"; "source_id"; "source_url";
    "extracted_metadata"; "entities"; "keywords"; "kg_document_id";
    "created_at"; "updated_at"; "processed_at" ].

Definition Document_to_dict : row → gmap string pyval := to_dict_of Document_columns.

Definition UserStory_columns : list string :=
  [ "id"; "title"; "persona"; "functionality"; "benefit"; "story_text";
    "description"; "acceptance_criteria"; "definition_of_done"; "status";
    "priority"; "story_points"; "business_value"; "generated_by_ai";
    "generation_prompt"; "generation_context"; "confidence_score";
    "quality_score"; "clarity_score"; "completeness_score"; "testability_score";
    "project_id"; "created_by_user_id"; "assigned_to_user_id"; "jira_issue_key";
    "external_id"; "external_url"; "kg_story_id"; "source_documents";
    "source_requirements"; "tags"; "epic"; "theme"; "feature"; "estimated_hours";
    "complexity"; "risk_level"; "depends_on"; "blocks"; "created_at";
    "updated_at"; "approved_at"; "completed_at" ].

Definition UserStory_to_dict : row → gmap string pyval := to_dict_of UserStory_columns.

Record Project : Type := {
  project_id : Z;
  owner_id : Z
}.

Record UserStoryVersion : Type := {
  version_id : Z;
  user_story_id : Z;
  version_number : Z;
  change_description : pyval;
  changed_by_user_id : Z;
  story_data : gmap string pyval;
  version_created_at : Z
}.

Record Database : Type := {
  projects : list Project;
  documents : list row;
  user_stories : list row;
  user_story_versions : list UserStoryVersion;
  upload_dir : gset string
}.

(** [.first()] of a filtered query, and the in-place update and deletion of
    the object it returned. *)
Fixpoint replace_first {A} (p : A → bool) (new : A) (l : list A) : list A :=
  match l with
  | [] => []
  | x :: l' => if p x then new :: l' else x :: replace_first p new l'
  end.

Fixpoint delete_first {A} (p : A → bool) (l : list A) : list A :=
  match l with
  | [] => []
  | x :: l' => if p x then l' else x :: delete_first p l'
  end.

(** [.join(Project).filter(..., Project.owner_id == current_user.id)]:
    the row's project exists and belongs to the user. *)
Definition owned_by (db : Database) (uid : Z) (r : row) : bool :=
  existsb (λ p, col_eq_int r "project_id" (project_id p) && (owner_id p =? uid))
          (projects db).

Definition owned_with_id (db : Database) (uid id : Z) (r : row) : bool :=
  col_eq_int r "id" id && owned_by db uid r.

Definition query_owned_document (db : Database) (document_id uid : Z) : option row :=
  find (owned_with_id db uid document_id) (documents db).

Definition query_owned_story (db : Database) (story_id uid : Z) : option row :=
  find (owned_with_id db uid story_id) (user_stories db).

(** [db.query(Project).filter(Project.id == pid, Project.owner_id == uid).first()] *)
Definition query_owned_project (db : Database) (pid uid : Z) : option Project :=
  find (λ p, (project_id p =? pid) && (owner_id p =? uid)) (projects db).

(** [ORDER BY created_at DESC] *)
Definition created_at (r : row) : Z :=
  match attr r "created_at" with
  | VInt t => t
  | _ => 0
  end.

Fixpoint insert_desc (x : row) (l : list row) : list row :=
  match l with
  | [] => [x]
  | y :: l' => if created_at y <? created_at x then x :: l else y :: insert_desc x l'
  end.

Definition order_by_created_desc (l : list row) : list row :=
  foldr insert_desc [] l.

(** [skip] and [limit] arrive validated ([skip >= 0], [1 <= limit <= 1000]). *)
Definition paginate {A} (skip limit : nat) (l : list A) : list A :=
  firstn limit (skipn skip l).

Record ListResponse : Type := {
  items : list (gmap string pyval);
  total : nat;
  resp_skip : nat;
  resp_limit : nat
}.

Definition set_documents (db : Database) (docs : list row) : Database :=
  {| projects := projects db; documents := docs; user_stories := user_stories db;
     user_story_versions := user_story_versions db; upload_dir := upload_dir db |}.

Definition set_user_stories (db : Database) (stories : list row) : Database :=
  {| projects := projects db; documents := documents db; user_stories := stories;
     user_story_versions := user_story_versions db; upload_dir := upload_dir db |}.

Definition not_found_document {A} : response A :=
  HTTPException HTTP_404_NOT_FOUND "Document not found or access denied".

Definition not_found_story {A} : response A :=
  HTTPException HTTP_404_NOT_FOUND "User story not found or access denied".

Definition not_found_project {A} : response A :=
  HTTPException HTTP_404_NOT_FOUND "Project not found or access denied".

(** An optional string filter is applied when it is given and non-empty. *)
Definition filter_opt (f : option string) (test : string → row → bool) (l : list row)
    : list row :=
  match f with
  | Some v => if String.eqb v "" then l else List.filter (test v) l
  | None => l
  end.

Section Routes.
(** The store's [ILIKE '%search%'] operator on a column value. *)
Variable ilike : pyval → string → bool.

(** *** Documents *)

(** [GET /documents/{document_id}] *)
Definition get_document (document_id : Z) (current_user : Security.User)
    (db : Database) : response (gmap string pyval) :=
  match query_owned_document db document_id (Security.user_id current_user) with
  | None => not_found_document
  | Some document => Ok (Document_to_dict document)
  end.

(** [PUT /documents/{document_id}]; [document_update] holds the fields the
    request set. *)
Definition update_document (now : Z) (document_id : Z) (document_update : gmap string pyval)
    (current_user : Security.User) (db : Database)
    : response (gmap string pyval) * Database :=
  let uid := Security.user_id current_user in
  match query_owned_document db document_id uid with
  | None => (not_found_document, db)
  | Some document =>
      let update_data := document_update in
      let document' := <["updated_at" := VInt now]> (update_data ∪ document) in
      (Ok (Document_to_dict document'),
       set_documents db
         (replace_first (owned_with_id db uid document_id) document' (documents db)))
  end.

(** [DELETE /documents/{document_id}] *)
Definition delete_document (document_id : Z) (current_user : Security.User)
    (db : Database) : response string * Database :=
  let uid := Security.user_id current_user in
  match query_owned_document db document_id uid with
  | None => (not_found_document, db)
  | Some document =>
      let dir := match attr document "file_path" with
                 | VStr path => upload_dir db ∖ {[path]}
                 | _ => upload_dir db
                 end in
      (Ok "Document deleted successfully",
       {| projects := projects db;
          documents := delete_first (owned_with_id db uid document_id) (documents db);
          user_stories := user_stories db;
          user_story_versions := user_story_versions db;
          upload_dir := dir |})
  end.

(** The rows a listing starts from: those of the given project after the
    ownership check, or those of all of the caller's projects. *)
Definition scope_to_projects (project_filter : option Z) (uid : Z) (db : Database)
    (table : list row) : response (list row) :=
  let own := List.filter (owned_by db uid) table in
  match project_filter with
  | Some pid =>
      if pid =? 0 then Ok own
      else match query_owned_project db pid uid with
           | None => not_found_project
           | Some _ => Ok (List.filter (λ r, col_eq_int r "project_id" pid) table)
           end
  | None => Ok own
  end.

(** [GET /documents/] *)
Definition list_documents (project_filter : option Z)
    (document_type status search : option string) (skip limit : nat)
    (current_user : Security.User) (db : Database) : response ListResponse :=
  match scope_to_projects project_filter (Security.user_id current_user) db (documents db) with
  | HTTPException c d => HTTPException c d
  | Ok query =>
      let query := filter_opt document_type (λ v r, col_eq_str r "document_type" v) query in
      let query := filter_opt status (λ v r, col_eq_str r "status" v) query in
      let query := filter_opt search
                     (λ v r, ilike (attr r "title") v || ilike (attr r "content") v) query in
      let documents := paginate skip limit (order_by_created_desc query) in
      Ok {| items := map Document_to_dict documents;
            total := length query; resp_skip := skip; resp_limit := limit |}
  end.

(** *** User stories *)

(** [GET /user-stories/{story_id}] *)
Definition get_user_story (story_id : Z) (current_user : Security.User)
    (db : Database) : response (gmap string pyval) :=
  match query_owned_story db story_id (Security.user_id current_user) with
  | None => not_found_story
  | Some story => Ok (UserStory_to_dict story)
  end.

(** [story.versions] *)
Definition story_versions (db : Database) (story_id : Z) : list UserStoryVersion :=
  List.filter (λ v, user_story_id v =? story_id) (user_story_versions db).

(** The primary key [db.add] assigns. *)
Definition next_version_id (db : Database) : Z :=
  1 + fold_right Z.max 0 (map version_id (user_story_versions db)).

(** [PUT /user-stories/{story_id}]; [story_update] holds the fields the
    request set.  The row found has [id = story_id]. *)
Definition update_user_story (now : Z) (story_id : Z) (story_update : gmap string pyval)
    (current_user : Security.User) (db : Database)
    : response (gmap string pyval) * Database :=
  let uid := Security.user_id current_user in
  match query_owned_story db story_id uid with
  | None => (not_found_story, db)
  | Some story =>
      let description := attr story_update "change_description" in
      let version :=
        {| version_id := next_version_id db;
           user_story_id := story_id;
           version_number := Z.of_nat (length (story_versions db story_id)) + 1;
           change_description :=
             if truthy description then description else VStr "Updated via API";
           changed_by_user_id := uid;
           story_data := UserStory_to_dict story;
           version_created_at := now |} in
      let update_data := delete "change_description" story_update in
      let story' := <["updated_at" := VInt now]> (update_data ∪ story) in
      (Ok (UserStory_to_dict story'),
       {| projects := projects db;
          documents := documents db;
          user_stories :=
            replace_first (owned_with_id db uid story_id) story' (user_stories db);
          user_story_versions := user_story_versions db ++ [version];
          upload_dir := upload_dir db |})
  end.

(** [DELETE /user-stories/{story_id}] *)
Definition delete_user_story (story_id : Z) (current_user : Security.User)
    (db : Database) : response string * Database :=
  let uid := Security.user_id current_user in
  match query_owned_story db story_id uid with
  | None => (not_found_story, db)
  | Some story =>
      (Ok "User story deleted successfully",
       set_user_stories db
         (delete_first (owned_with_id db uid story_id) (user_stories db)))
  end.

(** [GET /user-stories/] *)
Definition list_user_stories (project_filter : option Z)
    (status priority : option string) (assigned_to : option Z)
    (search : option string) (skip limit : nat)
    (current_user : Security.User) (db : Database) : response ListResponse :=
  match scope_to_projects project_filter (Security.user_id current_user) db (user_stories db) with
  | HTTPException c d => HTTPException c d
  | Ok query =>
      let query := filter_opt status (λ v r, col_eq_str r "status" v) query in
      let query := filter_opt priority (λ v r, col_eq_str r "priority" v) query in
      let query := match assigned_to with
                   | Some a => if a =? 0 then query
                               else List.filter (λ r, col_eq_int r "assigned_to_user_id" a) query
                   | None => query
                   end in
      let query := filter_opt search
                     (λ v r, ilike (attr r "title") v || ilike (attr r "description") v
                             || ilike (attr r "story_text") v) query in
      let stories := paginate skip limit (order_by_created_desc query) in
      Ok {| items := map UserStory_to_dict stories;
            total := length query; resp_skip := skip; resp_limit := limit |}
  end.
End Routes.

(** *** Conditions on the store used to state the routes' properties *)

(** A row that no project of the caller holds is invisible to the
    by-id queries; a row that does not exist is invisible for the same
    reason. *)
Definition foreign (db : Database) (uid id : Z) (table : list row) : Prop :=
  ∀ r, In r table → col_eq_int r "id" id = true → owned_by db uid r = false.

(** The table's primary key: no two rows share an [id]. *)
Definition primary_key (table : list row) : Prop :=
  ∀ r1 r2, In r1 table → In r2 table → attr r1 "id" = attr r2 "id" → r1 = r2.

(** The condition of the claim: a stored row, under its table's primary
    key, whose parent project (a positive auto-increment key) is not one
    of the caller's. *)
Definition not_owned (db : Database) (u : Security.User) (table : list row)
    (r : row) (id pid : Z) : Prop :=
  primary_key table ∧ In r table
  ∧ attr r "id" = VInt id ∧ attr r "project_id" = VInt pid ∧ 0 < pid
  ∧ owned_by db (Security.user_id u) r = false.

(** A store in which the id, respectively the project, does not exist. *)
Definition no_row (table : list row) (id : Z) : Prop :=
  ∀ r, In r table → col_eq_int r "id" id = false.

Definition no_project (db : Database) (pid : Z) : Prop :=
  ∀ p, In p (projects db) → project_id p ≠ pid.

(** An existing story of a project the caller owns. *)
Definition owned_story (db : Database) (u : Security.User) (story : row) (id : Z) : Prop :=
  primary_key (user_stories db) ∧ In story (user_stories db)
  ∧ attr story "id" = VInt id
  ∧ owned_by db (Security.user_id u) story = true.

(** *** A small store, used to run the routes: alice (user 1) owns
    project 1, bob (user 2) owns project 2; each project has one document
    and one story, and story 1 has been updated once before. *)
Definition demo_document (id pid : Z) (title : string) : row :=
  <["id" := VInt id]> (<["project_id" := VInt pid]> (<["title" := VStr title]>
  (<["file_path" := VStr title]> (<["created_at" := VInt (100 + id)]> ∅)))).

Definition demo_story (id pid : Z) (title : string) : row :=
  <["id" := VInt id]> (<["project_id" := VInt pid]> (<["title" := VStr title]>
  (<["status" := VStr "draft"]> (<["priority" := VStr "medium"]>
  (<["created_at" := VInt (200 + id)]> ∅))))).

Definition demo_db : Database :=
  {| projects := [ {| project_id := 1; owner_id := 1 |};
                   {| project_id := 2; owner_id := 2 |} ];
     documents := [ demo_document 1 1 "alice.txt"; demo_document 2 2 "bob.txt" ];
     user_stories := [ demo_story 1 1 "Alice's story"; demo_story 2 2 "Bob's story" ];
     user_story_versions :=
       [ {| version_id := 1; user_story_id := 1; version_number := 1;
            change_description := VStr "Updated via API"; changed_by_user_id := 1;
            story_data := UserStory_to_dict (demo_story 1 1 "Draft");
            version_created_at := 250 |} ];
     upload_dir := {[ "alice.txt"; "bob.txt" ]} |}.

Definition demo_update : gmap string pyval :=
  <["title" := VStr "Alice's better story"]> (<["status" := VStr "review"]>
  (<["change_description" := VStr "tighten wording"]> ∅)).

End Routers.

(** ** Context retrieval (rag_service.py) *)

Module Rag.

(** A LangChain document as the vector store returns it. *)
Record Document : Type := {
  page_content : string;
  metadata : gmap string pyval
}.

Section Retrieval.
(** Similarity scores are floats; the code only compares them ([>=]) and
    tests them for truth ([x or default]), so both operations are
    parameters.  The vector store is an oracle
    [similarity_search_with_score query k project_id filter]. *)
Context {score : Type}.
Variable score_ge : score → score → bool.
Variable score_truthy : score → bool.
Variable similarity_search_with_score :
  string → Z → Z → option (gmap string pyval) → outcome (list (Document * score)).
Variable TOP_K_RETRIEVAL : Z.
Variable SIMILARITY_THRESHOLD : score.

Record ContextEntry : Type := {
  content : string;
  entry_metadata : gmap string pyval;
  similarity_score : score
}.

(** The body of the [for doc, score in results] loop. *)
Definition keep_relevant (similarity_threshold : score)
    (relevant_context : list ContextEntry) (result : Document * score)
    : list ContextEntry :=
  let (doc, score) := result in
  if score_ge score similarity_threshold
  then relevant_context ++ [ {| content := page_content doc;
                                entry_metadata := metadata doc;
                                similarity_score := score |} ]
  else relevant_context.

(** [k or settings.TOP_K_RETRIEVAL] *)
Definition effective_k (k : option Z) : Z :=
  match k with
  | Some k' => if k' =? 0 then TOP_K_RETRIEVAL else k'
  | None => TOP_K_RETRIEVAL
  end.

(** [{"project_id": project_id} if project_id else None] *)
Definition project_filter_dict (project_id : Z) : option (gmap string pyval) :=
  if project_id =? 0 then None
  else Some (<["project_id" := VInt project_id]> (∅ : gmap string pyval)).

Definition retrieve_relevant_context (query : string) (project_id : Z)
    (k : option Z) (similarity_threshold : option score)
    : outcome (list ContextEntry) :=
  let k := effective_k k in
  let similarity_threshold :=
    match similarity_threshold with
    | Some t => if score_truthy t then t else SIMILARITY_THRESHOLD
    | None => SIMILARITY_THRESHOLD
    end in
  let filter_dict := project_filter_dict project_id in
  match similarity_search_with_score query k project_id filter_dict with
  | Returns results => Returns (fold_left (keep_relevant similarity_threshold) results [])
  | Raises e => Raises e
  end.

(** The entry built from one search result. *)
Definition entry_of (result : Document * score) : ContextEntry :=
  {| content := page_content (fst result);
     entry_metadata := metadata (fst result);
     similarity_score := snd result |}.
End Retrieval.

(** An index of three chunks with rational scores, for running the
    retrieval. *)
Definition q_ge (a b : Q) : bool := Qle_bool b a.
Definition q_truthy (a : Q) : bool := negb (Qeq_bool a 0).

Definition demo_chunk (text : string) : Document :=
  {| page_content := text; metadata := ∅ |}.

Definition demo_results : list (Document * Q) :=
  [ (demo_chunk "login flow", 9 # 10);
    (demo_chunk "billing", 1 # 2);
    (demo_chunk "password reset", 7 # 10) ].

Definition demo_search (query : string) (k project_id : Z)
    (filter_dict : option (gmap string pyval)) : outcome (list (Document * Q)) :=
  Returns demo_results.

End Rag.

(** ** Entity extraction and validation (knowledge_graph_service.py) *)

Module KnowledgeGraph.

(** [[e.value for e in EntityType]] (knowledge_graph_model.py) *)
Definition EntityType_values : list string :=
  [ "project"; "requirement"; "feature"; "user_story"; "stakeholder";
    "business_rule"; "dependency"; "risk"; "persona"; "system"; "process" ].

Definition required_fields : list string := ["name"; "type"; "description"].

(** The [for field in required_fields] loop: [Returns false] stands for
    the early [return False], [Returns true] for falling through. *)
Fixpoint check_required (fields : list string) (entity : pyval) : outcome bool :=
  match fields with
  | [] => Returns true
  | field :: fields' =>
      match not_in field entity with
      | Raises e => Raises e
      | Returns true => Returns false
      | Returns false =>
          match subscript entity field with
          | Raises e => Raises e
          | Returns v => if negb (truthy v) then Returns false
                         else check_required fields' entity
          end
      end
  end.

(** [isinstance(v, (int, float))]; [bool] is a subclass of [int]. *)
Definition is_int_or_float (v : pyval) : bool :=
  match v with
  | VBool _ | VInt _ | VFloat _ => true
  | _ => false
  end.

(** [v < 0 or v > 1] for a number. *)
Definition outside_unit_interval (v : pyval) : bool :=
  match v with
  | VBool _ => false
  | VInt n => (n <? 0) || (1 <? n)
  | VFloat q => negb (Qle_bool 0 q) || negb (Qle_bool q 1)
  | _ => false
  end.

Definition one_half : pyval := VFloat (1 # 2).

(** Returns the verdict together with the entity as the call leaves it. *)
Definition _validate_entity (entity : pyval) : outcome (bool * pyval) :=
  match check_required required_fields entity with
  | Raises e => Raises e
  | Returns false => Returns (false, entity)
  | Returns true =>
      match subscript entity "type" with
      | Raises e => Raises e
      | Returns ty =>
          if negb (existsb (eq_str ty) EntityType_values) then Returns (false, entity)
          else
            match entity with
            | VDict d =>
                let confidence := dict_get_default d "confidence" one_half in
                if negb (is_int_or_float confidence) || outside_unit_interval confidence
                then Returns (true, VDict (<["confidence" := one_half]> d))
                else Returns (true, entity)
            | _ => Raises "AttributeError: no attribute get"
            end
      end
  end.

(** [text[:200] + "..." if len(text) > 200 else text] *)
Definition source_excerpt (text : string) : string :=
  if (200 <? String.length text)%nat then String.substring 0 200 text +:+ "..."
  else text.

(** The three item assignments made on a validated entity. *)
Definition enrich (project_id : Z) (extracted_at : string) (text : string)
    (entity : pyval) : outcome pyval :=
  match entity with
  | VDict d =>
      Returns (VDict (<["source_text" := VStr (source_excerpt text)]>
                     (<["extracted_at" := VStr extracted_at]>
                     (<["project_id" := VInt project_id]> d))))
  | _ => Raises "TypeError: object does not support item assignment"
  end.

(** The [for entity in entities] loop. *)
Fixpoint validate_all (project_id : Z) (extracted_at text : string)
    (entities : list pyval) (validated_entities : list pyval) : outcome (list pyval) :=
  match entities with
  | [] => Returns validated_entities
  | entity :: entities' =>
      match _validate_entity entity with
      | Raises e => Raises e
      | Returns (false, _) =>
          validate_all project_id extracted_at text entities' validated_entities
      | Returns (true, entity) =>
          match enrich project_id extracted_at text entity with
          | Raises e => Raises e
          | Returns entity =>
              validate_all project_id extracted_at text entities'
                (validated_entities ++ [entity])
          end
      end
  end.

Section Extraction.
(** [json.loads], with [None] for a [JSONDecodeError]. *)
Variable json_loads : string → option pyval.

(** [llm_text] is what [llm_service.generate_text(...)["text"]] produced
    for the extraction prompt; [extracted_at] is
    [datetime.utcnow().isoformat()]. *)
Definition extract_entities_from_text (text : string) (project_id : Z)
    (extracted_at : string) (llm_text : outcome string) : list pyval :=
  match llm_text with
  | Raises _ => []
  | Returns response =>
      match json_loads response with
      | None => []
      | Some entities =>
          let entities := match entities with
                          | VList l => l
                          | _ => []
                          end in
          match validate_all project_id extracted_at text entities [] with
          | Returns validated_entities => validated_entities
          | Raises _ => []
          end
      end
  end.
End Extraction.

(** *** The validation rule in the specification's words *)

(** A candidate passes when it is an object whose [name], [type] and
    [description] are present and non-empty and whose [type] is one of the
    eleven allow-listed values. *)
Definition spec_valid (candidate : pyval) : bool :=
  match candidate with
  | VDict d =>
      forallb (λ field, truthy (dict_get d field)) required_fields
      && existsb (eq_str (dict_get d "type")) EntityType_values
  | _ => false
  end.

(** A confidence that is not a number or lies outside [0,1]. *)
Definition bad_confidence (v : pyval) : bool :=
  negb (is_int_or_float v) || outside_unit_interval v.

(** A present, bad confidence becomes 0.5; everything else stays. *)
Definition spec_coerce (candidate : pyval) : pyval :=
  match candidate with
  | VDict d =>
      match d !! "confidence" with
      | Some v => if bad_confidence v then VDict (<["confidence" := one_half]> d)
                  else candidate
      | None => candidate
      end
  | _ => candidate
  end.

Definition spec_enrich (project_id : Z) (extracted_at text : string)
    (candidate : pyval) : pyval :=
  match candidate with
  | VDict d =>
      VDict (<["source_text" := VStr (source_excerpt text)]>
            (<["extracted_at" := VStr extracted_at]>
            (<["project_id" := VInt project_id]> d)))
  | _ => candidate
  end.

(** Candidates on which validation itself raises, so that the whole
    extraction is abandoned: scalars, arrays holding the string "name",
    and strings containing it. *)
Definition malformed (candidate : pyval) : bool :=
  match candidate with
  | VDict _ => false
  | VList l => existsb (λ x, eq_str x "name") l
  | VStr s => is_substring "name" s
  | _ => true
  end.

(** What the extraction keeps of a candidate list when no candidate is
    malformed: the valid candidates, coerced and tagged, in order. *)
Definition accepted (project_id : Z) (extracted_at text : string)
    (candidates : list pyval) : list pyval :=
  map (λ c, spec_enrich project_id extracted_at text (spec_coerce c))
      (List.filter spec_valid candidates).

(** *** A model reply, for running the extraction *)
Definition candidate (name type description : string) (confidence : pyval) : pyval :=
  VDict (<["name" := VStr name]> (<["type" := VStr type]>
        (<["description" := VStr description]> (<["confidence" := confidence]> ∅)))).

Definition demo_candidates : list pyval :=
  [ candidate "Checkout" "feature" "Pay for a basket" (VFloat (17 # 10));
    candidate "Gadget" "widget" "Not an entity type" (VFloat (9 # 10));
    candidate "Shopper" "persona" "" (VFloat (9 # 10));
    candidate "Refund rule" "business_rule" "Refund within 30 days" (VStr "high");
    candidate "Ledger" "system" "Books the payment" (VFloat (9 # 10)) ].

Definition demo_json_loads (response : string) : option pyval :=
  if String.eqb response "[five entities]" then Some (VList demo_candidates) else None.

End KnowledgeGraph.

(** ** Text processing utilities (text_processing_utils.py) *)

Module TextProcessing.

(** A [str]: one [ascii] per character (code points below 256). *)
Abbreviation text := (list ascii).

Definition str (s : string) : text := list_ascii_of_string s.

Definition code (c : ascii) : nat := nat_of_ascii c.

Definition between (lo hi n : nat) : bool := ((lo <=? n) && (n <=? hi))%nat.

(** [str.isspace], which is also the regular expression class [\s]. *)
Definition isspace (c : ascii) : bool :=
  let n := code c in
  between 9 13 n || between 28 32 n || (n =? 133)%nat || (n =? 160)%nat.

(** [[a-zA-Z]] *)
Definition is_ascii_letter (c : ascii) : bool :=
  let n := code c in between 65 90 n || between 97 122 n.

(** The regular expression class [\w]: alphanumeric characters and the
    underscore. *)
Definition is_word_char (c : ascii) : bool :=
  let n := code c in
  between 48 57 n || between 65 90 n || (n =? 95)%nat || between 97 122 n
  || (n =? 170)%nat || between 178 179 n || (n =? 181)%nat || between 185 186 n
  || between 188 190 n || between 192 214 n || between 216 246 n || between 248 255 n.

(** [str.lower] on one character. *)
Definition lower_char (c : ascii) : ascii :=
  let n := code c in
  if between 65 90 n || between 192 214 n || between 216 222 n
  then ascii_of_nat (n + 32) else c.

Definition lower (t : text) : text := map lower_char t.

Definition len (t : text) : Z := Z.of_nat (length t).

Definition nonempty (t : text) : bool :=
  match t with
  | [] => false
  | _ :: _ => true
  end.

Fixpoint text_eqb (a b : text) : bool :=
  match a, b with
  | [], [] => true
  | x :: a', y :: b' => Ascii.eqb x y && text_eqb a' b'
  | _, _ => false
  end.

(** [t.strip()] *)
Fixpoint lstrip (t : text) : text :=
  match t with
  | c :: t' => if isspace c then lstrip t' else t
  | [] => []
  end.

Definition rstrip (t : text) : text := rev (lstrip (rev t)).

Definition strip (t : text) : text := rstrip (lstrip t).

(** A slice bound as Python normalises it: negative bounds count from the
    end, and all bounds are clamped to the string. *)
Definition slice_bound (t : text) (i : Z) : nat :=
  Z.to_nat (if i <? 0 then Z.max 0 (i + len t) else Z.min i (len t)).

(** [t[start:stop]] *)
Definition slice (t : text) (start stop : Z) : text :=
  firstn (slice_bound t stop - slice_bound t start) (skipn (slice_bound t start) t).

(** [t[start:]] *)
Definition slice_from (t : text) (start : Z) : text :=
  skipn (slice_bound t start) t.

(** [t[i]] for an index inside the string. *)
Definition char_at (t : text) (i : Z) : ascii :=
  nth (Z.to_nat i) t " "%char.

(** *** Keyword extraction *)

(** The maximal runs of word characters, left to right; [run] is the run
    being read, reversed. *)
Fixpoint word_runs (run : text) (t : text) : list text :=
  match t with
  | [] => if nonempty run then [rev run] else []
  | c :: t' =>
      if is_word_char c then word_runs (c :: run) t'
      else if nonempty run then rev run :: word_runs [] t'
      else word_runs [] t'
  end.

(** [re.findall(r'\b[a-zA-Z]{3,}\b', t)]: a match starts and ends at a
    word boundary, so it is a whole run of word characters, made of at
    least three letters. *)
Definition findall_words (t : text) : list text :=
  List.filter (λ w, forallb is_ascii_letter w && (3 <=? length w)%nat)
              (word_runs [] t).

Definition stop_words : list text :=
  map str
    [ "the"; "a"; "an"; "and"; "or"; "but"; "in"; "on"; "at"; "to"; "for"; "of"; "with";
      "by"; "from"; "up"; "about"; "into"; "through"; "during"; "before"; "after"; "above";
      "below"; "under"; "between"; "among"; "this"; "that"; "these"; "those"; "i"; "me";
      "my"; "myself"; "we"; "our"; "ours"; "ourselves"; "you"; "your"; "yours";
      "yourself"; "yourselves"; "he"; "him"; "his"; "himself"; "she"; "her"; "hers";
      "herself"; "it"; "its"; "itself"; "they"; "them"; "their"; "theirs"; "themselves";
      "what"; "which"; "who"; "whom"; "whose"; "where"; "when"; "why"; "how"; "all";
      "any"; "both"; "each"; "few"; "more"; "most"; "other"; "some"; "such"; "no";
      "nor"; "not"; "only"; "own"; "same"; "so"; "than"; "too"; "very"; "can"; "will";
      "just"; "should"; "now"; "are"; "was"; "were"; "been"; "being"; "have"; "has";
      "had"; "having"; "do"; "does"; "did"; "doing"; "would"; "could"; "should";
      "may"; "might"; "must"; "shall"; "will"; "am"; "is" ].

Definition is_stop_word (w : text) : bool := existsb (text_eqb w) stop_words.

(** [word_freq[word] = word_freq.get(word, 0) + 1] on a dictionary that
    keeps its keys in insertion order. *)
Fixpoint count_word (word : text) (word_freq : list (text * nat)) : list (text * nat) :=
  match word_freq with
  | [] => [(word, 1%nat)]
  | (w, n) :: rest =>
      if text_eqb w word then (w, S n) :: rest else (w, n) :: count_word word rest
  end.

(** [sorted(items, key=lambda x: x[1], reverse=True)]: stable, so items
    with equal counts keep their order. *)
Fixpoint insert_by_freq (x : text * nat) (l : list (text * nat)) : list (text * nat) :=
  match l with
  | [] => [x]
  | y :: l' => if (snd y <=? snd x)%nat then x :: l else y :: insert_by_freq x l'
  end.

Definition sorted_by_freq (items : list (text * nat)) : list (text * nat) :=
  foldr insert_by_freq [] items.

(** The frequency table, with the length bound the filter applies as a
    parameter: the code keeps a word when [len(word) > 3]. *)
Definition word_frequencies (min_len : nat) (words : list text) : list (text * nat) :=
  fold_left (λ word_freq word,
               if negb (is_stop_word word) && (min_len <=? length word)%nat
               then count_word word word_freq else word_freq)
            words [].

Definition keywords_with (min_len : nat) (t : text) (max_keywords : nat) : list text :=
  if nonempty t then
    let words := findall_words (lower t) in
    let word_freq := word_frequencies min_len words in
    let sorted_words := sorted_by_freq word_freq in
    map fst (List.filter (λ item, (1 <? snd item)%nat) (firstn max_keywords sorted_words))
  else [].

Definition extract_keywords (t : text) (max_keywords : nat) : list text :=
  keywords_with 4 t max_keywords.

(** Keyword extraction as specified: words of length at least 3. *)
Definition spec_extract_keywords (t : text) (max_keywords : nat) : list text :=
  keywords_with 3 t max_keywords.

(** *** Chunking *)

Record Chunk : Type := {
  index : Z;
  chunk_content : text;
  size : Z;
  type : string
}.

(** [while end > start and text[end] != ' ': end -= 1]; the loop runs at
    most [end - start] times. *)
Fixpoint look_back (fuel : nat) (t : text) (start stop : Z) : Z :=
  match fuel with
  | O => stop
  | S fuel' =>
      if (start <? stop) && negb (Ascii.eqb (char_at t stop) " ")
      then look_back fuel' t start (stop - 1)
      else stop
  end.

(** [end] as one iteration of the chunking loop settles it. *)
Definition chunk_end (t : text) (chunk_size start : Z) : Z :=
  let stop := start + chunk_size in
  if stop <? len t then
    let stop := look_back (Z.to_nat (stop - start)) t start stop in
    if stop =? start then start + chunk_size else stop
  else stop.

(** [start = max(start + 1, end - overlap)] *)
Definition next_start (t : text) (chunk_size overlap start : Z) : Z :=
  Z.max (start + 1) (chunk_end t chunk_size start - overlap).

(** The [while start < len(text)] loop; [None] when [fuel] iterations did
    not reach its exit. *)
Fixpoint simple_chunk_loop (fuel : nat) (t : text) (chunk_size overlap : Z)
    (start chunk_index : Z) (chunks : list Chunk) : option (list Chunk) :=
  match fuel with
  | O => None
  | S fuel' =>
      if start <? len t then
        let stop := chunk_end t chunk_size start in
        let content := strip (slice t start stop) in
        let chunks' := if nonempty content
                       then chunks ++ [ {| index := chunk_index; chunk_content := content;
                                           size := len content; type := "simple" |} ]
                       else chunks in
        let chunk_index' := if nonempty content then chunk_index + 1 else chunk_index in
        simple_chunk_loop fuel' t chunk_size overlap
          (next_start t chunk_size overlap start) chunk_index' chunks'
      else Some chunks
  end.

(** One more iteration than the text has characters is always enough. *)
Definition simple_chunk_text (t : text) (chunk_size overlap : Z) : option (list Chunk) :=
  simple_chunk_loop (S (length t)) t chunk_size overlap 0 0 [].

Definition newline : ascii := ascii_of_nat 10.

(** The length of a match of [\s*\n] at the head of [t], as the greedy
    [\s*] settles it: up to the last newline of the leading whitespace. *)
Fixpoint blank_line_tail (t : text) (seen : nat) (best : option nat) : option nat :=
  match t with
  | c :: t' =>
      if isspace c
      then blank_line_tail t' (S seen) (if Ascii.eqb c newline then Some (S seen) else best)
      else best
  | [] => best
  end.

(** [re.split(r'\n\s*\n', t)]; [skip] characters of a match are still to
    be dropped, [piece] is the piece being read, reversed. *)
Fixpoint split_paragraphs_from (skip : nat) (piece : text) (t : text) : list text :=
  match t with
  | [] => [rev piece]
  | c :: t' =>
      match skip with
      | S skip' => split_paragraphs_from skip' piece t'
      | O =>
          if Ascii.eqb c newline then
            match blank_line_tail t' 0 None with
            | Some n => rev piece :: split_paragraphs_from n [] t'
            | None => split_paragraphs_from 0 (c :: piece) t'
            end
          else split_paragraphs_from 0 (c :: piece) t'
      end
  end.

Definition split_paragraphs (t : text) : list text := split_paragraphs_from 0 [] t.

(** [[.!?]] *)
Definition is_terminator (c : ascii) : bool :=
  Ascii.eqb c "."%char || Ascii.eqb c "!"%char || Ascii.eqb c "?"%char.

(** [re.split(r'[.!?]+', t)]; [in_run] says the previous character was a
    terminator. *)
Fixpoint split_sentences_from (in_run : bool) (piece : text) (t : text) : list text :=
  match t with
  | [] => [rev piece]
  | c :: t' =>
      if is_terminator c then
        if in_run then split_sentences_from true piece t'
        else rev piece :: split_sentences_from true [] t'
      else split_sentences_from false (c :: piece) t'
  end.

Definition split_sentences (t : text) : list text := split_sentences_from false [] t.

Definition make_chunk (chunk_index : Z) (raw : text) (kind : string) : Chunk :=
  {| index := chunk_index; chunk_content := strip raw; size := len raw; type := kind |}.

(** [previous[-overlap:] + separator + next] when there is overlap to
    carry and [previous] is longer than it, else [next] alone. *)
Definition carry_overlap (overlap : Z) (previous separator next : text) : text :=
  if (0 <? overlap) && (overlap <? len previous)
  then slice_from previous (- overlap) ++ separator ++ next
  else next.

(** The state of the sentence loop: chunks, next index, [sentence_chunk]. *)
Definition sentence_step (chunk_size overlap : Z)
    (st : list Chunk * Z * text) (sentence : text) : list Chunk * Z * text :=
  let '(chunks, chunk_index, sentence_chunk) := st in
  let sentence := strip sentence in
  if negb (nonempty sentence) then st
  else if chunk_size <? len sentence_chunk + len sentence then
    if nonempty sentence_chunk then
      (chunks ++ [make_chunk chunk_index sentence_chunk "sentence_boundary"],
       chunk_index + 1,
       carry_overlap overlap sentence_chunk (str " ") sentence)
    else (chunks, chunk_index, sentence)
  else (chunks, chunk_index,
        if nonempty sentence_chunk then sentence_chunk ++ str " " ++ sentence
        else sentence).

Record ChunkerState : Type := {
  chunks : list Chunk;
  current_chunk : text;
  current_size : Z;
  chunk_index : Z
}.

Definition blank_line : text := [newline; newline].

(** The body of the [for paragraph in paragraphs] loop. *)
Definition paragraph_step (chunk_size overlap : Z) (st : ChunkerState)
    (paragraph : text) : ChunkerState :=
  let paragraph := strip paragraph in
  if negb (nonempty paragraph) then st
  else
    let paragraph_size := len paragraph in
    if chunk_size <? paragraph_size then
      let st := if nonempty (current_chunk st)
                then {| chunks := chunks st ++ [make_chunk (chunk_index st) (current_chunk st)
                                                  "paragraph_boundary"];
                        current_chunk := [];
                        current_size := 0;
                        chunk_index := chunk_index st + 1 |}
                else st in
      let sentences := split_sentences paragraph in
      let '(chunks', chunk_index', sentence_chunk) :=
        fold_left (sentence_step chunk_size overlap) sentences
                  (chunks st, chunk_index st, []) in
      if nonempty sentence_chunk
      then {| chunks := chunks'; current_chunk := sentence_chunk;
              current_size := len sentence_chunk; chunk_index := chunk_index' |}
      else {| chunks := chunks'; current_chunk := current_chunk st;
              current_size := current_size st; chunk_index := chunk_index' |}
    else if chunk_size <? current_size st + paragraph_size then
      if nonempty (current_chunk st) then
        let current := carry_overlap overlap (current_chunk st) blank_line paragraph in
        {| chunks := chunks st ++ [make_chunk (chunk_index st) (current_chunk st)
                                     "paragraph_boundary"];
           current_chunk := current;
           current_size := len current;
           chunk_index := chunk_index st + 1 |}
      else {| chunks := chunks st; current_chunk := paragraph;
              current_size := paragraph_size; chunk_index := chunk_index st |}
    else
      {| chunks := chunks st;
         current_chunk := if nonempty (current_chunk st)
                          then current_chunk st ++ blank_line ++ paragraph
                          else paragraph;
         current_size := current_size st + (paragraph_size + 2);
         chunk_index := chunk_index st |}.

Definition initial_state : ChunkerState :=
  {| chunks := []; current_chunk := []; current_size := 0; chunk_index := 0 |}.

(** The final chunk, if any text is still accumulated. *)
Definition finish (st : ChunkerState) : list Chunk :=
  if nonempty (current_chunk st)
  then chunks st ++ [make_chunk (chunk_index st) (current_chunk st) "final"]
  else chunks st.

(** The paragraph loop and the final chunk, on the paragraphs already
    split. *)
Definition chunk_paragraphs (paragraphs : list text) (chunk_size overlap : Z) : list Chunk :=
  finish (fold_left (paragraph_step chunk_size overlap) paragraphs initial_state).

(** No step of the body raises on a [str], so the fallback to
    [simple_chunk_text] in the [except] branch is never taken. *)
Definition chunk_text_intelligently (t : text) (chunk_size overlap : Z) : list Chunk :=
  if negb (nonempty t) then []
  else chunk_paragraphs (split_paragraphs t) chunk_size overlap.

(** *** Statements about the chunker

    [first_chars n t] is [t[:n]] and [last_chars n t] is [t[-n:]]. *)
Definition first_chars (n : Z) (t : text) : text := slice t 0 n.
Definition last_chars (n : Z) (t : text) : text := slice_from t (- n).

(** The overlap property as claimed of the chunks returned: each chunk
    starts with the last [overlap] characters of the one before. *)
Definition overlap_holds (overlap : Z) (cs : list Chunk) : Prop :=
  ∀ i a b, cs !! i = Some a → cs !! S i = Some b →
           first_chars overlap (chunk_content b) = last_chars overlap (chunk_content a).

(** The least that a reconstruction up to whitespace needs: every
    character of the text that is not whitespace is in some chunk. *)
Definition characters_preserved (t : text) (cs : list Chunk) : Prop :=
  ∀ c, In c t → isspace c = false → ∃ k, In k cs ∧ In c (chunk_content k).

(** [c * n] *)
Definition chars (c : string) (n : nat) : text := concat (repeat (str c) n).

(** Three inputs: a short first paragraph; a first paragraph whose last
    200 characters start with a space; one over-long paragraph of two
    sentences. *)
Definition text_short : text := chars "a" 100 ++ blank_line ++ chars "b" 950.

Definition text_shift : text :=
  chars "a" 800 ++ str " " ++ chars "b" 199 ++ blank_line ++ chars "c" 10.

Definition text_sentences : text := chars "a" 600 ++ str "." ++ chars "b" 600.

(** [b], the text accumulated for a chunk, follows [a], the text
    accumulated for the chunk before it: when there is overlap to carry
    and [a] is longer than it, [b] starts with the last [overlap]
    characters of [a] and a blank line; otherwise [b] starts afresh with a
    paragraph of the text. *)
Definition follows (paragraphs : list text) (overlap : Z) (a b : text) : Prop :=
  if (0 <? overlap) && (overlap <? len a)
  then ∃ rest, b = last_chars overlap a ++ blank_line ++ rest
  else ∃ p rest, In p paragraphs ∧ b = strip p ++ rest.

Definition linked (R : text → text → Prop) (l : list text) : Prop :=
  ∀ i a b, l !! i = Some a → l !! S i = Some b → R a b.

(** The chunks closed at paragraph boundaries, from their accumulated
    texts. *)
Fixpoint boundary_chunks (i : Z) (raws : list text) : list Chunk :=
  match raws with
  | [] => []
  | raw :: raws' => make_chunk i raw "paragraph_boundary" :: boundary_chunks (i + 1) raws'
  end.

(** Every paragraph, stripped, fits in one chunk. *)
Definition fits (chunk_size : Z) (paragraphs : list text) : bool :=
  forallb (λ p, len (strip p) <=? chunk_size) paragraphs.

(** The invariant of the paragraph loop while every paragraph fits:
    [raws] are the accumulated texts of the chunks closed so far. *)
Definition inv (ps : list text) (ov : Z) (st : ChunkerState) (raws : list text) : Prop :=
  chunks st = boundary_chunks 0 raws
  ∧ chunk_index st = Z.of_nat (length raws)
  ∧ match raws with
    | [] => nonempty (current_chunk st) = true →
            ∃ p rest, In p ps ∧ current_chunk st = strip p ++ rest
    | _ :: _ => nonempty (current_chunk st) = true
                ∧ linked (follows ps ov) (raws ++ [current_chunk st])
    end.

Definition cat_dog_text : text := str "cat cat dog dog dogs dogs".

End TextProcessing.

(** ** User-story generation agent (user_story_agent.py) *)

Module Agent.

(** The workflow state is a [TypedDict], a plain dict at run time.  The
    nodes mutate it in place and return it; the [add_messages] reducer
    of the [messages] channel is left out, the list is the one the
    nodes append to. *)
Abbreviation State := (gmap string pyval).

(** Statements of a stage body: they read and write the state in place
    and may raise; what was written before a raise stays written. *)
Definition M (A : Type) : Type := State → State * outcome A.

Definition ret {A} (a : A) : M A := λ s, (s, Returns a).

Definition raise {A} (e : string) : M A := λ s, (s, Raises e).

Definition bind {A B} (m : M A) (k : A → M B) : M B :=
  λ s, match m s with
       | (s', Returns a) => k a s'
       | (s', Raises e) => (s', Raises e)
       end.

Notation "'let*' x ':=' m 'in' k" := (bind m (λ x, k))
  (at level 10, x name, m at level 100, k at level 200).
Notation "m '>>' k" := (bind m (λ _, k))
  (at level 100, k at level 200, right associativity).

Definition lift {A} (o : outcome A) : M A := λ s, (s, o).

(** [state[k]] *)
Definition get_item (k : string) : M pyval :=
  λ s, match s !! k with
       | Some v => (s, Returns v)
       | None => (s, Raises ("KeyError: " +:+ k))
       end.

(** [state.get(k, dflt)] *)
Definition get_or (k : string) (dflt : pyval) : M pyval :=
  λ s, (s, Returns (default dflt (s !! k))).

(** [state[k] = v] *)
Definition set_item (k : string) (v : pyval) : M unit :=
  λ s, (<[k := v]> s, Returns tt).

(** [state[k].append(v)] *)
Definition append_item (k : string) (v : pyval) : M unit :=
  let* l := get_item k in
  match l with
  | VList items => set_item k (VList (items ++ [v]))
  | _ => raise "AttributeError: object has no attribute append"
  end.

(** [state[k].update(d)] *)
Definition update_item (k : string) (d : gmap string pyval) : M unit :=
  let* m := get_item k in
  match m with
  | VDict old => set_item k (VDict (d ∪ old))
  | _ => raise "AttributeError: object has no attribute update"
  end.

(** [try: body except Exception as e: handler(str(e))] *)
Definition try_except {A} (body : M A) (handler : string → M A) : M A :=
  λ s, match body s with
       | (s', Returns a) => (s', Returns a)
       | (s', Raises e) => handler e s'
       end.

(** A node of the graph: the state it returns, or the exception that
    escapes it. *)
Definition run (m : M unit) (s : State) : outcome State :=
  match m s with
  | (s', Returns _) => Returns s'
  | (_, Raises e) => Raises e
  end.

(** The exception, if any, that a stage's [try] body raises when it is
    entered in state [s]. *)
Definition raised {A} (body : M A) (s : State) : option string :=
  match snd (body s) with
  | Raises e => Some e
  | Returns _ => None
  end.

Definition AIMessage (content : string) : pyval :=
  VDict (<["type" := VStr "ai"]> (<["content" := VStr content]> ∅)).

Definition HumanMessage (content : string) : pyval :=
  VDict (<["type" := VStr "human"]> (<["content" := VStr content]> ∅)).

Definition show_len (n : Z) : string := pretty n.

(** [for x in xs: ...] collecting results, stopping at the first raise. *)
Fixpoint for_each {A B} (f : A → outcome B) (xs : list A) : outcome (list B) :=
  match xs with
  | [] => Returns []
  | x :: xs' =>
      match f x with
      | Raises e => Raises e
      | Returns y =>
          match for_each f xs' with
          | Raises e => Raises e
          | Returns ys => Returns (y :: ys)
          end
      end
  end.

(** [v[:n]] of a list. *)
Definition list_prefix (n : nat) (v : pyval) : outcome (list pyval) :=
  match v with
  | VList l => Returns (firstn n l)
  | _ => Raises "TypeError: not a list"
  end.

(** The two prompts sent through [llm_service.generate_text], by what
    is interpolated into their templates. *)
Inductive prompt : Type :=
| AnalysisPrompt (requirements context : pyval)
| QualityPrompt (stories : string).

(** The services the agent calls and the library functions it formats
    with are oracles: [generate_text] and [generate_user_story] of the
    LLM service, the RAG service's [retrieve_relevant_context], the
    knowledge-graph service's [extract_entities_from_text];
    [json.loads] ([None] for a [JSONDecodeError]), [json.dumps], [str()]
    of a value inside an f-string, the [:.3f] format, and
    [sum(scores) / len(scores)].  [Raises] stands for an exception that
    [except Exception] catches. *)
Record Services : Type := {
  generate_text : prompt → outcome pyval;
  generate_user_story : pyval → string → pyval → pyval → pyval → outcome pyval;
  retrieve_relevant_context : pyval → pyval → Z → outcome (list pyval);
  extract_entities_from_text : pyval → pyval → pyval → outcome (list pyval);
  json_loads : string → option pyval;
  json_dumps : pyval → string;
  py_str : pyval → string;
  format_3f : pyval → outcome string;
  mean : list pyval → outcome pyval;
  TOP_K_RETRIEVAL : Z
}.

Section Workflow.
Variable sv : Services.

(** [json.loads(result["text"])]: the text must be a [str]. *)
Definition response_text (result : pyval) : outcome string :=
  match subscript result "text" with
  | Returns (VStr t) => Returns t
  | Returns _ => Raises "TypeError: the JSON object must be str"
  | Raises e => Raises e
  end.

(** *** Stage 1 *)
Definition analyze_body : M unit :=
  let* _ := get_item "project_id" in
  let* requirements := get_item "requirements" in
  let* context := get_or "additional_context" (VStr "None provided") in
  let* result := lift (generate_text sv (AnalysisPrompt requirements context)) in
  let* text := lift (response_text result) in
  match json_loads sv text with
  | Some analysis =>
      set_item "requirements_analysis" analysis >>
      set_item "analysis_complete" (VBool true) >>
      let* n := lift (py_len analysis) in
      append_item "messages"
        (AIMessage ("Requirements analysis completed: " +:+ show_len n
                    +:+ " sections analyzed")) >>
      let* _ := get_item "project_id" in
      ret tt
  | None =>
      set_item "requirements_analysis" (VDict (<["raw_analysis" := VStr text]> ∅)) >>
      set_item "analysis_complete" (VBool true) >>
      append_item "warnings" (VStr "Requirements analysis returned non-JSON format")
  end.

Definition analyze_handler (e : string) : M unit :=
  append_item "errors" (VStr ("Requirements analysis failed: " +:+ e)) >>
  set_item "analysis_complete" (VBool false).

Definition _analyze_requirements : State → outcome State :=
  run (try_except analyze_body analyze_handler >>
       set_item "current_step" (VStr "analyze_requirements")).

(** *** Stage 2 *)
Definition retrieve_body : M unit :=
  let* _ := get_item "project_id" in
  let* query := get_item "requirements" in
  let* project_id := get_item "project_id" in
  let* context_docs :=
    lift (retrieve_relevant_context sv query project_id (TOP_K_RETRIEVAL sv)) in
  set_item "retrieved_context" (VList context_docs) >>
  set_item "context_retrieved" (VBool true) >>
  append_item "messages"
    (AIMessage ("Retrieved " +:+ show_len (Z.of_nat (length context_docs))
                +:+ " relevant context documents")) >>
  let* _ := get_item "project_id" in
  ret tt.

Definition retrieve_handler (e : string) : M unit :=
  append_item "errors" (VStr ("Context retrieval failed: " +:+ e)) >>
  set_item "context_retrieved" (VBool false) >>
  set_item "retrieved_context" (VList []).

Definition _retrieve_context : State → outcome State :=
  run (try_except retrieve_body retrieve_handler >>
       set_item "current_step" (VStr "retrieve_context")).

(** *** Stage 3 *)
Definition extract_body : M unit :=
  let* _ := get_item "project_id" in
  let* text := get_item "requirements" in
  let* project_id := get_item "project_id" in
  let* context := get_or "additional_context" VNone in
  let* entities := lift (extract_entities_from_text sv text project_id context) in
  set_item "knowledge_graph_entities" (VList entities) >>
  append_item "messages"
    (AIMessage ("Extracted " +:+ show_len (Z.of_nat (length entities))
                +:+ " knowledge graph entities")) >>
  let* _ := get_item "project_id" in
  ret tt.

Definition extract_handler (e : string) : M unit :=
  append_item "errors" (VStr ("Knowledge graph entity extraction failed: " +:+ e)) >>
  set_item "knowledge_graph_entities" (VList []).

Definition _extract_kg_entities : State → outcome State :=
  run (try_except extract_body extract_handler >>
       set_item "current_step" (VStr "extract_kg_entities")).

(** *** Stage 4 *)

(** The two lines a retrieved document adds to the context. *)
Definition render_document (i : nat) (ctx : pyval) : outcome (list string) :=
  match subscript ctx "similarity_score" with
  | Raises e => Raises e
  | Returns score =>
      match format_3f sv score with
      | Raises e => Raises e
      | Returns shown =>
          match subscript ctx "content" with
          | Returns (VStr content) =>
              Returns [ "Document " +:+ show_len (Z.of_nat (i + 1))
                        +:+ " (similarity: " +:+ shown +:+ "):";
                        if (300 <? String.length content)%nat
                        then String.substring 0 300 content +:+ "..."
                        else content ]
          | Returns _ => Raises "TypeError: content is not a str"
          | Raises e => Raises e
          end
      end
  end.

Fixpoint render_documents (i : nat) (docs : list pyval) : outcome (list string) :=
  match docs with
  | [] => Returns []
  | ctx :: docs' =>
      match render_document i ctx with
      | Raises e => Raises e
      | Returns lines =>
          match render_documents (S i) docs' with
          | Raises e => Raises e
          | Returns rest => Returns (lines ++ rest)
          end
      end
  end.

(** [f"- {entity['name']} ({entity['type']})"] *)
Definition render_entity (entity : pyval) : outcome string :=
  match subscript entity "name" with
  | Raises e => Raises e
  | Returns name =>
      match subscript entity "type" with
      | Raises e => Raises e
      | Returns type => Returns ("- " +:+ py_str sv name +:+ " (" +:+ py_str sv type +:+ ")")
      end
  end.

Definition newline_join (parts : list string) : string :=
  String.concat (String (ascii_of_nat 10) EmptyString) parts.

Definition combined_context : M string :=
  let* analysis := get_or "requirements_analysis" VNone in
  let part1 := if truthy analysis
               then ["=== REQUIREMENTS ANALYSIS ==="; json_dumps sv analysis] else [] in
  let* retrieved := get_or "retrieved_context" VNone in
  let* part2 :=
    if truthy retrieved then
      let* retrieved := get_item "retrieved_context" in
      let* top := lift (list_prefix 3 retrieved) in
      let* lines := lift (render_documents 0 top) in
      ret ("=== RELEVANT DOCUMENTS ===" :: lines)
    else ret [] in
  let* entities := get_or "knowledge_graph_entities" VNone in
  let* part3 :=
    if truthy entities then
      let* entities := get_item "knowledge_graph_entities" in
      let* top := lift (list_prefix 10 entities) in
      let* lines := lift (for_each render_entity top) in
      ret ("=== KEY ENTITIES ===" :: lines)
    else ret [] in
  let* additional := get_or "additional_context" VNone in
  let* part4 :=
    if truthy additional then
      let* additional := get_item "additional_context" in
      match additional with
      | VStr a => ret ["=== ADDITIONAL CONTEXT ==="; a]
      | _ => raise "TypeError: sequence item: expected str"
      end
    else ret [] in
  ret (newline_join (part1 ++ part2 ++ part3 ++ part4)).

Definition generate_body : M unit :=
  let* _ := get_item "project_id" in
  let* context := combined_context in
  let* generation_options := get_or "generation_options" (VDict ∅) in
  let* requirements := get_item "requirements" in
  let* persona := get_or "persona" VNone in
  let* provider := lift (py_get generation_options "llm_provider" VNone) in
  let* model := lift (py_get generation_options "llm_model" VNone) in
  let* result := lift (generate_user_story sv requirements context persona provider model) in
  let* success := lift (py_get result "success" VNone) in
  let* parsed := if truthy success then lift (py_get result "parsed_stories" VNone)
                 else ret VNone in
  if truthy success && truthy parsed then
    let* stories_data := lift (subscript result "parsed_stories") in
    let* stories := lift (py_get stories_data "user_stories" (VList [])) in
    set_item "generated_stories" stories >>
    set_item "stories_generated" (VBool true) >>
    let* stories := get_item "generated_stories" in
    let* n := lift (py_len stories) in
    append_item "messages" (AIMessage ("Generated " +:+ show_len n +:+ " user stories")) >>
    let* provider := lift (py_get result "provider" VNone) in
    let* model := lift (py_get result "model" VNone) in
    let* generation_time := lift (py_get result "generation_time" VNone) in
    let* usage := lift (py_get result "usage" VNone) in
    let* cost := lift (py_get result "cost" (VInt 0)) in
    let* metadata := lift (py_get stories_data "metadata" (VDict ∅)) in
    let* confidence := lift (py_get metadata "confidence_score" VNone) in
    let* retrieved := get_or "retrieved_context" (VList []) in
    let* n_docs := lift (py_len retrieved) in
    let* entities := get_or "knowledge_graph_entities" (VList []) in
    let* n_entities := lift (py_len entities) in
    update_item "generation_metadata"
      (<["llm_provider" := provider]> (<["llm_model" := model]>
      (<["generation_time" := generation_time]> (<["token_usage" := usage]>
      (<["cost" := cost]> (<["confidence_score" := confidence]>
      (<["context_docs_used" := VInt n_docs]>
      (<["kg_entities_used" := VInt n_entities]> ∅)))))))) >>
    let* _ := get_item "project_id" in
    let* stories := get_item "generated_stories" in
    let* _ := lift (py_len stories) in
    ret tt
  else
    set_item "generated_stories" (VList []) >>
    set_item "stories_generated" (VBool false) >>
    let* parse_error := lift (py_get result "parse_error" (VStr "Unknown error")) in
    append_item "errors" (VStr ("Story generation failed: " +:+ py_str sv parse_error)) >>
    let* _ := get_item "project_id" in
    ret tt.

Definition generate_handler (e : string) : M unit :=
  append_item "errors" (VStr ("Story generation failed: " +:+ e)) >>
  set_item "generated_stories" (VList []) >>
  set_item "stories_generated" (VBool false).

Definition _generate_stories : State → outcome State :=
  run (try_except generate_body generate_handler >>
       set_item "current_step" (VStr "generate_stories")).

(** *** Stage 5 *)

(** The overall score when the reply has a ["story_evaluations"] entry. *)
Definition overall_quality (quality_data : pyval) : outcome pyval :=
  match subscript quality_data "story_evaluations" with
  | Raises e => Raises e
  | Returns evaluations =>
      match py_iter evaluations with
      | Raises e => Raises e
      | Returns items =>
          match for_each (λ eval_data, py_get eval_data "overall_score" (VInt 5)) items with
          | Raises e => Raises e
          | Returns [] => Returns (VInt 5)
          | Returns scores => mean sv scores
          end
      end
  end.

(** The body returns [true] where the code leaves the function from
    inside the [try], with [return state]. *)
Definition quality_body : M bool :=
  let* _ := get_item "project_id" in
  let* stories := get_item "generated_stories" in
  if negb (truthy stories) then
    set_item "quality_scores"
      (VDict (<["overall_score" := VInt 0]> (<["checks" := VList []]> ∅))) >>
    set_item "quality_checked" (VBool true) >>
    ret true
  else
    let* stories := get_item "generated_stories" in
    let* result := lift (generate_text sv (QualityPrompt (json_dumps sv stories))) in
    let* text := lift (response_text result) in
    match json_loads sv text with
    | Some quality_data =>
        set_item "quality_scores" quality_data >>
        let* absent := lift (not_in "story_evaluations" quality_data) in
        (if absent then ret tt
         else
           let* overall_score := lift (overall_quality quality_data) in
           let* scores := get_item "quality_scores" in
           match scores with
           | VDict d => set_item "quality_scores" (VDict (<["overall_score" := overall_score]> d))
           | _ => raise "TypeError: object does not support item assignment"
           end) >>
        set_item "quality_checked" (VBool true) >>
        let* scores := get_item "quality_scores" in
        let* shown := lift (py_get scores "overall_score" (VStr "N/A")) in
        append_item "messages"
          (AIMessage ("Quality check completed. Overall score: " +:+ py_str sv shown)) >>
        let* _ := get_item "project_id" in
        let* scores := get_item "quality_scores" in
        let* _ := lift (py_get scores "overall_score" VNone) in
        ret false
    | None =>
        set_item "quality_scores" (VDict (<["raw_feedback" := VStr text]> ∅)) >>
        set_item "quality_checked" (VBool true) >>
        append_item "warnings" (VStr "Quality check returned non-JSON format") >>
        ret false
    end.

Definition quality_handler (e : string) : M bool :=
  append_item "errors" (VStr ("Quality check failed: " +:+ e)) >>
  set_item "quality_scores" (VDict ∅) >>
  set_item "quality_checked" (VBool false) >>
  ret false.

Definition _quality_check : State → outcome State :=
  run (let* returned := try_except quality_body quality_handler in
       if returned then ret tt
       else set_item "current_step" (VStr "quality_check")).

(** *** Stage 6 *)
Definition step_entry (step : string) (completed : pyval) : pyval :=
  VDict (<["step" := VStr step]> (<["completed" := completed]> ∅)).

Definition finalize_body (completion_time : string) : M unit :=
  let* project_id := get_item "project_id" in
  let* errors := get_item "errors" in
  let* n_errors := lift (py_len errors) in
  let* warnings := get_item "warnings" in
  let* n_warnings := lift (py_len warnings) in
  let* analysis_complete := get_or "analysis_complete" (VBool false) in
  let* context_retrieved := get_or "context_retrieved" (VBool false) in
  let* entities := get_or "knowledge_graph_entities" (VList []) in
  let* n_entities := lift (py_len entities) in
  let* stories_generated := get_or "stories_generated" (VBool false) in
  let* quality_checked := get_or "quality_checked" (VBool false) in
  update_item "generation_metadata"
    (<["workflow_completed" := VBool true]>
    (<["completion_time" := VStr completion_time]>
    (<["total_errors" := VInt n_errors]>
    (<["total_warnings" := VInt n_warnings]>
    (<["steps_completed" :=
         VList [ step_entry "analyze_requirements" analysis_complete;
                 step_entry "retrieve_context" context_retrieved;
                 step_entry "extract_kg_entities" (VBool (0 <? n_entities));
                 step_entry "generate_stories" stories_generated;
                 step_entry "quality_check" quality_checked ]]> ∅))))) >>
  let* project_id := get_item "project_id" in
  let* stories := get_or "generated_stories" (VList []) in
  let* n_stories := lift (py_len stories) in
  let* scores := get_or "quality_scores" (VDict ∅) in
  let* score := lift (py_get scores "overall_score" (VStr "N/A")) in
  let* retrieved := get_or "retrieved_context" (VList []) in
  let* n_docs := lift (py_len retrieved) in
  let* entities := get_or "knowledge_graph_entities" (VList []) in
  let* n_entities := lift (py_len entities) in
  let summary_parts :=
    [ "User story generation workflow completed for project " +:+ py_str sv project_id;
      "Generated " +:+ show_len n_stories +:+ " user stories";
      "Quality score: " +:+ py_str sv score;
      "Context documents used: " +:+ show_len n_docs;
      "Knowledge graph entities: " +:+ show_len n_entities ] in
  let* errors := get_item "errors" in
  let* part_errors :=
    if truthy errors then
      let* errors := get_item "errors" in
      let* n := lift (py_len errors) in
      ret ["Errors encountered: " +:+ show_len n]
    else ret [] in
  let* warnings := get_item "warnings" in
  let* part_warnings :=
    if truthy warnings then
      let* warnings := get_item "warnings" in
      let* n := lift (py_len warnings) in
      ret ["Warnings: " +:+ show_len n]
    else ret [] in
  append_item "messages"
    (AIMessage (newline_join (summary_parts ++ part_errors ++ part_warnings))) >>
  let* _ := get_item "project_id" in
  let* stories := get_or "generated_stories" (VList []) in
  let* _ := lift (py_len stories) in
  let* errors := get_item "errors" in
  let* _ := lift (py_len errors) in
  ret tt.

Definition finalize_handler (e : string) : M unit :=
  append_item "errors" (VStr ("Result finalization failed: " +:+ e)).

Definition _finalize_results (completion_time : string) : State → outcome State :=
  run (try_except (finalize_body completion_time) finalize_handler >>
       set_item "current_step" (VStr "finalize_results")).

(** *** The graph ([_build_workflow]) and its runner *)
Inductive target : Type :=
| Node (name : string)
| END.

Definition nodes (completion_time : string) : list (string * (State → outcome State)) :=
  [ ("analyze_requirements", _analyze_requirements);
    ("retrieve_context", _retrieve_context);
    ("extract_kg_entities", _extract_kg_entities);
    ("generate_stories", _generate_stories);
    ("quality_check", _quality_check);
    ("finalize_results", _finalize_results completion_time) ].

Definition entry_point : string := "analyze_requirements".

Definition edges : list (string * target) :=
  [ ("analyze_requirements", Node "retrieve_context");
    ("retrieve_context", Node "extract_kg_entities");
    ("extract_kg_entities", Node "generate_stories");
    ("generate_stories", Node "quality_check");
    ("quality_check", Node "finalize_results");
    ("finalize_results", END) ].

Fixpoint assoc {A} (k : string) (l : list (string * A)) : option A :=
  match l with
  | [] => None
  | (k', v) :: l' => if String.eqb k' k then Some v else assoc k l'
  end.

(** The compiled graph, run from node [name]: each step runs the node
    and follows its edge; the step budget is the runner's recursion
    limit. *)
Fixpoint run_graph (completion_time : string) (steps : nat) (name : string) (s : State)
    : outcome State :=
  match steps with
  | O => Raises "GraphRecursionError"
  | S steps' =>
      match assoc name (nodes completion_time) with
      | None => Raises ("ValueError: unknown node " +:+ name)
      | Some node =>
          match node s with
          | Raises e => Raises e
          | Returns s' =>
              match assoc name edges with
              | Some (Node next) => run_graph completion_time steps' next s'
              | Some END | None => Returns s'
              end
          end
      end
  end.

Definition recursion_limit : nat := 25.

Definition ainvoke (completion_time : string) (s : State) : outcome State :=
  run_graph completion_time recursion_limit entry_point s.

(** *** The public entry point *)
Definition option_str (o : option string) : pyval :=
  match o with
  | Some v => VStr v
  | None => VNone
  end.

Definition initial_metadata (start_time : string) (project_id user_id : Z)
    : gmap string pyval :=
  <["start_time" := VStr start_time]> (<["project_id" := VInt project_id]>
  (<["user_id" := VInt user_id]> (<["workflow_version" := VStr "1.0"]> ∅))).

Definition initial_state (start_time : string) (requirements : string)
    (project_id user_id : Z) (persona additional_context : option string)
    (generation_options : option (gmap string pyval)) : State :=
  list_to_map
    [ ("requirements", VStr requirements);
      ("project_id", VInt project_id);
      ("user_id", VInt user_id);
      ("persona", option_str persona);
      ("additional_context", option_str additional_context);
      ("generation_options",
         VDict (match generation_options with
                | Some o => if bool_decide (o = ∅) then ∅ else o
                | None => ∅
                end));
      ("messages",
         VList [HumanMessage ("Generate user stories for: "
                              +:+ String.substring 0 100 requirements +:+ "...")]);
      ("current_step", VStr "initialize");
      ("analysis_complete", VBool false);
      ("context_retrieved", VBool false);
      ("stories_generated", VBool false);
      ("quality_checked", VBool false);
      ("requirements_analysis", VNone);
      ("retrieved_context", VList []);
      ("generated_stories", VList []);
      ("quality_scores", VDict ∅);
      ("knowledge_graph_entities", VList []);
      ("generation_metadata", VDict (initial_metadata start_time project_id user_id));
      ("errors", VList []);
      ("warnings", VList []) ].

(** [[msg.content for msg in messages]] *)
Definition message_contents (messages : pyval) : outcome (list pyval) :=
  match py_iter messages with
  | Raises e => Raises e
  | Returns items => for_each (λ msg, subscript msg "content") items
  end.

(** The [try] block after the workflow has run: the result bundle. *)
Definition package (final_state : State) : outcome (gmap string pyval) :=
  match message_contents (default (VList []) (final_state !! "messages")) with
  | Raises e => Raises e
  | Returns contents =>
      let user_stories := default (VList []) (final_state !! "generated_stories") in
      match py_len user_stories with
      | Raises e => Raises e
      | Returns _ =>
          Returns (list_to_map
            [ ("success", default (VBool false) (final_state !! "stories_generated"));
              ("user_stories", user_stories);
              ("requirements_analysis", dict_get final_state "requirements_analysis");
              ("quality_scores", dict_get final_state "quality_scores");
              ("context_documents", dict_get final_state "retrieved_context");
              ("knowledge_graph_entities", dict_get final_state "knowledge_graph_entities");
              ("metadata", dict_get final_state "generation_metadata");
              ("messages", VList contents);
              ("errors", default (VList []) (final_state !! "errors"));
              ("warnings", default (VList []) (final_state !! "warnings")) ])
      end
  end.

(** The bundle of the [except] branch; its metadata is read from the
    initial state as it was built. *)
Definition failure_bundle (initial : State) (e : string) : gmap string pyval :=
  list_to_map
    [ ("success", VBool false);
      ("user_stories", VList []);
      ("requirements_analysis", VNone);
      ("quality_scores", VDict ∅);
      ("context_documents", VList []);
      ("knowledge_graph_entities", VList []);
      ("metadata", dict_get initial "generation_metadata");
      ("messages", VList [VStr ("Workflow failed: " +:+ e)]);
      ("errors", VList [VStr ("Workflow execution failed: " +:+ e)]);
      ("warnings", VList []) ].

Definition generate_user_stories (start_time completion_time : string)
    (requirements : string) (project_id user_id : Z)
    (persona additional_context : option string)
    (generation_options : option (gmap string pyval)) : gmap string pyval :=
  let initial := initial_state start_time requirements project_id user_id
                   persona additional_context generation_options in
  match ainvoke completion_time initial with
  | Raises e => failure_bundle initial e
  | Returns final_state =>
      match package final_state with
      | Raises e => failure_bundle initial e
      | Returns result => result
      end
  end.
(** *** What the stages rely on and what they record *)

(** The state as the stages need it: the two logs and the message list
    are lists, every message has a [content], and the metadata is a
    dict. *)
Definition errors_of (s : State) : list pyval :=
  match s !! "errors" with
  | Some (VList l) => l
  | _ => []
  end.

Definition is_message (m : pyval) : Prop :=
  ∃ c, subscript m "content" = Returns c.

Definition shape (s : State) : Prop :=
  (∃ l, s !! "errors" = Some (VList l))
  ∧ (∃ l, s !! "warnings" = Some (VList l))
  ∧ (∃ l, s !! "messages" = Some (VList l) ∧ Forall is_message l)
  ∧ (∃ d, s !! "generation_metadata" = Some (VDict d)).

Definition logged (v : pyval) (s : State) : Prop := v ∈ errors_of s.

Definition stories_are (g : pyval) (s : State) : Prop :=
  s !! "generated_stories" = Some g.

Definition stories_ok (s : State) : Prop :=
  ∃ g n, s !! "generated_stories" = Some g ∧ py_len g = Returns n.

(** A statement keeps [P] whether it returns or raises. *)
Definition preserves (P : State → Prop) {A} (m : M A) : Prop :=
  ∀ s, P s → P (fst (m s)).

(** The entry that a stage's handler appends for the exception [o]. *)
Definition error_of (prefix : string) (o : option string) : list pyval :=
  match o with
  | Some e => [VStr (prefix +:+ e)]
  | None => []
  end.

(** The entries appended by the handlers of the stages whose bodies
    raised, when the stages are entered in [s0], ..., [s5]. *)
Definition stage_failures (completion_time : string) (s0 s1 s2 s3 s4 s5 : State)
    : list pyval :=
  error_of "Requirements analysis failed: " (raised analyze_body s0)
  ++ error_of "Context retrieval failed: " (raised retrieve_body s1)
  ++ error_of "Knowledge graph entity extraction failed: " (raised extract_body s2)
  ++ error_of "Story generation failed: " (raised generate_body s3)
  ++ error_of "Quality check failed: " (raised quality_body s4)
  ++ error_of "Result finalization failed: " (raised (finalize_body completion_time) s5).
End Workflow.

(** *** Two runs: the LLM text endpoint is down; every service is down *)
Definition demo_story : pyval :=
  VDict (<["title" := VStr "Sign in"]> (<["story_points" := VInt 3]> ∅)).

Definition demo_generation : pyval :=
  VDict (<["success" := VBool true]>
        (<["parsed_stories" := VDict (<["user_stories" := VList [demo_story]]> ∅)]>
        (<["provider" := VStr "openai"]> ∅))).

Definition text_down : Services := {|
  generate_text := λ _, Raises "timeout";
  generate_user_story := λ _ _ _ _ _, Returns demo_generation;
  retrieve_relevant_context := λ _ _ _, Returns [];
  extract_entities_from_text := λ _ _ _, Returns [];
  json_loads := λ _, None;
  json_dumps := λ _, "null";
  py_str := λ _, "?";
  format_3f := λ _, Returns "0.000";
  mean := λ _, Returns (VInt 5);
  TOP_K_RETRIEVAL := 5
|}.

Definition all_down : Services := {|
  generate_text := λ _, Raises "timeout";
  generate_user_story := λ _ _ _ _ _, Raises "timeout";
  retrieve_relevant_context := λ _ _ _, Raises "timeout";
  extract_entities_from_text := λ _ _ _, Raises "timeout";
  json_loads := λ _, None;
  json_dumps := λ _, "null";
  py_str := λ _, "?";
  format_3f := λ _, Raises "ValueError";
  mean := λ _, Raises "TypeError";
  TOP_K_RETRIEVAL := 5
|}.

Definition demo_run (sv : Services) : gmap string pyval :=
  generate_user_stories sv "2024-01-01T00:00:00" "2024-01-01T00:00:09"
    "Users sign in with email" 1 7 None None None.

End Agent.

(** ** Role checks (security_module.py) *)

Module Access.
Import Security.

Section Roles.
Context {token : Type} `{Countable token}.
Variable jwt_decode : token → string → list string → Z → option (gmap string pyval).
Variable settings : Settings.

(** [RoleChecker(allowed_roles).__call__], behind its dependency
    [get_current_active_user]. *)
Definition RoleChecker (allowed_roles : list string) (now : Z) (credentials : token)
    (st : @AppState token _ _) : response User :=
  match get_current_active_user jwt_decode settings now credentials st with
  | HTTPException c d => HTTPException c d
  | Ok current_user =>
      if negb (existsb (String.eqb (role current_user)) allowed_roles)
      then HTTPException HTTP_403_FORBIDDEN "Operation not permitted"
      else Ok current_user
  end.

Definition require_admin := RoleChecker ["admin"].
Definition require_admin_or_manager := RoleChecker ["admin"; "manager"].
Definition require_any_role := RoleChecker ["admin"; "manager"; "user"].
End Roles.

(** What the issuers need of the codec for one claim set: decoding the
    token encoded from it, under the configured key and algorithm, gives
    the claims back until they expire. *)
Definition codec_honours {token : Type}
    (jwt_encode : gmap string pyval → string → string → token)
    (jwt_decode : token → string → list string → Z → option (gmap string pyval))
    (settings : Settings) (claims : gmap string pyval) : Prop :=
  ∀ t, jwt_decode (jwt_encode claims (SECRET_KEY settings) (ALGORITHM settings))
         (SECRET_KEY settings) [ALGORITHM settings] t
       = if claims_expired claims t then None else Some claims.

(** The refresh token issued to alice at time 1000, as a string, and the
    codec's answers for it. *)
Definition alice_refresh_token : string := "eyJhbGciOiJIUzI1NiJ9.alice.cmVm".

Definition refresh_encode (claims : gmap string pyval) (key alg : string) : string :=
  alice_refresh_token.

Definition refresh_decode (tok key : string) (algorithms : list string) (now : Z)
    : option (gmap string pyval) :=
  if String.eqb tok alice_refresh_token
     && negb (claims_expired (refresh_claims demo_settings 1000 login_claims None) now)
  then Some (refresh_claims demo_settings 1000 login_claims None)
  else None.

End Access.

(** ** Token refresh, sessions and registration (auth_router.py) *)

Module AuthRoutes.
Import Security.

(** The [Token] response. *)
Record Token (token : Type) : Type := {
  access_token : token;
  refresh_token_kept : token;
  token_type : string;
  expires_in : Z
}.
Arguments access_token {token} _.
Arguments refresh_token_kept {token} _.
Arguments token_type {token} _.
Arguments expires_in {token} _.

(** [{"sub": user.username, "user_id": user.id, "role": user.role}] *)
Definition user_claims (user : User) : gmap string pyval :=
  <["sub" := VStr (username user)]> (<["user_id" := VInt (user_id user)]>
  (<["role" := VStr (role user)]> ∅)).

Section Routes.
Context {token : Type} `{Countable token}.
Variable jwt_encode : gmap string pyval → string → string → token.
Variable jwt_decode : token → string → list string → Z → option (gmap string pyval).
Variable settings : Settings.

(** [POST /auth/refresh] *)
Definition refresh_token (now : Z) (refresh_data : token) (st : @AppState token _ _)
    : response (Token token) :=
  match verify_token jwt_decode settings now refresh_data "refresh" with
  | None => HTTPException HTTP_401_UNAUTHORIZED "Invalid refresh token"
  | Some payload =>
      let name := dict_get payload "sub" in
      match query_user_by_username name st with
      | None => HTTPException HTTP_401_UNAUTHORIZED "User not found or inactive"
      | Some user =>
          if negb (is_active user)
          then HTTPException HTTP_401_UNAUTHORIZED "User not found or inactive"
          else
            let access_token_expires := minutes (ACCESS_TOKEN_EXPIRE_MINUTES settings) in
            let access_token :=
              create_access_token jwt_encode settings now (user_claims user)
                (Some access_token_expires) in
            Ok {| access_token := access_token;
                  refresh_token_kept := refresh_data;
                  token_type := "bearer";
                  expires_in := ACCESS_TOKEN_EXPIRE_MINUTES settings * 60 |}
      end
  end.

(** [DELETE /auth/sessions/{session_id}] *)
Definition revoke_session (now : Z) (session : Z) (credentials : token)
    (st : @AppState token _ _) : response string * AppState :=
  match get_current_active_user jwt_decode settings now credentials st with
  | HTTPException c d => (HTTPException c d, st)
  | Ok current_user =>
      let mine := λ s, (session_id s =? session)
                       && (session_user_id s =? user_id current_user) in
      match find mine (user_sessions st) with
      | None => (HTTPException HTTP_404_NOT_FOUND "Session not found", st)
      | Some found =>
          (Ok "Session revoked successfully",
           {| users := users st;
              user_sessions := Routers.replace_first mine (deactivate found)
                                 (user_sessions st);
              _blacklisted_tokens := _blacklisted_tokens st |})
      end
  end.

(** The session table after session [session] has been set inactive. *)
Definition revoked_in (session : Z) (s : UserSession) : UserSession :=
  if session_id s =? session then deactivate s else s.

(** The primary key a new [User] row receives. *)
Definition next_user_id (st : @AppState token _ _) : Z :=
  1 + fold_right Z.max 0 (map user_id (users st)).

(** [POST /auth/register], on the fields the user record keeps. *)
Definition register_user (new_username new_email new_role : string)
    (st : @AppState token _ _) : response User * AppState :=
  match find (λ u, String.eqb (username u) new_username) (users st) with
  | Some _ => (HTTPException HTTP_400_BAD_REQUEST "Username already registered", st)
  | None =>
      match find (λ u, String.eqb (email u) new_email) (users st) with
      | Some _ => (HTTPException HTTP_400_BAD_REQUEST "Email already registered", st)
      | None =>
          let db_user := {| user_id := next_user_id st; username := new_username;
                            email := new_email; is_active := true;
                            role := new_role |} in
          (Ok db_user,
           {| users := users st ++ [db_user];
              user_sessions := user_sessions st;
              _blacklisted_tokens := _blacklisted_tokens st |})
      end
  end.
End Routes.

(** The user table's unique columns. *)
Definition unique_users (l : list User) : Prop :=
  NoDup (map user_id l) ∧ NoDup (map username l) ∧ NoDup (map email l).

(** A codec on string tokens for the deployment of [demo_state] at time
    2000: alice's refresh token issued at time 1000, and the access
    tokens issued at time 2000 to alice and to bob. *)
Definition reissued_claims (user : User) : gmap string pyval :=
  access_claims demo_settings 2000 (user_claims user)
    (Some (minutes (ACCESS_TOKEN_EXPIRE_MINUTES demo_settings))).

Definition bob_token : string := "eyJhbGciOiJIUzI1NiJ9.bob.c2ln".

Definition reissue_encode (claims : gmap string pyval) (key alg : string) : string :=
  if eq_str (dict_get claims "type") "refresh" then Access.alice_refresh_token
  else if eq_str (dict_get claims "sub") "alice" then alice_token
  else bob_token.

Definition unless_expired (claims : gmap string pyval) (now : Z)
    : option (gmap string pyval) :=
  if claims_expired claims now then None else Some claims.

Definition reissue_decode (tok key : string) (algorithms : list string) (now : Z)
    : option (gmap string pyval) :=
  if String.eqb tok Access.alice_refresh_token
  then unless_expired (refresh_claims demo_settings 1000 login_claims None) now
  else if String.eqb tok alice_token then unless_expired (reissued_claims alice) now
  else if String.eqb tok bob_token then unless_expired (reissued_claims bob) now
  else None.

End AuthRoutes.

(** ** API keys (security_module.py, auth_router.py, user_model.py) *)

Module ApiKeys.
Import Security.

Record ApiKey : Type := {
  api_key_id : Z;
  api_key_name : string;
  key : string;
  api_key_user_id : Z;
  permissions : pyval;
  api_key_is_active : bool;
  last_used : option Z;
  api_key_expires_at : option Z
}.

Record KeyStore : Type := {
  accounts : list User;
  api_keys : list ApiKey
}.

Definition touch (now : Z) (k : ApiKey) : ApiKey :=
  {| api_key_id := api_key_id k; api_key_name := api_key_name k; key := key k;
     api_key_user_id := api_key_user_id k; permissions := permissions k;
     api_key_is_active := api_key_is_active k; last_used := Some now;
     api_key_expires_at := api_key_expires_at k |}.

Definition set_api_keys (db : KeyStore) (keys : list ApiKey) : KeyStore :=
  {| accounts := accounts db; api_keys := keys |}.

(** The filter of [verify_api_key]'s query. *)
Definition active_with_key (api_key : string) (k : ApiKey) : bool :=
  String.eqb (key k) api_key && api_key_is_active k.

(** [verify_api_key]: the data of the first active row with this key,
    whose [last_used] is set and committed. *)
Definition verify_api_key (now : Z) (api_key : string) (db : KeyStore)
    : option (gmap string pyval) * KeyStore :=
  match find (active_with_key api_key) (api_keys db) with
  | Some api_key_obj =>
      (Some (<["user_id" := VInt (api_key_user_id api_key_obj)]>
            (<["name" := VStr (api_key_name api_key_obj)]>
            (<["permissions" := permissions api_key_obj]> ∅))),
       set_api_keys db
         (Routers.replace_first (active_with_key api_key) (touch now api_key_obj)
            (api_keys db)))
  | None => (None, db)
  end.

(** [User.id == api_key_data["user_id"]] *)
Definition has_id (v : pyval) (u : User) : bool :=
  match v with
  | VInt n => user_id u =? n
  | _ => false
  end.

(** [get_api_key_user]; every exception raised inside its [try] is
    answered with the same 401. *)
Definition get_api_key_user (now : Z) (credentials : string) (db : KeyStore)
    : response User * KeyStore :=
  let credentials_exception := HTTPException HTTP_401_UNAUTHORIZED "Invalid API key" in
  match verify_api_key now credentials db with
  | (None, db) => (credentials_exception, db)
  | (Some api_key_data, db) =>
      match find (has_id (dict_get api_key_data "user_id")) (accounts db) with
      | None => (credentials_exception, db)
      | Some user =>
          if negb (is_active user) then (credentials_exception, db)
          else (Ok user, db)
      end
  end.

(** The primary key a new [ApiKey] row receives. *)
Definition next_api_key_id (db : KeyStore) : Z :=
  1 + fold_right Z.max 0 (map api_key_id (api_keys db)).

(** [POST /auth/api-keys]; [fresh] is what [create_api_key()] drew. *)
Definition create_user_api_key (fresh : string) (name : string) (perms : pyval)
    (expires : option Z) (current_user : User) (db : KeyStore) : ApiKey * KeyStore :=
  let db_api_key :=
    {| api_key_id := next_api_key_id db; api_key_name := name; key := fresh;
       api_key_user_id := user_id current_user; permissions := perms;
       api_key_is_active := true; last_used := None;
       api_key_expires_at := expires |} in
  (db_api_key, set_api_keys db (api_keys db ++ [db_api_key])).

(** [GET /auth/api-keys] *)
Definition list_user_api_keys (current_user : User) (db : KeyStore) : list ApiKey :=
  List.filter (λ k, api_key_user_id k =? user_id current_user) (api_keys db).

Definition owned_key (id uid : Z) (k : ApiKey) : bool :=
  (api_key_id k =? id) && (api_key_user_id k =? uid).

(** [DELETE /auth/api-keys/{api_key_id}] *)
Definition delete_api_key (id : Z) (current_user : User) (db : KeyStore)
    : response string * KeyStore :=
  match find (owned_key id (user_id current_user)) (api_keys db) with
  | None => (HTTPException HTTP_404_NOT_FOUND "API key not found", db)
  | Some api_key =>
      (Ok "API key deleted successfully",
       set_api_keys db
         (Routers.delete_first (owned_key id (user_id current_user)) (api_keys db)))
  end.

(** The unique columns of the two tables. *)
Definition unique_keys (db : KeyStore) : Prop :=
  NoDup (map api_key_id (api_keys db)) ∧ NoDup (map key (api_keys db))
  ∧ NoDup (map user_id (accounts db)).

(** A store to run the routes on: alice holds two keys, one of them
    expired at time 500; bob holds one. *)
Definition demo_keys : KeyStore :=
  {| accounts := [alice; bob];
     api_keys :=
       [ {| api_key_id := 1; api_key_name := "ci"; key := "k-alice-ci";
            api_key_user_id := 1; permissions := VList [VStr "read"];
            api_key_is_active := true; last_used := None;
            api_key_expires_at := Some 500 |};
         {| api_key_id := 2; api_key_name := "bot"; key := "k-bob-bot";
            api_key_user_id := 2; permissions := VList [];
            api_key_is_active := true; last_used := None;
            api_key_expires_at := None |};
         {| api_key_id := 3; api_key_name := "old"; key := "k-alice-old";
            api_key_user_id := 1; permissions := VList [];
            api_key_is_active := false; last_used := Some 10;
            api_key_expires_at := None |} ] |}.

End ApiKeys.

(** ** Version history and table keys (user_stories_router.py) *)

Module History.
Import Routers.

(** [UserStoryVersion.to_dict] *)
Definition Version_to_dict (v : UserStoryVersion) : gmap string pyval :=
  list_to_map
    [ ("id", VInt (version_id v));
      ("user_story_id", VInt (user_story_id v));
      ("version_number", VInt (version_number v));
      ("change_description", change_description v);
      ("changed_by_user_id", VInt (changed_by_user_id v));
      ("story_data", VDict (story_data v));
      ("created_at", VInt (version_created_at v)) ].

(** [ORDER BY version_number DESC] *)
Fixpoint insert_version (x : UserStoryVersion) (l : list UserStoryVersion)
    : list UserStoryVersion :=
  match l with
  | [] => [x]
  | y :: l' => if version_number y <? version_number x then x :: l
               else y :: insert_version x l'
  end.

Definition order_by_number_desc (l : list UserStoryVersion) : list UserStoryVersion :=
  foldr insert_version [] l.

(** [GET /user-stories/{story_id}/versions] *)
Definition get_story_versions (story_id : Z) (current_user : Security.User)
    (db : Database) : response (list (gmap string pyval)) :=
  match query_owned_story db story_id (Security.user_id current_user) with
  | None => not_found_story
  | Some story =>
      let versions := order_by_number_desc (story_versions db story_id) in
      Ok (map Version_to_dict versions)
  end.

(** The versions of a story are numbered 1, 2, ..., in the order they
    were recorded. *)
Definition well_numbered (db : Database) (story_id : Z) : Prop :=
  map version_number (story_versions db story_id)
  = map Z.of_nat (seq 1 (length (story_versions db story_id))).

(** No two rows of a table share an [id], and no row is stored twice. *)
Definition unique_ids (table : list row) : Prop :=
  NoDup (map (λ r, attr r "id") table).

(** [created_at] as a listing shows it. *)
Definition listed_at (d : gmap string pyval) : Z :=
  match d !! "created_at" with
  | Some (VInt t) => t
  | _ => 0
  end.

(** Rows in the order of a listing: no row is newer than one before it. *)
Definition newest_first (rows : list row) : Prop :=
  ∀ i j a b, (i < j)%nat → rows !! i = Some a → rows !! j = Some b →
             created_at b ≤ created_at a.

(** A request body that leaves the keys alone, as the update schemas
    do: they have no [id] and no [project_id] field. *)
Definition keeps_keys (update : gmap string pyval) : Prop :=
  update !! "id" = None ∧ update !! "project_id" = None.

End History.

(** ** Relationship extraction (knowledge_graph_service.py) *)

Module Relationships.
Import KnowledgeGraph.

(** [[r.value.upper() for r in RelationshipType]] (knowledge_graph_model.py) *)
Definition RelationshipType_values : list string :=
  [ "BELONGS_TO"; "DEPENDS_ON"; "IMPLEMENTS"; "INVOLVES"; "CONFLICTS_WITH";
    "DERIVES_FROM"; "RELATES_TO"; "BLOCKS"; "ENABLES"; "VALIDATES" ].

Definition relationship_fields : list string :=
  ["source_entity"; "target_entity"; "relationship_type"].

(** Values that can be dictionary keys. *)
Definition hashable (v : pyval) : bool :=
  match v with
  | VList _ | VDict _ => false
  | _ => true
  end.

(** The number a numeric value stands for. *)
Definition number_of (v : pyval) : option Q :=
  match v with
  | VBool b => Some (if b then 1 else 0)%Q
  | VInt n => Some (inject_Z n)
  | VFloat q => Some q
  | _ => None
  end.

(** [a == b] on hashable values: numbers compare by value, whatever
    their type. *)
Definition key_eq (a b : pyval) : bool :=
  match a, b with
  | VStr s, VStr s' => String.eqb s s'
  | VNone, VNone => true
  | _, _ => match number_of a, number_of b with
            | Some x, Some y => Qeq_bool x y
            | _, _ => false
            end
  end.

(** [{e["name"]: e for e in entities}], as the list of its keys. *)
Fixpoint entity_names (entities : list pyval) : outcome (list pyval) :=
  match entities with
  | [] => Returns []
  | e :: entities' =>
      match subscript e "name" with
      | Raises err => Raises err
      | Returns name =>
          if negb (hashable name) then Raises "TypeError: unhashable type"
          else match entity_names entities' with
               | Raises err => Raises err
               | Returns names => Returns (name :: names)
               end
      end
  end.

(** [v not in entity_names] *)
Definition not_a_name (v : pyval) (names : list pyval) : outcome bool :=
  if negb (hashable v) then Raises "TypeError: unhashable type"
  else Returns (negb (existsb (key_eq v) names)).

(** Returns the verdict together with the relationship as the call
    leaves it. *)
Definition _validate_relationship (relationship : pyval) (names : list pyval)
    : outcome (bool * pyval) :=
  match check_required relationship_fields relationship with
  | Raises e => Raises e
  | Returns false => Returns (false, relationship)
  | Returns true =>
      match subscript relationship "source_entity" with
      | Raises e => Raises e
      | Returns source =>
          match not_a_name source names with
          | Raises e => Raises e
          | Returns true => Returns (false, relationship)
          | Returns false =>
              match subscript relationship "target_entity" with
              | Raises e => Raises e
              | Returns target =>
                  match not_a_name target names with
                  | Raises e => Raises e
                  | Returns true => Returns (false, relationship)
                  | Returns false =>
                      match subscript relationship "relationship_type" with
                      | Raises e => Raises e
                      | Returns ty =>
                          if negb (existsb (eq_str ty) RelationshipType_values)
                          then Returns (false, relationship)
                          else
                            match relationship with
                            | VDict d =>
                                let confidence :=
                                  dict_get_default d "confidence" one_half in
                                if negb (is_int_or_float confidence)
                                   || outside_unit_interval confidence
                                then Returns (true, VDict (<["confidence" := one_half]> d))
                                else Returns (true, relationship)
                            | _ => Raises "AttributeError: no attribute get"
                            end
                      end
                  end
              end
          end
      end
  end.

(** The two item assignments made on a validated relationship. *)
Definition tag (project_id : Z) (extracted_at : string) (rel : pyval) : outcome pyval :=
  match rel with
  | VDict d =>
      Returns (VDict (<["extracted_at" := VStr extracted_at]>
                     (<["project_id" := VInt project_id]> d)))
  | _ => Raises "TypeError: object does not support item assignment"
  end.

(** The [for rel in relationships] loop. *)
Fixpoint validate_relationships (project_id : Z) (extracted_at : string)
    (names : list pyval) (relationships : list pyval) (validated : list pyval)
    : outcome (list pyval) :=
  match relationships with
  | [] => Returns validated
  | rel :: relationships' =>
      match _validate_relationship rel names with
      | Raises e => Raises e
      | Returns (false, _) =>
          validate_relationships project_id extracted_at names relationships' validated
      | Returns (true, rel) =>
          match tag project_id extracted_at rel with
          | Raises e => Raises e
          | Returns rel =>
              validate_relationships project_id extracted_at names relationships'
                (validated ++ [rel])
          end
      end
  end.

(** [f"- {e['name']} ({e['type']})"] for every entity: both keys are
    read. *)
Fixpoint entity_list (entities : list pyval) : outcome unit :=
  match entities with
  | [] => Returns tt
  | e :: entities' =>
      match subscript e "name" with
      | Raises err => Raises err
      | Returns _ =>
          match subscript e "type" with
          | Raises err => Raises err
          | Returns _ => entity_list entities'
          end
      end
  end.

Section Extraction.
(** [json.loads], with [None] for a [JSONDecodeError]; [generate] is the
    call to [llm_service.generate_text] followed by [result["text"]]. *)
Variable json_loads : string → option pyval.
Variable generate : unit → outcome string.

Definition extract_relationships_from_text (entities : list pyval) (project_id : Z)
    (extracted_at : string) : list pyval :=
  if (length entities <? 2)%nat then []
  else
    match entity_list entities with
    | Raises _ => []
    | Returns _ =>
        match generate tt with
        | Raises _ => []
        | Returns response =>
            match json_loads response with
            | None => []
            | Some relationships =>
                let relationships := match relationships with
                                     | VList l => l
                                     | _ => []
                                     end in
                match entity_names entities with
                | Raises _ => []
                | Returns names =>
                    match validate_relationships project_id extracted_at names
                            relationships [] with
                    | Returns validated => validated
                    | Raises _ => []
                    end
                end
            end
        end
    end.
End Extraction.

(** What a returned relationship is known to satisfy. *)
Definition names_entity (v : pyval) (entities : list pyval) : Prop :=
  ∃ e name, In e entities ∧ subscript e "name" = Returns name ∧ key_eq v name = true.

Definition sound_relationship (entities : list pyval) (project_id : Z)
    (extracted_at : string) (rel : pyval) : Prop :=
  ∃ d source target ty,
    rel = VDict d
    ∧ d !! "source_entity" = Some source ∧ names_entity source entities
    ∧ d !! "target_entity" = Some target ∧ names_entity target entities
    ∧ d !! "relationship_type" = Some (VStr ty) ∧ In ty RelationshipType_values
    ∧ d !! "project_id" = Some (VInt project_id)
    ∧ d !! "extracted_at" = Some (VStr extracted_at)
    ∧ ∀ c, d !! "confidence" = Some c →
           is_int_or_float c = true ∧ outside_unit_interval c = false.

(** A model reply, for running the extraction. *)
Definition relation (source target ty : string) (confidence : pyval) : pyval :=
  VDict (<["source_entity" := VStr source]> (<["target_entity" := VStr target]>
        (<["relationship_type" := VStr ty]> (<["confidence" := confidence]> ∅)))).

Definition demo_entities : list pyval :=
  [ candidate "Checkout" "feature" "Pay for a basket" (VFloat (9 # 10));
    candidate "Ledger" "system" "Books the payment" (VFloat (9 # 10)) ].

Definition demo_relations : list pyval :=
  [ relation "Checkout" "Ledger" "DEPENDS_ON" (VFloat (17 # 10));
    relation "Checkout" "Warehouse" "DEPENDS_ON" (VFloat (9 # 10));
    relation "Ledger" "Checkout" "depends_on" (VFloat (9 # 10)) ].

Definition demo_relations_loads (response : string) : option pyval :=
  if String.eqb response "[three relations]" then Some (VList demo_relations) else None.

End Relationships.

(** ** Where the agent's stories come from (user_story_agent.py) *)

Module AgentStories.
Import Agent.

(** [stories] is the [user_stories] entry (or the default [[]]) of the
    [parsed_stories] of a reply that [generate_user_story] gave. *)
Definition from_service (sv : Services) (stories : pyval) : Prop :=
  ∃ requirements context persona provider model reply data,
    generate_user_story sv requirements context persona provider model = Returns reply
    ∧ subscript reply "parsed_stories" = Returns data
    ∧ py_get data "user_stories" (VList []) = Returns stories.

(** The two keys stage 4 settles: either the flag is off and there are
    no stories, or the flag is on and the stories are the service's. *)
Definition settled (sv : Services) (s : State) : Prop :=
  (s !! "stories_generated" = Some (VBool false)
   ∧ s !! "generated_stories" = Some (VList []))
  ∨ (s !! "stories_generated" = Some (VBool true)
     ∧ ∃ stories, s !! "generated_stories" = Some stories ∧ from_service sv stories).

End AgentStories.

(** ** Statements about keyword extraction (text_processing_utils.py) *)

Module Keywords.
Import TextProcessing.

(** How often [w] occurs in a list of words. *)
Definition occurrences (w : text) (words : list text) : nat :=
  length (List.filter (text_eqb w) words).

(** [[a-z]] *)
Definition is_lower_letter (c : ascii) : bool := between 97 122 (code c).

(** The count the frequency table holds for [w]; 0 when it has none. *)
Definition freq_of (w : text) (word_freq : list (text * nat)) : nat :=
  match find (λ item, text_eqb (fst item) w) word_freq with
  | Some item => snd item
  | None => 0
  end.

(** The words the frequency loop counts. *)
Definition counted (min_len : nat) (word : text) : bool :=
  negb (is_stop_word word) && (min_len <=? length word)%nat.

(** A list in non-increasing order of [f]. *)
Fixpoint descending {A} (f : A → nat) (l : list A) : Prop :=
  match l with
  | [] => True
  | x :: l' => (∀ y, In y l' → (f y <= f x)%nat) ∧ descending f l'
  end.

End Keywords.

(* ================================================================== *)
(** * Part II: properties                                              *)
(* ================================================================== *)

Module SecurityProps.
Import Security.

Lemma sym_codec_contract : jwt_contract sym_encode sym_decode.
Proof.
  intros claims key alg now. unfold sym_decode, sym_encode; simpl.
  rewrite !String.eqb_refl. simpl.
  destruct (claims_expired claims now); reflexivity.
Qed.

Section TokenRoundTrip.
  Context {token : Type}.
  Variable jwt_encode : gmap string pyval → string → string → token.
  Variable jwt_decode : token → string → list string → Z → option (gmap string pyval).
  Variable settings : Settings.
  Hypothesis codec : jwt_contract jwt_encode jwt_decode.

Let access := create_access_token jwt_encode settings.
Let refresh := create_refresh_token jwt_encode settings.
Let verify := verify_token jwt_decode settings.

Lemma access_claims_expired now data delta t :
    claims_expired (access_claims settings now data delta) t
    = (expiry now delta (ACCESS_TOKEN_EXPIRE_MINUTES settings) <? t).
  Proof.
    unfold claims_expired, access_claims.
    rewrite lookup_insert_ne by done. by rewrite lookup_insert_eq.
  Qed.

Lemma refresh_claims_expired now data delta t :
    claims_expired (refresh_claims settings now data delta) t
    = (expiry now delta (REFRESH_TOKEN_EXPIRE_MINUTES settings) <? t).
  Proof.
    unfold claims_expired, refresh_claims.
    rewrite lookup_insert_ne by done. by rewrite lookup_insert_eq.
  Qed.

Lemma decode_access now data delta t :
    jwt_decode (access now data delta) (SECRET_KEY settings) [ALGORITHM settings] t
    = if expiry now delta (ACCESS_TOKEN_EXPIRE_MINUTES settings) <? t
      then None else Some (access_claims settings now data delta).
  Proof.
    unfold access, create_access_token. rewrite codec.
    fold (access_claims settings now data delta). by rewrite access_claims_expired.
  Qed.

Lemma decode_refresh now data delta t :
    jwt_decode (refresh now data delta) (SECRET_KEY settings) [ALGORITHM settings] t
    = if expiry now delta (REFRESH_TOKEN_EXPIRE_MINUTES settings) <? t
      then None else Some (refresh_claims settings now data delta).
  Proof.
    unfold refresh, create_refresh_token. rewrite codec.
    fold (refresh_claims settings now data delta). by rewrite refresh_claims_expired.
  Qed.

Lemma access_claims_keeps now data delta k :
    k ≠ "type" → k ≠ "exp" → access_claims settings now data delta !! k = data !! k.
  Proof.
    intros Ht He. unfold access_claims.
    rewrite lookup_insert_ne by done. by rewrite lookup_insert_ne.
  Qed.

  (** C3. Token round trip.  For a claim set with [sub], [user_id] and
      [role] ([sub] not [None]) and the access token issued from it at
      time [now]: while the token has not expired, verifying it as an
      "access" token returns a payload with the same [sub], [user_id] and
      [role]; verifying it as a "refresh" token returns [None] at any
      time; and once the expiry has passed, verifying an issued access or
      refresh token returns [None] whatever type is expected. *)
Theorem token_round_trip (now : Z) (data : gmap string pyval) (delta : option Z)
      (sub uid rol : pyval) :
    data !! "sub" = Some sub → sub ≠ VNone →
    data !! "user_id" = Some uid →
    data !! "role" = Some rol →
    let tok := create_access_token jwt_encode settings now data delta in
    let exp := expiry now delta (ACCESS_TOKEN_EXPIRE_MINUTES settings) in
    (∀ t, t ≤ exp →
       ∃ payload,
         verify_token jwt_decode settings t tok "access" = Some payload
         ∧ payload !! "sub" = Some sub
         ∧ payload !! "user_id" = Some uid
         ∧ payload !! "role" = Some rol)
    ∧ (∀ t, verify_token jwt_decode settings t tok "refresh" = None)
    ∧ (∀ t ty, exp < t → verify_token jwt_decode settings t tok ty = None)
    ∧ (∀ t ty d,
         expiry now d (REFRESH_TOKEN_EXPIRE_MINUTES settings) < t →
         verify_token jwt_decode settings t
           (create_refresh_token jwt_encode settings now data d) ty = None).
  Proof.
    intros Hsub Hnone Huid Hrole tok exp. subst tok exp.
    repeat split.
    - intros t Ht. exists (access_claims settings now data delta).
      unfold verify_token. fold access. rewrite decode_access.
      destruct (Z.ltb_spec (expiry now delta (ACCESS_TOKEN_EXPIRE_MINUTES settings)) t);
        [lia|].
      unfold dict_get.
      assert (Hty : access_claims settings now data delta !! "type" = Some (VStr "access"))
        by (unfold access_claims; by rewrite lookup_insert_eq).
      rewrite Hty. simpl.
      rewrite access_claims_keeps by done. rewrite Hsub. simpl.
      destruct sub; try congruence;
        (split; [reflexivity|]);
        rewrite !access_claims_keeps by done; auto.
    - intros t. unfold verify_token. fold access. rewrite decode_access.
      destruct (_ <? t); [reflexivity|].
      unfold dict_get, access_claims. by rewrite lookup_insert_eq.
    - intros t ty Ht. unfold verify_token. fold access. rewrite decode_access.
      destruct (Z.ltb_spec (expiry now delta (ACCESS_TOKEN_EXPIRE_MINUTES settings)) t);
        [reflexivity|lia].
    - intros t ty d Ht. unfold verify_token. fold refresh. rewrite decode_refresh.
      destruct (Z.ltb_spec (expiry now d (REFRESH_TOKEN_EXPIRE_MINUTES settings)) t);
        [reflexivity|lia].
  Qed.
End TokenRoundTrip.

Lemma token_round_trip_witness :
  let s := default_settings "s3cret" in
  let tok := create_access_token sym_encode s 1000 login_claims None in
  (∀ t, t ≤ 2800 →
     ∃ payload,
       verify_token sym_decode s t tok "access" = Some payload
       ∧ payload !! "sub" = Some (VStr "alice")
       ∧ payload !! "user_id" = Some (VInt 1)
       ∧ payload !! "role" = Some (VStr "user"))
  ∧ (∀ t, verify_token sym_decode s t tok "refresh" = None)
  ∧ (∀ t ty, 2800 < t → verify_token sym_decode s t tok ty = None)
  ∧ (∀ t ty d,
       expiry 1000 d (REFRESH_TOKEN_EXPIRE_MINUTES s) < t →
       verify_token sym_decode s t
         (create_refresh_token sym_encode s 1000 login_claims d) ty = None).
Proof.
  exact (token_round_trip sym_encode sym_decode (default_settings "s3cret")
           sym_codec_contract 1000 login_claims None
           (VStr "alice") (VInt 1) (VStr "user")
           eq_refl ltac:(discriminate) eq_refl eq_refl).
Defined.

Section Revocation.
Context {token : Type} `{Countable token}.
Variable jwt_decode : token → string → list string → Z → option (gmap string pyval).
Variable settings : Settings.

Lemma logout_users now tok (st : AppState) :
  users (snd (logout jwt_decode settings now tok st)) = users st.
Proof.
  unfold logout. destruct (get_current_active_user _ _ _ _ _); reflexivity.
Qed.

(** Resolving the caller reads the user table and the codec only. *)
Lemma get_current_user_reads_users t tok (st st' : AppState) :
  users st' = users st →
  get_current_user jwt_decode settings t tok st'
  = get_current_user jwt_decode settings t tok st.
Proof.
  intros Hu. unfold get_current_user, query_user_by_username. by rewrite Hu.
Qed.

(** The dependency every route declares, [get_current_active_user], gives
    the same answer for every token before and after a logout: the
    revocation list is not consulted. *)
Lemma logout_does_not_revoke now tok t tok' (st : AppState) :
  get_current_active_user jwt_decode settings t tok'
    (snd (logout jwt_decode settings now tok st))
  = get_current_active_user jwt_decode settings t tok' st.
Proof.
  unfold get_current_active_user.
  rewrite (get_current_user_reads_users t tok' st); [reflexivity|].
  apply logout_users.
Qed.

(** After a successful logout the presented token is on the revocation
    list, and the one resolver that consults the list refuses it. *)
Lemma logout_blacklists now tok (st : AppState) u :
  get_current_active_user jwt_decode settings now tok st = Ok u →
  let st' := snd (logout jwt_decode settings now tok st) in
  is_blacklisted tok st' = true
  ∧ ∀ t, get_current_user_with_blacklist_check jwt_decode settings t tok st'
         = HTTPException HTTP_401_UNAUTHORIZED "Token has been revoked".
Proof.
  intros Hu. unfold logout. rewrite Hu. simpl.
  assert (Hb : bool_decide (tok ∈ {[tok]} ∪ _blacklisted_tokens st) = true)
    by (apply bool_decide_eq_true; set_solver).
  split.
  - unfold is_blacklisted. simpl. exact Hb.
  - intros t. unfold get_current_user_with_blacklist_check, is_blacklisted.
    simpl. by rewrite Hb.
Qed.

(** After a successful logout no session row of the caller is active. *)
Lemma logout_deactivates_sessions now tok (st : AppState) u :
  get_current_active_user jwt_decode settings now tok st = Ok u →
  ∀ s, In s (user_sessions (snd (logout jwt_decode settings now tok st))) →
       session_user_id s = user_id u → session_is_active s = false.
Proof.
  intros Hu s Hin Hid. unfold logout in Hin. rewrite Hu in Hin. simpl in Hin.
  apply in_map_iff in Hin as (s0 & Hs & _).
  destruct (Z.eqb_spec (session_user_id s0) (user_id u)) as [He|He]; simpl in Hs.
  - destruct (session_is_active s0) eqn:Ha; subst s; simpl; auto.
  - subst s. congruence.
Qed.
End Revocation.

(** C1 on the deployment above: alice logs out with her access token at
    time 1500.  The logout succeeds, the token is put on the revocation
    list and both of her sessions are deactivated; yet at time 1600 the
    same token still resolves to alice on [GET /auth/me] and
    [GET /auth/sessions] instead of being answered 401.  Only the resolver
    with the blacklist check, which no route depends on, refuses it. *)
Lemma logout_token_still_accepted :
  let out := logout demo_decode demo_settings 1500 alice_token demo_state in
  fst out = Ok "Successfully logged out"
  ∧ is_blacklisted alice_token (snd out) = true
  ∧ map session_is_active (user_sessions (snd out)) = [false; true; false]
  ∧ get_current_user_profile demo_decode demo_settings 1600 alice_token (snd out)
    = Ok alice
  ∧ get_user_sessions demo_decode demo_settings 1600 alice_token (snd out) = Ok []
  ∧ get_current_user_with_blacklist_check demo_decode demo_settings 1600
      alice_token (snd out)
    = HTTPException 401 "Token has been revoked".
Proof. vm_compute. repeat split; reflexivity. Qed.

End SecurityProps.

Module RouterProps.
Import Routers.

Lemma find_all_false {A} (p : A → bool) (l : list A) :
  (∀ x, In x l → p x = false) → find p l = None.
Proof.
  induction l as [|x l IH]; intros Hall; simpl; [reflexivity|].
  rewrite (Hall x) by (left; reflexivity).
  apply IH. intros y Hy. apply Hall. by right.
Qed.

Lemma In_firstn {A} (x : A) n (l : list A) : In x (firstn n l) → In x l.
Proof.
  revert l. induction n as [|n IH]; intros [|y l]; simpl; try tauto.
  intros [->|Hx]; [by left|right; by apply IH].
Qed.

Lemma In_skipn {A} (x : A) n (l : list A) : In x (skipn n l) → In x l.
Proof.
  revert l. induction n as [|n IH]; intros [|y l]; simpl; try tauto.
  intros Hx. right. by apply IH.
Qed.

Lemma In_paginate {A} (x : A) skip limit (l : list A) :
  In x (paginate skip limit l) → In x l.
Proof. unfold paginate. intros Hx. eapply In_skipn, In_firstn, Hx. Qed.

Lemma In_insert_desc x y l : In x (insert_desc y l) ↔ x = y ∨ In x l.
Proof.
  induction l as [|z l IH]; simpl.
  - intuition congruence.
  - destruct (created_at z <? created_at y); simpl; [intuition congruence|].
    rewrite IH. intuition congruence.
Qed.

Lemma In_order_by_created_desc x l : In x (order_by_created_desc l) ↔ In x l.
Proof.
  unfold order_by_created_desc. induction l as [|y l IH]; simpl; [tauto|].
  rewrite In_insert_desc, IH. intuition congruence.
Qed.

Lemma In_filter_opt f test x l : In x (filter_opt f test l) → In x l.
Proof.
  unfold filter_opt. destruct f as [v|]; [|tauto].
  destruct (String.eqb v ""); [tauto|]. rewrite filter_In. tauto.
Qed.

Lemma to_dict_of_lookup columns r k :
  In k columns → to_dict_of columns r !! k = Some (attr r k).
Proof.
  unfold to_dict_of. induction columns as [|c columns IH]; simpl; [tauto|].
  intros Hin. destruct (decide (c = k)) as [->|Hne].
  - by rewrite lookup_insert_eq.
  - rewrite lookup_insert_ne by done. apply IH. destruct Hin; [congruence|done].
Qed.

Lemma foreign_query db uid id table :
  foreign db uid id table → find (owned_with_id db uid id) table = None.
Proof.
  intros Hf. apply find_all_false. intros r Hr. unfold owned_with_id.
  destruct (col_eq_int r "id" id) eqn:Hid; [|reflexivity].
  simpl. by apply Hf.
Qed.

Lemma absent_is_foreign db uid id table :
  (∀ r, In r table → col_eq_int r "id" id = false) → foreign db uid id table.
Proof. intros Habs r Hr Hid. rewrite Habs in Hid by done. discriminate. Qed.

Lemma col_eq_int_attr r k n : col_eq_int r k n = true ↔ attr r k = VInt n.
Proof.
  unfold col_eq_int. destruct (attr r k); try (split; [discriminate|congruence]).
  rewrite Z.eqb_eq. split; congruence.
Qed.

(** Under a primary key, one row with that id and a parent project of
    another user makes the id foreign. *)
Lemma not_owned_is_foreign db uid id table r :
  primary_key table → In r table → attr r "id" = VInt id →
  owned_by db uid r = false → foreign db uid id table.
Proof.
  intros Hpk Hr Hid Hown r' Hr' Hid'. apply col_eq_int_attr in Hid'.
  rewrite (Hpk r' r) by congruence. exact Hown.
Qed.

Lemma not_owned_project db uid pid r :
  attr r "project_id" = VInt pid → owned_by db uid r = false →
  query_owned_project db pid uid = None.
Proof.
  intros Hp Hown. apply find_all_false. intros p Hin.
  unfold owned_by in Hown.
  destruct ((project_id p =? pid) && (owner_id p =? uid)) eqn:E; [|reflexivity].
  apply andb_prop in E as [E1 E2]. apply Z.eqb_eq in E1.
  assert (Hex : existsb (λ p, col_eq_int r "project_id" (project_id p)
                               && (owner_id p =? uid)) (projects db) = true).
  { apply existsb_exists. exists p. split; [done|].
    rewrite E2, andb_true_r. apply col_eq_int_attr. congruence. }
  congruence.
Qed.

Lemma scope_owned pf uid db table rows r :
  scope_to_projects pf uid db table = Ok rows → In r rows →
  In r table ∧ owned_by db uid r = true.
Proof.
  unfold scope_to_projects.
  assert (Hown : In r (List.filter (owned_by db uid) table) →
                 In r table ∧ owned_by db uid r = true) by (by rewrite filter_In).
  destruct pf as [pid|]; [|by intros [= <-]].
  destruct (pid =? 0); [by intros [= <-]|].
  destruct (query_owned_project db pid uid) as [p|] eqn:Hq; [|discriminate].
  intros [= <-] Hr. apply filter_In in Hr as [Hr Hp]. split; [done|].
  apply find_some in Hq as [Hin Hq]. apply andb_prop in Hq as [Hq1 Hq2].
  apply Z.eqb_eq in Hq1. unfold owned_by. apply existsb_exists.
  exists p. split; [done|]. by rewrite Hq1, Hp, Hq2.
Qed.

Lemma scope_foreign_project pid uid db table :
  pid ≠ 0 → query_owned_project db pid uid = None →
  scope_to_projects (Some pid) uid db table = not_found_project.
Proof.
  intros Hz Hq. unfold scope_to_projects.
  destruct (Z.eqb_spec pid 0); [done|]. by rewrite Hq.
Qed.

Lemma to_dict_of_id_inj columns r1 r2 :
  In "id" columns → to_dict_of columns r1 = to_dict_of columns r2 →
  attr r1 "id" = attr r2 "id".
Proof.
  intros Hin Heq.
  pose proof (to_dict_of_lookup columns r1 "id" Hin) as H1.
  pose proof (to_dict_of_lookup columns r2 "id" Hin) as H2.
  rewrite Heq in H1. congruence.
Qed.

Section Isolation.
Variable ilike : pyval → string → bool.

Lemma documents_isolated (db : Database) (u : Security.User) (id : Z) :
  foreign db (Security.user_id u) id (documents db) →
  get_document id u db = not_found_document
  ∧ (∀ now upd, update_document now id upd u db = (not_found_document, db))
  ∧ delete_document id u db = (not_found_document, db).
Proof.
  intros Hf. apply foreign_query in Hf.
  unfold get_document, update_document, delete_document, query_owned_document.
  rewrite Hf. auto.
Qed.

Lemma stories_isolated (db : Database) (u : Security.User) (id : Z) :
  foreign db (Security.user_id u) id (user_stories db) →
  get_user_story id u db = not_found_story
  ∧ (∀ now upd, update_user_story now id upd u db = (not_found_story, db))
  ∧ delete_user_story id u db = (not_found_story, db).
Proof.
  intros Hf. apply foreign_query in Hf.
  unfold get_user_story, update_user_story, delete_user_story, query_owned_story.
  rewrite Hf. auto.
Qed.

Lemma list_documents_owned pf ty st se skip limit u db resp :
  list_documents ilike pf ty st se skip limit u db = Ok resp →
  ∃ rows, items resp = map Document_to_dict rows
          ∧ ∀ r, In r rows → In r (documents db)
                             ∧ owned_by db (Security.user_id u) r = true.
Proof.
  unfold list_documents.
  destruct (scope_to_projects pf _ db (documents db)) as [rows|] eqn:Hs; [|discriminate].
  intros [= <-]. simpl. eexists. split; [reflexivity|].
  intros r Hr. apply In_paginate in Hr. rewrite In_order_by_created_desc in Hr.
  do 3 apply In_filter_opt in Hr. eapply scope_owned; eauto.
Qed.

Lemma list_user_stories_owned pf st pr asg se skip limit u db resp :
  list_user_stories ilike pf st pr asg se skip limit u db = Ok resp →
  ∃ rows, items resp = map UserStory_to_dict rows
          ∧ ∀ r, In r rows → In r (user_stories db)
                             ∧ owned_by db (Security.user_id u) r = true.
Proof.
  unfold list_user_stories.
  destruct (scope_to_projects pf _ db (user_stories db)) as [rows|] eqn:Hs; [|discriminate].
  intros [= <-]. simpl. eexists. split; [reflexivity|].
  intros r Hr. apply In_paginate in Hr. rewrite In_order_by_created_desc in Hr.
  apply In_filter_opt in Hr.
  assert (Hr' : In r (filter_opt pr (λ v r, col_eq_str r "priority" v)
                        (filter_opt st (λ v r, col_eq_str r "status" v) rows))).
  { destruct asg as [a|]; [|exact Hr].
    destruct (a =? 0); [exact Hr|]. apply filter_In in Hr. tauto. }
  do 2 apply In_filter_opt in Hr'. eapply scope_owned; eauto.
Qed.

Lemma document_not_listed pf ty st se skip limit u db resp d :
  primary_key (documents db) → In d (documents db) →
  owned_by db (Security.user_id u) d = false →
  list_documents ilike pf ty st se skip limit u db = Ok resp →
  ¬ In (Document_to_dict d) (items resp).
Proof.
  intros Hpk Hd Hown Hl Hin.
  apply list_documents_owned in Hl as (rows & Hitems & Hrows).
  rewrite Hitems in Hin. apply in_map_iff in Hin as (r & Heq & Hr). apply Hrows in Hr as [Hr Ho].
  apply to_dict_of_id_inj in Heq; [|vm_compute; tauto].
  rewrite (Hpk r d) in Ho by done. congruence.
Qed.

Lemma story_not_listed pf st pr asg se skip limit u db resp s :
  primary_key (user_stories db) → In s (user_stories db) →
  owned_by db (Security.user_id u) s = false →
  list_user_stories ilike pf st pr asg se skip limit u db = Ok resp →
  ¬ In (UserStory_to_dict s) (items resp).
Proof.
  intros Hpk Hd Hown Hl Hin.
  apply list_user_stories_owned in Hl as (rows & Hitems & Hrows).
  rewrite Hitems in Hin. apply in_map_iff in Hin as (r & Heq & Hr). apply Hrows in Hr as [Hr Ho].
  apply to_dict_of_id_inj in Heq; [|vm_compute; tauto].
  rewrite (Hpk r s) in Ho by done. congruence.
Qed.

Lemma list_documents_foreign_project pid ty st se skip limit u db :
  pid ≠ 0 → query_owned_project db pid (Security.user_id u) = None →
  list_documents ilike (Some pid) ty st se skip limit u db = not_found_project.
Proof.
  intros Hz Hq. unfold list_documents. by rewrite scope_foreign_project.
Qed.

Lemma list_user_stories_foreign_project pid st pr asg se skip limit u db :
  pid ≠ 0 → query_owned_project db pid (Security.user_id u) = None →
  list_user_stories ilike (Some pid) st pr asg se skip limit u db = not_found_project.
Proof.
  intros Hz Hq. unfold list_user_stories. by rewrite scope_foreign_project.
Qed.

Lemma no_project_query db pid uid : no_project db pid → query_owned_project db pid uid = None.
Proof.
  intros Hno. apply find_all_false. intros p Hp.
  destruct (Z.eqb_spec (project_id p) pid) as [He|]; [|reflexivity].
  by apply Hno in He.
Qed.

(** C2. Ownership isolation.  Let [u] be a user and [d] a stored Document
    (likewise [s] a stored UserStory) whose parent project is not owned by
    [u].  Then reading, updating and deleting it by id, and listing with
    its project as the filter, each answer 404 Not Found (so never 403 and
    never data) and leave the store unchanged; no listing of any kind
    contains the resource; and each answer is the one the same request
    gets from a store where the id (the project) does not exist at all. *)
Theorem ownership_isolation (db : Database) (u : Security.User) :
  (∀ d id pid, not_owned db u (documents db) d id pid →
     get_document id u db = HTTPException 404 "Document not found or access denied"
     ∧ (∀ now upd, update_document now id upd u db
                   = (HTTPException 404 "Document not found or access denied", db))
     ∧ delete_document id u db
       = (HTTPException 404 "Document not found or access denied", db)
     ∧ (∀ ty st se skip limit,
          list_documents ilike (Some pid) ty st se skip limit u db
          = HTTPException 404 "Project not found or access denied")
     ∧ (∀ pf ty st se skip limit resp,
          list_documents ilike pf ty st se skip limit u db = Ok resp →
          ¬ In (Document_to_dict d) (items resp))
     ∧ (∀ db0, no_row (documents db0) id →
          get_document id u db0 = get_document id u db
          ∧ (∀ now upd, fst (update_document now id upd u db0)
                        = fst (update_document now id upd u db))
          ∧ fst (delete_document id u db0) = fst (delete_document id u db))
     ∧ (∀ db0 ty st se skip limit, no_project db0 pid →
          list_documents ilike (Some pid) ty st se skip limit u db0
          = list_documents ilike (Some pid) ty st se skip limit u db))
  ∧ (∀ s id pid, not_owned db u (user_stories db) s id pid →
     get_user_story id u db = HTTPException 404 "User story not found or access denied"
     ∧ (∀ now upd, update_user_story now id upd u db
                   = (HTTPException 404 "User story not found or access denied", db))
     ∧ delete_user_story id u db
       = (HTTPException 404 "User story not found or access denied", db)
     ∧ (∀ st pr asg se skip limit,
          list_user_stories ilike (Some pid) st pr asg se skip limit u db
          = HTTPException 404 "Project not found or access denied")
     ∧ (∀ pf st pr asg se skip limit resp,
          list_user_stories ilike pf st pr asg se skip limit u db = Ok resp →
          ¬ In (UserStory_to_dict s) (items resp))
     ∧ (∀ db0, no_row (user_stories db0) id →
          get_user_story id u db0 = get_user_story id u db
          ∧ (∀ now upd, fst (update_user_story now id upd u db0)
                        = fst (update_user_story now id upd u db))
          ∧ fst (delete_user_story id u db0) = fst (delete_user_story id u db))
     ∧ (∀ db0 st pr asg se skip limit, no_project db0 pid →
          list_user_stories ilike (Some pid) st pr asg se skip limit u db0
          = list_user_stories ilike (Some pid) st pr asg se skip limit u db)).
Proof.
  split.
  - intros d id pid (Hpk & Hd & Hid & Hpid & Hpos & Hown).
    assert (Hf : foreign db (Security.user_id u) id (documents db))
      by (eapply not_owned_is_foreign; eauto).
    assert (Hq : query_owned_project db pid (Security.user_id u) = None)
      by (eapply not_owned_project; eauto).
    destruct (documents_isolated db u id Hf) as (Hg & Hu & Hdel).
    repeat split.
    + exact Hg.
    + exact Hu.
    + exact Hdel.
    + intros. apply list_documents_foreign_project; [lia|done].
    + intros. eapply document_not_listed; eauto.
    + destruct (documents_isolated db0 u id (absent_is_foreign _ _ _ _ H))
        as (Hg0 & _ & _). by rewrite Hg0, Hg.
    + intros now upd.
      destruct (documents_isolated db0 u id (absent_is_foreign _ _ _ _ H))
        as (_ & Hu0 & _). by rewrite Hu0, Hu.
    + destruct (documents_isolated db0 u id (absent_is_foreign _ _ _ _ H))
        as (_ & _ & Hd0). by rewrite Hd0, Hdel.
    + intros db0 ty st se skip limit Hno.
      rewrite !list_documents_foreign_project; auto using no_project_query; lia.
  - intros s id pid (Hpk & Hd & Hid & Hpid & Hpos & Hown).
    assert (Hf : foreign db (Security.user_id u) id (user_stories db))
      by (eapply not_owned_is_foreign; eauto).
    assert (Hq : query_owned_project db pid (Security.user_id u) = None)
      by (eapply not_owned_project; eauto).
    destruct (stories_isolated db u id Hf) as (Hg & Hu & Hdel).
    repeat split.
    + exact Hg.
    + exact Hu.
    + exact Hdel.
    + intros. apply list_user_stories_foreign_project; [lia|done].
    + intros. eapply story_not_listed; eauto.
    + destruct (stories_isolated db0 u id (absent_is_foreign _ _ _ _ H))
        as (Hg0 & _ & _). by rewrite Hg0, Hg.
    + intros now upd.
      destruct (stories_isolated db0 u id (absent_is_foreign _ _ _ _ H))
        as (_ & Hu0 & _). by rewrite Hu0, Hu.
    + destruct (stories_isolated db0 u id (absent_is_foreign _ _ _ _ H))
        as (_ & _ & Hd0). by rewrite Hd0, Hdel.
    + intros db0 st pr asg se skip limit Hno.
      rewrite !list_user_stories_foreign_project; auto using no_project_query; lia.
Qed.
End Isolation.

(** The witness of [ownership_isolation] runs it for alice against bob's
    document 2 and story 2 in [demo_db]. *)
Lemma demo_documents_key : primary_key (documents demo_db).
Proof.
  intros r1 r2 H1 H2. simpl in H1, H2.
  destruct H1 as [<-|[<-|[]]], H2 as [<-|[<-|[]]];
    intros Hid; vm_compute in Hid; first [discriminate|reflexivity].
Qed.

Lemma demo_stories_key : primary_key (user_stories demo_db).
Proof.
  intros r1 r2 H1 H2. simpl in H1, H2.
  destruct H1 as [<-|[<-|[]]], H2 as [<-|[<-|[]]];
    intros Hid; vm_compute in Hid; first [discriminate|reflexivity].
Qed.

Lemma ownership_isolation_witness :
  not_owned demo_db Security.alice (documents demo_db) (demo_document 2 2 "bob.txt") 2 2
  ∧ not_owned demo_db Security.alice (user_stories demo_db) (demo_story 2 2 "Bob's story") 2 2
  ∧ get_document 2 Security.alice demo_db
    = HTTPException 404 "Document not found or access denied"
  ∧ get_user_story 2 Security.alice demo_db
    = HTTPException 404 "User story not found or access denied"
  ∧ list_documents (λ _ _, true) (Some 2) None None None 0 100 Security.alice demo_db
    = HTTPException 404 "Project not found or access denied".
Proof.
  assert (Hd : not_owned demo_db Security.alice (documents demo_db)
                 (demo_document 2 2 "bob.txt") 2 2).
  { split; [exact demo_documents_key|].
    split; [right; left; reflexivity|]. repeat split; try reflexivity; lia. }
  assert (Hs : not_owned demo_db Security.alice (user_stories demo_db)
                 (demo_story 2 2 "Bob's story") 2 2).
  { split; [exact demo_stories_key|].
    split; [right; left; reflexivity|]. repeat split; try reflexivity; lia. }
  destruct (ownership_isolation (λ _ _, true) demo_db Security.alice) as [HD HS].
  destruct (HD _ _ _ Hd) as (Hg & _ & _ & Hl & _).
  destruct (HS _ _ _ Hs) as (Hg' & _).
  split; [exact Hd|]. split; [exact Hs|].
  split; [exact Hg|]. split; [exact Hg'|]. apply Hl.
Defined.

Lemma find_unique {A} (p : A → bool) (l : list A) (x : A) :
  In x l → p x = true → (∀ y, In y l → p y = true → y = x) → find p l = Some x.
Proof.
  induction l as [|z l IH]; simpl; [tauto|]. intros Hin Hp Huniq.
  destruct (p z) eqn:Hz.
  - f_equal. apply Huniq; [by left|done].
  - destruct Hin as [->|Hin]; [congruence|].
    apply IH; [exact Hin|exact Hp|].
    intros y Hy. apply Huniq. by right.
Qed.

Lemma owned_story_query db u story id :
  owned_story db u story id →
  query_owned_story db id (Security.user_id u) = Some story.
Proof.
  intros (Hpk & Hin & Hid & Hown). apply find_unique; [done| |].
  - unfold owned_with_id. rewrite Hown, andb_true_r. by apply col_eq_int_attr.
  - intros y Hy Hp. apply andb_prop in Hp as [Hp _].
    apply col_eq_int_attr in Hp. apply Hpk; congruence.
Qed.



End RouterProps.

Module RagProps.
Import Rag.

Section Threshold.
Context {score : Type}.
Variable score_ge : score → score → bool.
Variable score_truthy : score → bool.
Variable similarity_search_with_score :
  string → Z → Z → option (gmap string pyval) → outcome (list (Document * score)).
Variable TOP_K_RETRIEVAL : Z.
Variable SIMILARITY_THRESHOLD : score.

Lemma keep_relevant_fold thr (results : list (Document * score)) acc :
  fold_left (keep_relevant score_ge thr) results acc
  = (acc ++ map entry_of (List.filter (λ r, score_ge (snd r) thr) results))%list.
Proof.
  revert acc. induction results as [|[doc sc] results IH]; intros acc; simpl.
  - by rewrite app_nil_r.
  - rewrite IH. destruct (score_ge sc thr); simpl; [|reflexivity].
    by rewrite <- app_assoc.
Qed.

Lemma filter_none {A} (p : A → bool) (l : list A) :
  (∀ x, In x l → p x = false) → List.filter p l = [].
Proof.
  induction l as [|x l IH]; intros Hall; simpl; [reflexivity|].
  rewrite (Hall x) by (by left). apply IH. intros y Hy. apply Hall. by right.
Qed.

(** C9. Retrieval threshold filtering.  With a threshold [thr] that is in
    force (passed explicitly and non-zero, such as 0.7, or left to the
    configured default), and whatever list the similarity search returns,
    [retrieve_relevant_context] returns exactly the results whose score is
    [>= thr], as context entries, in the order the search returned them;
    it returns the empty list when no result meets the threshold. *)
Theorem retrieval_threshold_filter (query : string) (project_id : Z) (k : option Z)
    (arg : option score) (thr : score) (results : list (Document * score)) :
  arg = Some thr ∧ score_truthy thr = true ∨ arg = None ∧ SIMILARITY_THRESHOLD = thr →
  similarity_search_with_score query (effective_k TOP_K_RETRIEVAL k) project_id
    (project_filter_dict project_id) = Returns results →
  let retrieved :=
    retrieve_relevant_context score_ge score_truthy similarity_search_with_score
      TOP_K_RETRIEVAL SIMILARITY_THRESHOLD query project_id k arg in
  retrieved = Returns (map entry_of (List.filter (λ r, score_ge (snd r) thr) results))
  ∧ ((∀ r, In r results → score_ge (snd r) thr = false) → retrieved = Returns []).
Proof.
  intros Harg Hsearch retrieved.
  assert (Hr : retrieved
               = Returns (map entry_of (List.filter (λ r, score_ge (snd r) thr) results))).
  { subst retrieved. unfold retrieve_relevant_context. rewrite Hsearch.
    rewrite keep_relevant_fold. simpl.
    destruct Harg as [[-> Ht]|[-> <-]]; [rewrite Ht|]; reflexivity. }
  split; [exact Hr|].
  intros Hnone. rewrite Hr. by rewrite filter_none.
Qed.
End Threshold.

Lemma retrieval_threshold_filter_witness :
  retrieve_relevant_context q_ge q_truthy demo_search 5 (7 # 10)
    "how do users sign in" 1 None (Some (7 # 10))
  = Returns [ entry_of (demo_chunk "login flow", 9 # 10);
              entry_of (demo_chunk "password reset", 7 # 10) ].
Proof.
  exact (proj1 (retrieval_threshold_filter q_ge q_truthy demo_search 5 (7 # 10)
                  "how do users sign in" 1 None (Some (7 # 10)) (7 # 10) demo_results
                  (or_introl (conj eq_refl eq_refl)) eq_refl)).
Defined.

End RagProps.


Module KnowledgeGraphProps.
Import KnowledgeGraph.

Lemma check_required_dict fields d :
  check_required fields (VDict d)
  = Returns (forallb (λ field, truthy (dict_get d field)) fields).
Proof.
  induction fields as [|f fields IH]; simpl; [reflexivity|].
  unfold dict_get at 1. destruct (d !! f) as [v|] eqn:Hf; simpl.
  - destruct (truthy v); simpl; [exact IH|reflexivity].
  - reflexivity.
Qed.

Lemma truthy_present d field : truthy (dict_get d field) = true → is_Some (d !! field).
Proof. unfold dict_get. destruct (d !! field); simpl; [eauto|discriminate]. Qed.

(** On a JSON object the validator agrees with the rule as specified. *)
Lemma validate_dict d :
  _validate_entity (VDict d)
  = Returns (spec_valid (VDict d),
             if spec_valid (VDict d) then spec_coerce (VDict d) else VDict d).
Proof.
  unfold _validate_entity. rewrite check_required_dict. unfold spec_valid.
  destruct (forallb _ required_fields) eqn:Hreq; [|reflexivity].
  assert (Hty : is_Some (d !! "type")).
  { apply truthy_present. simpl in Hreq. destruct (truthy (dict_get d "name")); [|done].
    simpl in Hreq. destruct (truthy (dict_get d "type")); done. }
  destruct Hty as [ty Hty].
  assert (Hget : dict_get d "type" = ty) by (unfold dict_get; by rewrite Hty).
  rewrite Hget. cbn [subscript andb]. rewrite Hty.
  destruct (existsb (eq_str ty) EntityType_values); cbn [negb]; [|reflexivity].
  unfold spec_coerce, dict_get_default, bad_confidence.
  destruct (d !! "confidence") as [v|]; cbn [default from_option id]; [|reflexivity].
  destruct (negb (is_int_or_float v) || outside_unit_interval v); reflexivity.
Qed.

Lemma validate_malformed c : malformed c = true → ∃ e, _validate_entity c = Raises e.
Proof.
  destruct c; simpl; try discriminate; unfold _validate_entity; simpl; eauto.
  - intros ->. simpl. eauto.
  - intros ->. simpl. eauto.
Qed.

Lemma validate_not_object c :
  malformed c = false → spec_valid c = false → _validate_entity c = Returns (false, c).
Proof.
  intros Hm Hv. destruct c; try (simpl in Hm; discriminate).
  - unfold _validate_entity. simpl in *. by rewrite Hm.
  - unfold _validate_entity. simpl in *. by rewrite Hm.
  - rewrite validate_dict. by rewrite Hv.
Qed.

Lemma enrich_spec pid at_ text c :
  spec_valid c = true →
  enrich pid at_ text (spec_coerce c) = Returns (spec_enrich pid at_ text (spec_coerce c)).
Proof.
  destruct c; simpl; try discriminate. intros _.
  destruct (d !! "confidence") as [v|]; [|reflexivity].
  destruct (bad_confidence v); reflexivity.
Qed.

Lemma validate_all_spec pid at_ text cands acc :
  (existsb malformed cands = true → ∃ e, validate_all pid at_ text cands acc = Raises e)
  ∧ (existsb malformed cands = false →
     validate_all pid at_ text cands acc
     = Returns (acc ++ accepted pid at_ text cands)%list).
Proof.
  revert acc. induction cands as [|c cands IH]; intros acc; simpl.
  - split; [discriminate|]. intros _. by rewrite app_nil_r.
  - destruct (malformed c) eqn:Hm; simpl.
    + split; [|discriminate]. intros _.
      destruct (validate_malformed c Hm) as [e ->]. eauto.
    + assert (Hv : _validate_entity c
                   = Returns (spec_valid c, if spec_valid c then spec_coerce c else c)).
      { destruct (spec_valid c) eqn:Hs.
        - destruct c; try discriminate. rewrite validate_dict. by rewrite Hs.
        - by apply validate_not_object. }
      rewrite Hv. unfold accepted. simpl. destruct (spec_valid c) eqn:Hs.
      * rewrite enrich_spec by done. simpl.
        destruct (IH (acc ++ [spec_enrich pid at_ text (spec_coerce c)])%list) as [IH1 IH2].
        split; [exact IH1|]. intros He. rewrite IH2 by done.
        unfold accepted. by rewrite <- app_assoc.
      * apply IH.
Qed.

Section Gates.
Variable json_loads : string → option pyval.
End Gates.


End KnowledgeGraphProps.

Module TextProps.
Import TextProcessing.

Lemma In_insert_by_freq x y l : In x (insert_by_freq y l) ↔ x = y ∨ In x l.
Proof.
  induction l as [|z l IH]; simpl; [intuition congruence|].
  destruct (snd z <=? snd y)%nat; simpl; [intuition congruence|].
  rewrite IH. intuition congruence.
Qed.

Lemma In_sorted_by_freq x l : In x (sorted_by_freq l) ↔ In x l.
Proof.
  unfold sorted_by_freq. induction l as [|y l IH]; simpl; [tauto|].
  rewrite In_insert_by_freq, IH. intuition congruence.
Qed.

Lemma text_eqb_eq a b : text_eqb a b = true → a = b.
Proof.
  revert b. induction a as [|x a IH]; intros [|y b]; simpl; try discriminate; auto.
  intros H. apply andb_prop in H as [Hx Ha]. apply Ascii.eqb_eq in Hx.
  f_equal; auto.
Qed.

Lemma count_word_keys word freq item :
  In item (count_word word freq) → fst item = word ∨ ∃ n, In (fst item, n) freq.
Proof.
  induction freq as [|[w n] freq IH]; simpl.
  - intros [<-|[]]. by left.
  - destruct (text_eqb w word) eqn:E; simpl.
    + intros [<-|Hin]; simpl; [right; eauto|]. right. exists (snd item).
      right. by destruct item.
    + intros [<-|Hin]; simpl; [right; eauto|].
      destruct (IH Hin) as [?|[m Hm]]; [by left|right; eauto].
Qed.

Lemma word_frequencies_keys min_len words acc item :
  (∀ it, In it acc → (min_len <= length (fst it))%nat) →
  In item (fold_left (λ word_freq word,
               if negb (is_stop_word word) && (min_len <=? length word)%nat
               then count_word word word_freq else word_freq) words acc) →
  (min_len <= length (fst item))%nat.
Proof.
  revert acc. induction words as [|w words IH]; intros acc Hacc; simpl; [auto|].
  apply IH. intros it Hit.
  destruct (negb (is_stop_word w) && (min_len <=? length w)%nat) eqn:E; [|auto].
  apply andb_prop in E as [_ E]. apply Nat.leb_le in E.
  apply count_word_keys in Hit as [->|[n Hn]]; [done|].
  apply (Hacc _ Hn).
Qed.

Lemma In_firstn_text {A} (x : A) n (l : list A) : In x (firstn n l) → In x l.
Proof.
  revert l. induction n as [|n IH]; intros [|y l]; simpl; try tauto.
  intros [->|Hx]; [by left|right; by apply IH].
Qed.

Lemma keywords_min_length min_len t n w :
  In w (keywords_with min_len t n) → (min_len <= length w)%nat.
Proof.
  unfold keywords_with. destruct (nonempty t); [|intros []].
  intros Hin. apply in_map_iff in Hin as (item & <- & Hin).
  apply filter_In in Hin as [Hin _]. apply In_firstn_text in Hin.
  rewrite In_sorted_by_freq in Hin.
  eapply word_frequencies_keys; [|exact Hin]. intros it [].
Qed.

(** C8 on the text "cat cat dog dog dogs dogs": the words "cat" and
    "dog" are alphabetic, are no stop words, have length 3 and occur
    twice, yet only "dogs" is returned; with the length bound the
    tokenizer uses (3) all three would be.  In general no returned keyword
    has fewer than four characters: the filter tests [len(word) > 3]. *)
Lemma three_letter_keywords_dropped :
  extract_keywords cat_dog_text 20 = [str "dogs"]
  ∧ spec_extract_keywords cat_dog_text 20 = [str "cat"; str "dog"; str "dogs"]
  ∧ ∀ t n w, In w (extract_keywords t n) → (3 < length w)%nat.
Proof.
  split; [vm_compute; reflexivity|]. split; [vm_compute; reflexivity|].
  intros t n w Hw. apply keywords_min_length in Hw. lia.
Qed.

Lemma next_start_advances t cs ov start : start < next_start t cs ov start.
Proof. unfold next_start. lia. Qed.

Lemma simple_chunk_loop_terminates t cs ov fuel start idx chunks :
  Z.max 0 (len t - start) < Z.of_nat fuel →
  ∃ result, simple_chunk_loop fuel t cs ov start idx chunks = Some result.
Proof.
  revert start idx chunks. induction fuel as [|fuel IH]; intros start idx chunks Hfuel.
  - lia.
  - simpl. destruct (Z.ltb_spec start (len t)) as [Hlt|Hge]; [|eauto].
    apply IH. pose proof (next_start_advances t cs ov start). lia.
Qed.

Lemma simple_chunk_loop_fuel t cs ov fuel fuel' start idx chunks result :
  simple_chunk_loop fuel t cs ov start idx chunks = Some result →
  (fuel <= fuel')%nat →
  simple_chunk_loop fuel' t cs ov start idx chunks = Some result.
Proof.
  revert fuel' start idx chunks.
  induction fuel as [|fuel IH]; intros fuel' start idx chunks Hrun Hle; [discriminate|].
  destruct fuel' as [|fuel']; [lia|]. simpl in *.
  destruct (start <? len t); [|exact Hrun].
  apply IH; [exact Hrun|lia].
Qed.

Lemma look_back_exits t start fuel stop :
  stop - start <= Z.of_nat fuel →
  let r := look_back fuel t start stop in
  (start <? r) && negb (Ascii.eqb (char_at t r) " ") = false.
Proof.
  revert stop. induction fuel as [|fuel IH]; intros stop Hfuel; simpl.
  - destruct (Z.ltb_spec start stop); [lia|reflexivity].
  - destruct ((start <? stop) && negb (Ascii.eqb (char_at t stop) " ")) eqn:E.
    + apply IH. lia.
    + exact E.
Qed.

(** C10. Termination of the fallback chunker.  For every text and every
    chunk size and overlap (so in particular for [chunk_size >= 1] and
    [overlap >= 0], also with [overlap >= chunk_size]): each iteration
    moves [start] strictly forward, the inner look-back loop reaches its
    exit within [end - start] steps, and the chunking loop returns a list
    of chunks within one iteration per character of the text plus one;
    more fuel gives the same list. *)
Theorem simple_chunk_text_total (t : text) (chunk_size overlap : Z) :
  (∀ start, start < next_start t chunk_size overlap start)
  ∧ (∀ start stop,
       let r := look_back (Z.to_nat (stop - start)) t start stop in
       (start <? r) && negb (Ascii.eqb (char_at t r) " ") = false)
  ∧ ∃ chunks,
      simple_chunk_text t chunk_size overlap = Some chunks
      ∧ ∀ fuel, (length t < fuel)%nat →
                simple_chunk_loop fuel t chunk_size overlap 0 0 [] = Some chunks.
Proof.
  split; [apply next_start_advances|]. split.
  - intros start stop. apply look_back_exits. lia.
  - destruct (simple_chunk_loop_terminates t chunk_size overlap (S (length t)) 0 0 [])
      as [chunks Hrun]; [unfold len; lia|].
    exists chunks. split; [exact Hrun|].
    intros fuel Hfuel. eapply simple_chunk_loop_fuel; [exact Hrun|lia].
Qed.

Lemma short_chunks :
  chunk_text_intelligently text_short 1000 200
  = [ make_chunk 0 (chars "a" 100) "paragraph_boundary";
      make_chunk 1 (chars "b" 950) "final" ].
Proof. vm_compute. reflexivity. Qed.

Lemma shift_chunks :
  chunk_text_intelligently text_shift 1000 200
  = [ make_chunk 0 (chars "a" 800 ++ str " " ++ chars "b" 199) "paragraph_boundary";
      make_chunk 1 (str " " ++ chars "b" 199 ++ blank_line ++ chars "c" 10) "final" ].
Proof. vm_compute. reflexivity. Qed.

Lemma sentence_chunks :
  chunk_text_intelligently text_sentences 1000 200
  = [ make_chunk 0 (chars "a" 600) "sentence_boundary";
      make_chunk 1 (chars "a" 200 ++ str " " ++ chars "b" 600) "final" ].
Proof. vm_compute. reflexivity. Qed.


Lemma boundary_chunks_app i l1 l2 :
  boundary_chunks i (l1 ++ l2)
  = boundary_chunks i l1 ++ boundary_chunks (i + Z.of_nat (length l1)) l2.
Proof.
  revert i. induction l1 as [|x l1 IH]; intros i; simpl.
  - by rewrite Z.add_0_r.
  - rewrite IH. do 3 f_equal. lia.
Qed.

Lemma linked_nil R : linked R [].
Proof. intros i a b H. discriminate. Qed.

Lemma linked_single R x : linked R [x].
Proof. intros [|i] a b Ha Hb; simpl in *; discriminate. Qed.

Lemma linked_snoc R l x y :
  linked R (l ++ [x]) → R x y → linked R ((l ++ [x]) ++ [y]).
Proof.
  intros Hl Hxy i a b Ha Hb.
  destruct (decide (S i < length (l ++ [x]))%nat) as [Hlt|Hge].
  - rewrite lookup_app_l in Ha by lia. rewrite lookup_app_l in Hb by lia. eauto.
  - assert (Hi : i = length l).
    { apply lookup_lt_Some in Hb. rewrite !length_app in *. simpl in *. lia. }
    subst i. rewrite lookup_app_l in Ha by (rewrite length_app; simpl; lia).
    rewrite lookup_app_r in Ha by lia. rewrite Nat.sub_diag in Ha. simpl in Ha.
    rewrite lookup_app_r in Hb by (rewrite length_app; simpl; lia).
    rewrite length_app in Hb. simpl in Hb.
    replace (S (length l) - (length l + 1))%nat with 0%nat in Hb by lia.
    simpl in Hb. congruence.
Qed.

(** [follows] is kept when the later text grows at its end. *)
Lemma follows_grow ps ov a b more : follows ps ov a b → follows ps ov a (b ++ more).
Proof.
  unfold follows. destruct ((0 <? ov) && (ov <? len a)).
  - intros [rest ->]. exists (rest ++ more). by rewrite <- !app_assoc.
  - intros (p & rest & Hp & ->). exists p, (rest ++ more). by rewrite <- app_assoc.
Qed.

Lemma follows_carry ps ov a p :
  In p ps → follows ps ov a (carry_overlap ov a blank_line (strip p)).
Proof.
  intros Hp. unfold follows, carry_overlap.
  destruct ((0 <? ov) && (ov <? len a)).
  - by exists (strip p).
  - exists p, []. by rewrite app_nil_r.
Qed.

Lemma nonempty_app_l (a b : text) : nonempty a = true → nonempty (a ++ b) = true.
Proof. by destruct a. Qed.

Lemma nonempty_app_r (a b : text) : nonempty b = true → nonempty (a ++ b) = true.
Proof. destruct a, b; done. Qed.

Lemma nonempty_carry ov a sep p : nonempty p = true → nonempty (carry_overlap ov a sep p) = true.
Proof.
  intros Hp. unfold carry_overlap. destruct ((0 <? ov) && (ov <? len a)); [|done].
  by do 2 apply nonempty_app_r.
Qed.

Lemma linked_last_grow R l x more :
  (∀ a, R a x → R a (x ++ more)) →
  linked R (l ++ [x]) → linked R (l ++ [x ++ more]).
Proof.
  intros Hgrow Hl i a b Ha Hb.
  assert (Hlen : (S i < length l + 1)%nat).
  { apply lookup_lt_Some in Hb. rewrite length_app in Hb. simpl in Hb. lia. }
  assert (Ha' : (l ++ [x]) !! i = Some a).
  { rewrite lookup_app_l in Ha by lia. rewrite lookup_app_l by lia. done. }
  destruct (decide (S i < length l)%nat).
  - rewrite lookup_app_l in Hb by lia.
    apply (Hl i a b Ha'). by rewrite lookup_app_l by lia.
  - assert (S i = length l) as Hi by lia.
    rewrite lookup_app_r in Hb by lia. rewrite Hi, Nat.sub_diag in Hb. simpl in Hb.
    injection Hb as <-. apply Hgrow. apply (Hl i a x Ha').
    rewrite lookup_app_r by lia. by rewrite Hi, Nat.sub_diag.
Qed.

Lemma paragraph_step_inv ps cs ov st raws p :
  In p ps → len (strip p) <= cs →
  inv ps ov st raws →
  ∃ raws', inv ps ov (paragraph_step cs ov st p) raws'.
Proof.
  intros Hp Hfit (Hchunks & Hidx & Hcur).
  unfold paragraph_step.
  destruct (nonempty (strip p)) eqn:Hne; simpl; [|exists raws; by repeat split].
  destruct (Z.ltb_spec cs (len (strip p))) as [|_]; [lia|].
  destruct (cs <? current_size st + len (strip p)).
  - destruct (nonempty (current_chunk st)) eqn:Hc.
    + exists (raws ++ [current_chunk st]). repeat split; simpl.
      * rewrite boundary_chunks_app, Hchunks. simpl. by rewrite Hidx.
      * rewrite length_app. simpl. lia.
      * destruct raws as [|r raws]; simpl.
        -- split; [by apply nonempty_carry|].
           intros [|i] a b Ha Hb; simpl in *; [|discriminate].
           injection Ha as <-. injection Hb as <-. by apply follows_carry.
        -- destruct Hcur as [_ Hl]. split; [by apply nonempty_carry|].
           exact (linked_snoc _ (r :: raws) _ _ Hl (follows_carry ps ov _ p Hp)).
    + exists raws. repeat split; simpl; try done.
      destruct raws as [|r raws]; [|destruct Hcur; congruence].
      intros _. exists p, []. split; [done|]. by rewrite app_nil_r.
  - exists raws. repeat split; simpl; try done.
    destruct raws as [|r raws].
    + intros _. destruct (nonempty (current_chunk st)) eqn:Hc.
      * destruct (Hcur eq_refl) as (p0 & rest & Hp0 & ->).
        exists p0, (rest ++ blank_line ++ strip p). split; [done|]. by rewrite <- app_assoc.
      * exists p, []. split; [done|]. by rewrite app_nil_r.
    + destruct Hcur as [Hc Hl]. rewrite Hc. split; [by apply nonempty_app_l|].
      apply linked_last_grow; [|exact Hl]. intros a. apply follows_grow.
Qed.

Lemma paragraph_loop_inv all cs ov ps st raws :
  (∀ p, In p ps → In p all) → fits cs ps = true →
  inv all ov st raws →
  ∃ raws', inv all ov (fold_left (paragraph_step cs ov) ps st) raws'.
Proof.
  revert st raws. induction ps as [|p ps IH]; intros st raws Hsub Hfit Hinv; simpl.
  - eauto.
  - simpl in Hfit. apply andb_prop in Hfit as [Hp Hfit]. apply Z.leb_le in Hp.
    destruct (paragraph_step_inv all cs ov st raws p) as [raws' Hinv']; auto.
    { apply Hsub. by left. }
    eapply IH; eauto. intros q Hq. apply Hsub. by right.
Qed.

Lemma first_chars_of_carry ov (a rest : text) :
  0 < ov < len a → first_chars ov (last_chars ov a ++ rest) = last_chars ov a.
Proof.
  intros Hov. unfold first_chars, last_chars, slice, slice_from, slice_bound, len in *.
  destruct (Z.ltb_spec (- ov) 0) as [_|]; [|lia].
  destruct (Z.ltb_spec ov 0) as [|_]; [lia|].
  destruct (Z.ltb_spec 0 0) as [|_]; [lia|].
  set (tail := skipn _ a).
  assert (Hlen : length tail = Z.to_nat ov).
  { subst tail. rewrite length_skipn. lia. }
  rewrite length_app.
  replace (Z.to_nat (Z.min 0 _)) with 0%nat by lia.
  replace (Z.to_nat (Z.min ov _) - 0)%nat with (length tail) by lia.
  change (drop 0 (tail ++ rest)) with (tail ++ rest).
  by rewrite take_app_length.
Qed.



End TextProps.

Module AgentProps.
Import Py Agent.

(** *** Statements and what they keep *)
Lemma preserves_ret P {A} (a : A) : preserves P (ret a).
Proof. by intros s. Qed.

Lemma preserves_raise P {A} e : preserves P (raise (A := A) e).
Proof. by intros s. Qed.

Lemma preserves_lift P {A} (o : outcome A) : preserves P (lift o).
Proof. by intros s. Qed.

Lemma preserves_get_item P k : preserves P (get_item k).
Proof. intros s Hs. unfold get_item. by destruct (s !! k). Qed.

Lemma preserves_get_or P k d : preserves P (get_or k d).
Proof. by intros s. Qed.

Lemma preserves_bind P {A B} (m : M A) (k : A → M B) :
  preserves P m → (∀ a, preserves P (k a)) → preserves P (bind m k).
Proof.
  intros Hm Hk s Hs. unfold bind. specialize (Hm s Hs).
  destruct (m s) as [s' [a|e]]; simpl in *; [by apply Hk|done].
Qed.

Lemma preserves_try_except P {A} (body : M A) handler :
  preserves P body → (∀ e, preserves P (handler e)) →
  preserves P (try_except body handler).
Proof.
  intros Hb Hh s Hs. unfold try_except. specialize (Hb s Hs).
  destruct (body s) as [s' [a|e]]; simpl in *; [done|by apply Hh].
Qed.

Lemma preserves_set_item P k v :
  (∀ s, P s → P (<[k := v]> s)) → preserves P (set_item k v).
Proof. intros H s Hs. by apply H. Qed.

Lemma preserves_append_item P k v :
  (∀ s l, P s → s !! k = Some (VList l) → P (<[k := VList (l ++ [v])]> s)) →
  preserves P (append_item k v).
Proof.
  intros H s Hs. unfold append_item, bind, get_item.
  destruct (s !! k) as [[]|] eqn:Hk; simpl; try done. by apply H.
Qed.

Lemma preserves_update_item P k d :
  (∀ s old, P s → s !! k = Some (VDict old) → P (<[k := VDict (d ∪ old)]> s)) →
  preserves P (update_item k d).
Proof.
  intros H s Hs. unfold update_item, bind, get_item.
  destruct (s !! k) as [[]|] eqn:Hk; simpl; try done. by apply H.
Qed.

(** *** The shape of the state *)
Lemma shape_set s k v :
  k ≠ "errors" → k ≠ "warnings" → k ≠ "messages" → k ≠ "generation_metadata" →
  shape s → shape (<[k := v]> s).
Proof.
  intros H1 H2 H3 H4 (He & Hw & Hm & Hd).
  repeat split; by rewrite lookup_insert_ne.
Qed.

Lemma shape_append_errors s l v :
  shape s → shape (<["errors" := VList (l ++ [v])]> s).
Proof.
  intros (He & Hw & Hm & Hd). repeat split.
  - rewrite lookup_insert_eq. eauto.
  - by rewrite lookup_insert_ne.
  - by rewrite lookup_insert_ne.
  - by rewrite lookup_insert_ne.
Qed.

Lemma shape_append_warnings s l v :
  shape s → shape (<["warnings" := VList (l ++ [v])]> s).
Proof.
  intros (He & Hw & Hm & Hd). repeat split.
  - by rewrite lookup_insert_ne.
  - rewrite lookup_insert_eq. eauto.
  - by rewrite lookup_insert_ne.
  - by rewrite lookup_insert_ne.
Qed.

Lemma is_message_AIMessage c : is_message (AIMessage c).
Proof. exists (VStr c). reflexivity. Qed.

Lemma is_message_HumanMessage c : is_message (HumanMessage c).
Proof. exists (VStr c). reflexivity. Qed.

Lemma shape_append_message s l c :
  shape s → s !! "messages" = Some (VList l) →
  shape (<["messages" := VList (l ++ [AIMessage c])]> s).
Proof.
  intros (He & Hw & (l' & Hm & Hall) & Hd) Hl. repeat split.
  - by rewrite lookup_insert_ne.
  - by rewrite lookup_insert_ne.
  - rewrite lookup_insert_eq. eexists. split; [reflexivity|].
    assert (l' = l) as -> by congruence.
    apply Forall_app. split; [done|].
    constructor; [apply is_message_AIMessage|constructor].
  - by rewrite lookup_insert_ne.
Qed.

Lemma shape_update_metadata s d old :
  shape s → shape (<["generation_metadata" := VDict (d ∪ old)]> s).
Proof.
  intros (He & Hw & Hm & Hd). repeat split.
  - by rewrite lookup_insert_ne.
  - by rewrite lookup_insert_ne.
  - by rewrite lookup_insert_ne.
  - rewrite lookup_insert_eq. eauto.
Qed.

(** *** The error log only grows *)
Lemma logged_set x s k v : k ≠ "errors" → logged x s → logged x (<[k := v]> s).
Proof. intros Hk. unfold logged, errors_of. by rewrite lookup_insert_ne. Qed.

Lemma logged_append x s l v :
  s !! "errors" = Some (VList l) → logged x s →
  logged x (<["errors" := VList (l ++ [v])]> s).
Proof.
  unfold logged, errors_of. intros ->. rewrite lookup_insert_eq.
  intros Hin. apply elem_of_app. by left.
Qed.

Lemma logged_new s l v : logged v (<["errors" := VList (l ++ [v])]> s).
Proof.
  unfold logged, errors_of. rewrite lookup_insert_eq.
  apply elem_of_app. right. constructor.
Qed.

(** *** The stories are written by one stage only *)
Lemma stories_set g s k v :
  k ≠ "generated_stories" → stories_are g s → stories_are g (<[k := v]> s).
Proof. intros Hk. unfold stories_are. by rewrite lookup_insert_ne. Qed.

Ltac leaf_shape :=
  intros;
  first [ apply shape_set; [done|done|done|done|assumption]
        | by apply shape_append_errors
        | by apply shape_append_warnings
        | by apply shape_append_message
        | by apply shape_update_metadata ].

Ltac leaf_logged :=
  intros; first [ by apply logged_append | by apply logged_set ].

Ltac leaf_stories := intros; by apply stories_set.

(** Walk a body statement by statement. *)
Ltac solve_preserves leaf :=
  repeat lazymatch goal with
  | |- preserves _ (ret _) => apply preserves_ret
  | |- preserves _ (raise _) => apply preserves_raise
  | |- preserves _ (lift _) => apply preserves_lift
  | |- preserves _ (get_item _) => apply preserves_get_item
  | |- preserves _ (get_or _ _) => apply preserves_get_or
  | |- preserves _ (set_item _ _) => apply preserves_set_item; leaf
  | |- preserves _ (append_item _ _) => apply preserves_append_item; leaf
  | |- preserves _ (update_item _ _) => apply preserves_update_item; leaf
  | |- preserves _ (bind _ _) => apply preserves_bind; [|intros ?]
  | |- preserves _ (try_except _ _) => apply preserves_try_except; [|intros ?]
  | |- preserves _ (match ?x with _ => _ end) => destruct x
  | |- preserves _ (let _ := _ in _) => cbv zeta
  end.

(** *** Running a statement *)
Lemma run_fst (m : M unit) s s' : run m s = Returns s' → s' = fst (m s).
Proof. unfold run. destruct (m s) as [s1 [a|e]]; simpl; congruence. Qed.

Lemma bind_returns {A B} (m : M A) (k : A → M B) s s' b :
  bind m k s = (s', Returns b) →
  ∃ a s1, m s = (s1, Returns a) ∧ k a s1 = (s', Returns b).
Proof.
  unfold bind. destruct (m s) as [s1 [a|e]]; [|discriminate]. eauto.
Qed.

Lemma set_item_returns k v s s' u :
  set_item k v s = (s', Returns u) → s' = <[k := v]> s.
Proof. unfold set_item. congruence. Qed.

Lemma get_item_returns k s s' v :
  get_item k s = (s', Returns v) → s' = s ∧ s !! k = Some v.
Proof. unfold get_item. destruct (s !! k); inversion 1; auto. Qed.

Lemma lift_returns {A} (o : outcome A) s s' a :
  lift o s = (s', Returns a) → s' = s ∧ o = Returns a.
Proof. unfold lift. inversion 1; auto. Qed.

Lemma append_errors_runs s v {A} (rest : M A) :
  shape s →
  ∃ l, s !! "errors" = Some (VList l)
       ∧ (append_item "errors" v >> rest) s
         = rest (<["errors" := VList (l ++ [v])]> s).
Proof.
  intros ((l & He) & _). exists l. split; [done|].
  unfold append_item, bind, get_item. rewrite He. reflexivity.
Qed.

(** *** A stage: [try] body, handler, then the step marker *)
Section Node.
Context {A : Type} (body : M A) (handler : string → M A) (prefix : string).
Hypothesis body_shape : preserves shape body.
Hypothesis handler_runs : ∀ e s, shape s →
  ∃ a, snd (handler e s) = Returns a
       ∧ shape (fst (handler e s))
       ∧ logged (VStr (prefix +:+ e)) (fst (handler e s)).

Lemma guarded_returns s :
  shape s →
  ∃ a, snd (try_except body handler s) = Returns a
       ∧ shape (fst (try_except body handler s))
       ∧ ∀ v, v ∈ error_of prefix (raised body s) →
              logged v (fst (try_except body handler s)).
Proof.
  intros Hs. unfold try_except, raised. pose proof (body_shape s Hs) as Hb.
  destruct (body s) as [s1 [a|e]]; simpl in *.
  - exists a. split; [done|]. split; [done|]. intros v Hv. by apply elem_of_nil in Hv.
  - destruct (handler_runs e s1 Hb) as (a & Ha & Hsh & Hlog).
    exists a. split; [done|]. split; [done|].
    intros v Hv. apply list_elem_of_singleton in Hv. by subst v.
Qed.
End Node.

Lemma node_returns (body : M unit) handler prefix name s :
  preserves shape body →
  (∀ e s, shape s →
     ∃ a, snd (handler e s) = Returns a
          ∧ shape (fst (handler e s))
          ∧ logged (VStr (prefix +:+ e)) (fst (handler e s))) →
  shape s →
  ∃ s', run (try_except body handler >> set_item "current_step" (VStr name)) s
        = Returns s'
        ∧ shape s'
        ∧ s' !! "current_step" = Some (VStr name)
        ∧ ∀ v, v ∈ error_of prefix (raised body s) → logged v s'.
Proof.
  intros Hb Hh Hs.
  destruct (guarded_returns body handler prefix Hb Hh s Hs) as (a & Ha & Hsh & Hlog).
  unfold run, bind. destruct (try_except body handler s) as [s1 o]; simpl in *.
  subst o. simpl. eexists. split; [reflexivity|]. split; [|split].
  - by apply shape_set.
  - by rewrite lookup_insert_eq.
  - intros v Hv. apply logged_set; [done|]. by apply Hlog.
Qed.

Lemma node_keeps P (body : M unit) handler name s s' :
  preserves P body → (∀ e, preserves P (handler e)) →
  (∀ s v, P s → P (<["current_step" := v]> s)) →
  P s →
  run (try_except body handler >> set_item "current_step" (VStr name)) s = Returns s' →
  P s'.
Proof.
  intros Hb Hh Hset Hs Hrun. apply run_fst in Hrun. subst s'.
  assert (preserves P (try_except body handler >> set_item "current_step" (VStr name)))
    as Hp.
  { apply preserves_bind; [by apply preserves_try_except|].
    intros _. apply preserves_set_item. intros; by apply Hset. }
  by apply Hp.
Qed.

Lemma logged_step x s v : logged x s → logged x (<["current_step" := v]> s).
Proof. by apply logged_set. Qed.

Lemma stories_step g s v : stories_are g s → stories_are g (<["current_step" := v]> s).
Proof. by apply stories_set. Qed.

(** *** The handlers *)
Lemma analyze_handler_runs e s :
  shape s →
  ∃ a, snd (analyze_handler e s) = Returns a
       ∧ shape (fst (analyze_handler e s))
       ∧ logged (VStr ("Requirements analysis failed: " +:+ e)) (fst (analyze_handler e s)).
Proof.
  intros Hs. unfold analyze_handler.
  destruct (append_errors_runs s (VStr ("Requirements analysis failed: " +:+ e))
              (set_item "analysis_complete" (VBool false)) Hs) as (l & He & ->).
  exists tt. simpl. split; [done|]. split.
  - apply shape_set; try done. by apply shape_append_errors.
  - apply logged_set; [done|]. apply logged_new.
Qed.

Lemma retrieve_handler_runs e s :
  shape s →
  ∃ a, snd (retrieve_handler e s) = Returns a
       ∧ shape (fst (retrieve_handler e s))
       ∧ logged (VStr ("Context retrieval failed: " +:+ e)) (fst (retrieve_handler e s)).
Proof.
  intros Hs. unfold retrieve_handler.
  destruct (append_errors_runs s (VStr ("Context retrieval failed: " +:+ e))
              (set_item "context_retrieved" (VBool false) >>
               set_item "retrieved_context" (VList [])) Hs) as (l & He & ->).
  exists tt. simpl. split; [done|]. split.
  - do 2 (apply shape_set; try done). by apply shape_append_errors.
  - do 2 (apply logged_set; [done|]). apply logged_new.
Qed.

Lemma extract_handler_runs e s :
  shape s →
  ∃ a, snd (extract_handler e s) = Returns a
       ∧ shape (fst (extract_handler e s))
       ∧ logged (VStr ("Knowledge graph entity extraction failed: " +:+ e))
           (fst (extract_handler e s)).
Proof.
  intros Hs. unfold extract_handler.
  destruct (append_errors_runs s
              (VStr ("Knowledge graph entity extraction failed: " +:+ e))
              (set_item "knowledge_graph_entities" (VList [])) Hs) as (l & He & ->).
  exists tt. simpl. split; [done|]. split.
  - apply shape_set; try done. by apply shape_append_errors.
  - apply logged_set; [done|]. apply logged_new.
Qed.

Lemma generate_handler_runs e s :
  shape s →
  ∃ a, snd (generate_handler e s) = Returns a
       ∧ shape (fst (generate_handler e s))
       ∧ logged (VStr ("Story generation failed: " +:+ e)) (fst (generate_handler e s)).
Proof.
  intros Hs. unfold generate_handler.
  destruct (append_errors_runs s (VStr ("Story generation failed: " +:+ e))
              (set_item "generated_stories" (VList []) >>
               set_item "stories_generated" (VBool false)) Hs) as (l & He & ->).
  exists tt. simpl. split; [done|]. split.
  - do 2 (apply shape_set; try done). by apply shape_append_errors.
  - do 2 (apply logged_set; [done|]). apply logged_new.
Qed.

Lemma generate_handler_stories e s :
  shape s → stories_are (VList []) (fst (generate_handler e s)).
Proof.
  intros Hs. unfold generate_handler.
  destruct (append_errors_runs s (VStr ("Story generation failed: " +:+ e))
              (set_item "generated_stories" (VList []) >>
               set_item "stories_generated" (VBool false)) Hs) as (l & He & ->).
  simpl. unfold stories_are. rewrite lookup_insert_ne; [|done].
  by rewrite lookup_insert_eq.
Qed.

Lemma quality_handler_runs e s :
  shape s →
  ∃ a, snd (quality_handler e s) = Returns a
       ∧ shape (fst (quality_handler e s))
       ∧ logged (VStr ("Quality check failed: " +:+ e)) (fst (quality_handler e s)).
Proof.
  intros Hs. unfold quality_handler.
  destruct (append_errors_runs s (VStr ("Quality check failed: " +:+ e))
              (set_item "quality_scores" (VDict ∅) >>
               set_item "quality_checked" (VBool false) >> ret false) Hs)
    as (l & He & ->).
  exists false. simpl. split; [done|]. split.
  - do 2 (apply shape_set; try done). by apply shape_append_errors.
  - do 2 (apply logged_set; [done|]). apply logged_new.
Qed.

Lemma finalize_handler_runs e s :
  shape s →
  ∃ a, snd (finalize_handler e s) = Returns a
       ∧ shape (fst (finalize_handler e s))
       ∧ logged (VStr ("Result finalization failed: " +:+ e)) (fst (finalize_handler e s)).
Proof.
  intros ((l & He) & Hw & Hm & Hd). unfold finalize_handler, append_item, bind, get_item.
  rewrite He. simpl. exists tt. split; [done|]. split.
  - apply shape_append_errors. repeat split; eauto.
  - apply logged_new.
Qed.

(** *** The bodies and handlers keep the shape, the log and,
    outside stage 4, the stories *)
Section Stages.
Variable sv : Services.
Variable completion_time : string.

Lemma analyze_body_shape : preserves shape (analyze_body sv).
Proof. unfold analyze_body. solve_preserves leaf_shape. Qed.

Lemma retrieve_body_shape : preserves shape (retrieve_body sv).
Proof. unfold retrieve_body. solve_preserves leaf_shape. Qed.

Lemma extract_body_shape : preserves shape (extract_body sv).
Proof. unfold extract_body. solve_preserves leaf_shape. Qed.

Lemma generate_body_shape : preserves shape (generate_body sv).
Proof. unfold generate_body, combined_context. solve_preserves leaf_shape. Qed.

Lemma quality_body_shape : preserves shape (quality_body sv).
Proof. unfold quality_body. solve_preserves leaf_shape. Qed.

Lemma finalize_body_shape : preserves shape (finalize_body sv completion_time).
Proof. unfold finalize_body. solve_preserves leaf_shape. Qed.

Lemma analyze_body_logged x : preserves (logged x) (analyze_body sv).
Proof. unfold analyze_body. solve_preserves leaf_logged. Qed.

Lemma retrieve_body_logged x : preserves (logged x) (retrieve_body sv).
Proof. unfold retrieve_body. solve_preserves leaf_logged. Qed.

Lemma extract_body_logged x : preserves (logged x) (extract_body sv).
Proof. unfold extract_body. solve_preserves leaf_logged. Qed.

Lemma generate_body_logged x : preserves (logged x) (generate_body sv).
Proof. unfold generate_body, combined_context. solve_preserves leaf_logged. Qed.

Lemma quality_body_logged x : preserves (logged x) (quality_body sv).
Proof. unfold quality_body. solve_preserves leaf_logged. Qed.

Lemma finalize_body_logged x : preserves (logged x) (finalize_body sv completion_time).
Proof. unfold finalize_body. solve_preserves leaf_logged. Qed.

Lemma analyze_handler_logged x e : preserves (logged x) (analyze_handler e).
Proof. unfold analyze_handler. solve_preserves leaf_logged. Qed.

Lemma retrieve_handler_logged x e : preserves (logged x) (retrieve_handler e).
Proof. unfold retrieve_handler. solve_preserves leaf_logged. Qed.

Lemma extract_handler_logged x e : preserves (logged x) (extract_handler e).
Proof. unfold extract_handler. solve_preserves leaf_logged. Qed.

Lemma generate_handler_logged x e : preserves (logged x) (generate_handler e).
Proof. unfold generate_handler. solve_preserves leaf_logged. Qed.

Lemma quality_handler_logged x e : preserves (logged x) (quality_handler e).
Proof. unfold quality_handler. solve_preserves leaf_logged. Qed.

Lemma finalize_handler_logged x e : preserves (logged x) (finalize_handler e).
Proof. unfold finalize_handler. solve_preserves leaf_logged. Qed.

Lemma quality_body_stories g : preserves (stories_are g) (quality_body sv).
Proof. unfold quality_body. solve_preserves leaf_stories. Qed.

Lemma quality_handler_stories g e : preserves (stories_are g) (quality_handler e).
Proof. unfold quality_handler. solve_preserves leaf_stories. Qed.

Lemma finalize_body_stories g : preserves (stories_are g) (finalize_body sv completion_time).
Proof. unfold finalize_body. solve_preserves leaf_stories. Qed.

Lemma finalize_handler_stories g e : preserves (stories_are g) (finalize_handler e).
Proof. unfold finalize_handler. solve_preserves leaf_stories. Qed.

End Stages.

(** *** Stage 4 leaves a list of stories *)
Lemma stories_ok_step s v : stories_ok s → stories_ok (<["current_step" := v]> s).
Proof.
  intros (g & n & Hg & Hn). exists g, n. split; [|done].
  by rewrite lookup_insert_ne.
Qed.

Lemma stories_are_ok g n s : py_len g = Returns n → stories_are g s → stories_ok s.
Proof. intros Hn Hg. by exists g, n. Qed.

Ltac peel H :=
  let a := fresh "a" in
  let s1 := fresh "s" in
  let Hm := fresh "Hm" in
  let Hs := fresh "Hs" in
  apply bind_returns in H as (a & s1 & Hm & H); cbv beta in H;
  lazymatch type of Hm with
  | set_item _ _ _ = _ => apply set_item_returns in Hm; subst s1
  | get_item _ _ = _ => apply get_item_returns in Hm as [Hs Hm]; subst s1
  | lift _ _ = _ => apply lift_returns in Hm as [Hs Hm]; subst s1
  | _ => idtac
  end.

Ltac keep_stories H Hk :=
  match type of H with
  | ?m ?s = _ =>
      match type of Hk with
      | stories_are ?g s =>
          let Hp := fresh "Hp" in
          assert (preserves (stories_are g) m) as Hp
            by solve_preserves leaf_stories;
          specialize (Hp s Hk); rewrite H in Hp; simpl in Hp
      end
  end.

Section Generate.
Variable sv : Services.

Lemma generate_body_stories s s' u :
  generate_body sv s = (s', Returns u) → stories_ok s'.
Proof.
  unfold generate_body. intros H. do 10 peel H.
  destruct (_ && _).
  - do 6 peel H.
    match goal with
    | Hg : ?s0 !! "generated_stories" = Some ?g, Hn : py_len ?g = Returns ?n |- _ =>
        change (stories_are g s0) in Hg; keep_stories H Hg;
        by apply (stories_are_ok g n)
    end.
  - peel H.
    match type of H with
    | _ ?s0 = _ =>
        assert (stories_are (VList []) s0) as Hk
          by (unfold stories_are; by rewrite lookup_insert_eq);
        keep_stories H Hk
    end.
    by apply (stories_are_ok (VList []) 0).
Qed.

Lemma generate_stage s :
  shape s →
  ∃ s', _generate_stories sv s = Returns s'
        ∧ shape s'
        ∧ s' !! "current_step" = Some (VStr "generate_stories")
        ∧ (∀ v, v ∈ error_of "Story generation failed: " (raised (generate_body sv) s) →
                logged v s')
        ∧ stories_ok s'
        ∧ (raised (generate_body sv) s ≠ None → stories_are (VList []) s').
Proof.
  intros Hs.
  destruct (node_returns (generate_body sv) generate_handler
              "Story generation failed: " "generate_stories" s
              (generate_body_shape sv) generate_handler_runs Hs)
    as (s' & Hrun & Hsh & Hstep & Hlog).
  exists s'. split; [exact Hrun|]. split; [exact Hsh|]. split; [exact Hstep|].
  split; [exact Hlog|].
  apply run_fst in Hrun. unfold bind, try_except, raised in *.
  pose proof (generate_body_shape sv s Hs) as Hb.
  destruct (generate_body sv s) as [s1 [u|e]] eqn:Hbody; simpl in *.
  - split; [|done]. subst s'. apply stories_ok_step. by eapply generate_body_stories.
  - pose proof (generate_handler_stories e s1 Hb) as Hg.
    destruct (generate_handler_runs e s1 Hb) as (a & Ha & _).
    destruct (generate_handler e s1) as [s2 o]; simpl in *. subst o s'. simpl.
    split; [|intros _; by apply stories_step].
    apply stories_ok_step. by apply (stories_are_ok (VList []) 0).
Qed.
End Generate.

(** *** Stage 5, with its early return *)
Section Quality.
Variable sv : Services.

Lemma quality_stage s :
  shape s →
  ∃ s', _quality_check sv s = Returns s'
        ∧ shape s'
        ∧ ∀ v, v ∈ error_of "Quality check failed: " (raised (quality_body sv) s) →
               logged v s'.
Proof.
  intros Hs.
  destruct (guarded_returns (quality_body sv) quality_handler "Quality check failed: "
              (quality_body_shape sv) quality_handler_runs s Hs)
    as (returned & Hret & Hsh & Hlog).
  unfold _quality_check, run, bind.
  destruct (try_except (quality_body sv) quality_handler s) as [s1 o]; simpl in *.
  subst o. destruct returned; simpl.
  - exists s1. split; [reflexivity|]. split; [exact Hsh|exact Hlog].
  - eexists. split; [reflexivity|]. split; [by apply shape_set|].
    intros v Hv. apply logged_step. by apply Hlog.
Qed.

Lemma quality_keeps P s s' :
  preserves P (quality_body sv) → (∀ e, preserves P (quality_handler e)) →
  (∀ s v, P s → P (<["current_step" := v]> s)) →
  P s → _quality_check sv s = Returns s' → P s'.
Proof.
  intros Hb Hh Hset Hs Hrun. apply run_fst in Hrun. subst s'.
  assert (preserves P (let* returned := try_except (quality_body sv) quality_handler in
                       if returned then ret tt
                       else set_item "current_step" (VStr "quality_check"))) as Hp.
  { apply preserves_bind; [by apply preserves_try_except|].
    intros [|]; [apply preserves_ret|].
    apply preserves_set_item. intros; by apply Hset. }
  by apply Hp.
Qed.
End Quality.

(** *** The graph runs its six nodes in order *)
Section Graph.
Variable sv : Services.
Variable completion_time : string.

Lemma run_graph_step steps name node next s s' :
  assoc name (nodes sv completion_time) = Some node →
  node s = Returns s' →
  assoc name edges = Some (Node next) →
  run_graph sv completion_time (S steps) name s
  = run_graph sv completion_time steps next s'.
Proof. intros Hn Hs He. cbn [run_graph]. by rewrite Hn, Hs, He. Qed.

Lemma run_graph_end steps name node s s' :
  assoc name (nodes sv completion_time) = Some node →
  node s = Returns s' →
  assoc name edges = Some END →
  run_graph sv completion_time (S steps) name s = Returns s'.
Proof. intros Hn Hs He. cbn [run_graph]. by rewrite Hn, Hs, He. Qed.

Lemma ainvoke_chain s0 s1 s2 s3 s4 s5 s6 :
  _analyze_requirements sv s0 = Returns s1 →
  _retrieve_context sv s1 = Returns s2 →
  _extract_kg_entities sv s2 = Returns s3 →
  _generate_stories sv s3 = Returns s4 →
  _quality_check sv s4 = Returns s5 →
  _finalize_results sv completion_time s5 = Returns s6 →
  ainvoke sv completion_time s0 = Returns s6.
Proof.
  intros H1 H2 H3 H4 H5 H6. unfold ainvoke, recursion_limit, entry_point.
  rewrite (run_graph_step _ "analyze_requirements" _ "retrieve_context" s0 s1 eq_refl H1 eq_refl).
  rewrite (run_graph_step _ "retrieve_context" _ "extract_kg_entities" s1 s2 eq_refl H2 eq_refl).
  rewrite (run_graph_step _ "extract_kg_entities" _ "generate_stories" s2 s3 eq_refl H3 eq_refl).
  rewrite (run_graph_step _ "generate_stories" _ "quality_check" s3 s4 eq_refl H4 eq_refl).
  rewrite (run_graph_step _ "quality_check" _ "finalize_results" s4 s5 eq_refl H5 eq_refl).
  exact (run_graph_end _ "finalize_results" _ s5 s6 eq_refl H6 eq_refl).
Qed.
End Graph.

(** *** Dict literals *)
Lemma lookup_literal (l : list (string * pyval)) k :
  (list_to_map l : gmap string pyval) !! k = assoc k l.
Proof.
  induction l as [|[k' v] l IH]; [done|].
  rewrite list_to_map_cons. cbn [assoc].
  destruct (String.eqb_spec k' k) as [->|Hne].
  - by rewrite lookup_insert_eq.
  - by rewrite lookup_insert_ne.
Qed.

(** *** Packaging the final state *)
Lemma message_contents_returns l :
  Forall is_message l → ∃ cs, message_contents (VList l) = Returns cs.
Proof.
  unfold message_contents. simpl. induction 1 as [|m l [c Hc] _ [cs IH]]; simpl.
  - by eexists.
  - rewrite Hc, IH. by eexists.
Qed.

Lemma package_returns s :
  shape s → stories_ok s →
  ∃ result, package s = Returns result
            ∧ result !! "errors" = Some (VList (errors_of s))
            ∧ result !! "user_stories" = s !! "generated_stories".
Proof.
  intros ((errs & He) & _ & (msgs & Hm & Hall) & _) (g & n & Hg & Hn).
  destruct (message_contents_returns msgs Hall) as (cs & Hcs).
  unfold package, errors_of. rewrite Hm, Hg, He.
  cbn [default from_option id]. rewrite Hcs, Hn.
  eexists. split; [reflexivity|]. by rewrite !lookup_literal.
Qed.

(** *** The initial state *)
Section Initial.
Variables (start_time requirements : string) (project_id user_id : Z).
Variables (persona additional_context : option string).
Variable generation_options : option (gmap string pyval).

Let s0 : State :=
  initial_state start_time requirements project_id user_id persona
    additional_context generation_options.

Lemma initial_shape : shape s0.
Proof.
  unfold shape, s0, initial_state. rewrite !lookup_literal. cbn [assoc String.eqb].
  split; [by eexists|]. split; [by eexists|]. split; [|by eexists].
  eexists. split; [reflexivity|].
  constructor; [apply is_message_HumanMessage|constructor].
Qed.

Lemma initial_analysis_raises sv e :
  generate_text sv (AnalysisPrompt (VStr requirements) (option_str additional_context))
  = Raises e →
  raised (analyze_body sv) s0 = Some e.
Proof.
  intros Hraise.
  assert (s0 !! "project_id" = Some (VInt project_id)) as H1
    by (unfold s0, initial_state; by rewrite lookup_literal).
  assert (s0 !! "requirements" = Some (VStr requirements)) as H2
    by (unfold s0, initial_state; by rewrite lookup_literal).
  assert (s0 !! "additional_context" = Some (option_str additional_context)) as H3
    by (unfold s0, initial_state; by rewrite lookup_literal).
  unfold raised, analyze_body, bind, get_item, get_or, lift.
  rewrite H1, H2, H3. cbn [default from_option id]. by rewrite Hraise.
Qed.
End Initial.

(** *** Every stage returns, and what it logged stays logged *)
Section Pipeline.
Variable sv : Services.
Variable completion_time : string.

Lemma analyze_stage s :
  shape s →
  ∃ s', _analyze_requirements sv s = Returns s'
        ∧ shape s'
        ∧ ∀ v, v ∈ error_of "Requirements analysis failed: " (raised (analyze_body sv) s) →
               logged v s'.
Proof.
  intros Hs.
  destruct (node_returns (analyze_body sv) analyze_handler
              "Requirements analysis failed: " "analyze_requirements" s
              (analyze_body_shape sv) analyze_handler_runs Hs)
    as (s' & Hrun & Hsh & _ & Hlog).
  by exists s'.
Qed.

Lemma retrieve_stage s :
  shape s →
  ∃ s', _retrieve_context sv s = Returns s'
        ∧ shape s'
        ∧ ∀ v, v ∈ error_of "Context retrieval failed: " (raised (retrieve_body sv) s) →
               logged v s'.
Proof.
  intros Hs.
  destruct (node_returns (retrieve_body sv) retrieve_handler
              "Context retrieval failed: " "retrieve_context" s
              (retrieve_body_shape sv) retrieve_handler_runs Hs)
    as (s' & Hrun & Hsh & _ & Hlog).
  by exists s'.
Qed.

Lemma extract_stage s :
  shape s →
  ∃ s', _extract_kg_entities sv s = Returns s'
        ∧ shape s'
        ∧ ∀ v, v ∈ error_of "Knowledge graph entity extraction failed: "
                     (raised (extract_body sv) s) →
               logged v s'.
Proof.
  intros Hs.
  destruct (node_returns (extract_body sv) extract_handler
              "Knowledge graph entity extraction failed: " "extract_kg_entities" s
              (extract_body_shape sv) extract_handler_runs Hs)
    as (s' & Hrun & Hsh & _ & Hlog).
  by exists s'.
Qed.

Lemma finalize_stage s :
  shape s →
  ∃ s', _finalize_results sv completion_time s = Returns s'
        ∧ shape s'
        ∧ s' !! "current_step" = Some (VStr "finalize_results")
        ∧ ∀ v, v ∈ error_of "Result finalization failed: "
                     (raised (finalize_body sv completion_time) s) →
               logged v s'.
Proof.
  intros Hs.
  exact (node_returns (finalize_body sv completion_time) finalize_handler
           "Result finalization failed: " "finalize_results" s
           (finalize_body_shape sv completion_time) finalize_handler_runs Hs).
Qed.

Lemma retrieve_keeps_log x s s' :
  logged x s → _retrieve_context sv s = Returns s' → logged x s'.
Proof.
  apply node_keeps;
    [apply retrieve_body_logged|apply retrieve_handler_logged|apply logged_step].
Qed.

Lemma extract_keeps_log x s s' :
  logged x s → _extract_kg_entities sv s = Returns s' → logged x s'.
Proof.
  apply node_keeps;
    [apply extract_body_logged|apply extract_handler_logged|apply logged_step].
Qed.

Lemma generate_keeps_log x s s' :
  logged x s → _generate_stories sv s = Returns s' → logged x s'.
Proof.
  apply node_keeps;
    [apply generate_body_logged|apply generate_handler_logged|apply logged_step].
Qed.

Lemma quality_keeps_log x s s' :
  logged x s → _quality_check sv s = Returns s' → logged x s'.
Proof.
  apply quality_keeps;
    [apply quality_body_logged|apply quality_handler_logged|apply logged_step].
Qed.

Lemma finalize_keeps_log x s s' :
  logged x s → _finalize_results sv completion_time s = Returns s' → logged x s'.
Proof.
  apply node_keeps;
    [apply finalize_body_logged|apply finalize_handler_logged|apply logged_step].
Qed.

Lemma quality_keeps_stories g s s' :
  stories_are g s → _quality_check sv s = Returns s' → stories_are g s'.
Proof.
  apply quality_keeps;
    [apply quality_body_stories|apply quality_handler_stories|apply stories_step].
Qed.

Lemma finalize_keeps_stories g s s' :
  stories_are g s → _finalize_results sv completion_time s = Returns s' →
  stories_are g s'.
Proof.
  apply node_keeps;
    [apply finalize_body_stories|apply finalize_handler_stories|apply stories_step].
Qed.
End Pipeline.

(** C5. Whatever the services do, and for every input,
    [generate_user_stories] returns the bundle packaged from the final
    state, never the bundle of its own [except] branch: the six stages
    each return a state and the graph runs them in order up to
    [finalize_results], which leaves its step marker.  The bundle's
    [errors] holds the entry of every stage whose body raised, so it is
    non-empty as soon as one stage raised; in particular a raising
    analysis call leaves its entry there.  The bundle's [user_stories]
    is the [generated_stories] that the generate-stories stage left,
    and it is the empty list when that stage's body raised. *)
Theorem agent_resilience (sv : Services) (start_time completion_time requirements : string)
    (project_id user_id : Z) (persona additional_context : option string)
    (generation_options : option (gmap string pyval)) :
  let s0 := initial_state start_time requirements project_id user_id persona
              additional_context generation_options in
  let result := generate_user_stories sv start_time completion_time requirements
                  project_id user_id persona additional_context generation_options in
  ∃ s1 s2 s3 s4 s5 s6 errs,
    _analyze_requirements sv s0 = Returns s1
    ∧ _retrieve_context sv s1 = Returns s2
    ∧ _extract_kg_entities sv s2 = Returns s3
    ∧ _generate_stories sv s3 = Returns s4
    ∧ _quality_check sv s4 = Returns s5
    ∧ _finalize_results sv completion_time s5 = Returns s6
    ∧ ainvoke sv completion_time s0 = Returns s6
    ∧ s6 !! "current_step" = Some (VStr "finalize_results")
    ∧ package s6 = Returns result
    ∧ result !! "errors" = Some (VList errs)
    ∧ stage_failures sv completion_time s0 s1 s2 s3 s4 s5 ⊆ errs
    ∧ (stage_failures sv completion_time s0 s1 s2 s3 s4 s5 ≠ [] → errs ≠ [])
    ∧ (∀ e, generate_text sv (AnalysisPrompt (VStr requirements)
                                (option_str additional_context)) = Raises e →
            VStr ("Requirements analysis failed: " +:+ e) ∈ errs)
    ∧ result !! "user_stories" = s4 !! "generated_stories"
    ∧ (raised (generate_body sv) s3 ≠ None →
       result !! "user_stories" = Some (VList [])).
Proof.
  intros s0 result.
  destruct (analyze_stage sv s0) as (s1 & R1 & Sh1 & L1); [apply initial_shape|].
  destruct (retrieve_stage sv s1 Sh1) as (s2 & R2 & Sh2 & L2).
  destruct (extract_stage sv s2 Sh2) as (s3 & R3 & Sh3 & L3).
  destruct (generate_stage sv s3 Sh3) as (s4 & R4 & Sh4 & _ & L4 & (g & n & Hg & Hn) & E4).
  destruct (quality_stage sv s4 Sh4) as (s5 & R5 & Sh5 & L5).
  destruct (finalize_stage sv completion_time s5 Sh5) as (s6 & R6 & Sh6 & Step6 & L6).
  assert (∀ g', stories_are g' s4 → stories_are g' s6) as Hkeep.
  { intros g' Hg'. eapply finalize_keeps_stories; [|exact R6].
    eapply quality_keeps_stories; [exact Hg'|exact R5]. }
  assert (stories_ok s6) as Ok6 by (exists g, n; split; [by apply Hkeep|done]).
  destruct (package_returns s6 Sh6 Ok6) as (bundle & Hpack & Herrs & Hstories).
  pose proof (ainvoke_chain sv completion_time s0 s1 s2 s3 s4 s5 s6 R1 R2 R3 R4 R5 R6)
    as Hrun.
  assert (result = bundle) as Hresult.
  { unfold result, generate_user_stories. fold s0. by rewrite Hrun, Hpack. }
  assert (stage_failures sv completion_time s0 s1 s2 s3 s4 s5 ⊆ errors_of s6) as Hsub.
  { intros v Hv. unfold stage_failures in Hv.
    repeat (apply elem_of_app in Hv as [Hv|Hv]).
    - eapply finalize_keeps_log; [|exact R6]. eapply quality_keeps_log; [|exact R5].
      eapply generate_keeps_log; [|exact R4]. eapply extract_keeps_log; [|exact R3].
      eapply retrieve_keeps_log; [|exact R2]. by apply L1.
    - eapply finalize_keeps_log; [|exact R6]. eapply quality_keeps_log; [|exact R5].
      eapply generate_keeps_log; [|exact R4]. eapply extract_keeps_log; [|exact R3].
      by apply L2.
    - eapply finalize_keeps_log; [|exact R6]. eapply quality_keeps_log; [|exact R5].
      eapply generate_keeps_log; [|exact R4]. by apply L3.
    - eapply finalize_keeps_log; [|exact R6]. eapply quality_keeps_log; [|exact R5].
      by apply L4.
    - eapply finalize_keeps_log; [|exact R6]. by apply L5.
    - by apply L6. }
  exists s1, s2, s3, s4, s5, s6, (errors_of s6). rewrite Hresult.
  split; [exact R1|]. split; [exact R2|]. split; [exact R3|]. split; [exact R4|].
  split; [exact R5|]. split; [exact R6|]. split; [exact Hrun|]. split; [exact Step6|].
  split; [exact Hpack|]. split; [exact Herrs|]. split; [exact Hsub|].
  split; [|split; [|split]].
  - intros Hne Hnil. rewrite Hnil in Hsub.
    destruct (stage_failures sv completion_time s0 s1 s2 s3 s4 s5) as [|v l]; [done|].
    specialize (Hsub v). apply (not_elem_of_nil v), Hsub. by left.
  - intros e Hraise. apply Hsub. unfold stage_failures.
    assert (raised (analyze_body sv) s0 = Some e) as ->
      by exact (initial_analysis_raises start_time requirements project_id user_id
                  persona additional_context generation_options sv e Hraise).
    apply elem_of_app. left. by left.
  - rewrite Hstories. symmetry. rewrite Hg. symmetry. by apply Hkeep.
  - intros Hraised. rewrite Hstories. by apply Hkeep, E4.
Qed.

Lemma agent_resilience_witness :
  ∃ errs, demo_run text_down !! "errors" = Some (VList errs)
          ∧ VStr "Requirements analysis failed: timeout" ∈ errs.
Proof.
  destruct (agent_resilience text_down "2024-01-01T00:00:00" "2024-01-01T00:00:09"
              "Users sign in with email" 1 7 None None None)
    as (s1 & s2 & s3 & s4 & s5 & s6 & errs & _ & _ & _ & _ & _ & _ & _ & _ & _
        & Herrs & _ & _ & Hanalysis & _).
  exists errs. split; [exact Herrs|].
  apply (Hanalysis "timeout"). reflexivity.
Defined.

(** With the text endpoint down the analysis and the quality check
    fail, and the stories of the generation call are still returned. *)
Example text_down_run :
  demo_run text_down !! "errors"
  = Some (VList [VStr "Requirements analysis failed: timeout";
                 VStr "Quality check failed: timeout"])
  ∧ demo_run text_down !! "user_stories" = Some (VList [demo_story])
  ∧ demo_run text_down !! "success" = Some (VBool true).
Proof. vm_compute. done. Qed.

(** With every service down four stages fail, the quality check has
    nothing to check, and the bundle has no stories. *)
Example all_down_run :
  demo_run all_down !! "errors"
  = Some (VList [VStr "Requirements analysis failed: timeout";
                 VStr "Context retrieval failed: timeout";
                 VStr "Knowledge graph entity extraction failed: timeout";
                 VStr "Story generation failed: timeout"])
  ∧ demo_run all_down !! "user_stories" = Some (VList [])
  ∧ demo_run all_down !! "success" = Some (VBool false).
Proof. vm_compute. done. Qed.

End AgentProps.

Module SecurityMoreProps.
Import Security Access.

Section Bearer.
Context {token : Type} `{Countable token}.
Variable jwt_encode : gmap string pyval → string → string → token.
Variable jwt_decode : token → string → list string → Z → option (gmap string pyval).
Variable settings : Settings.

Lemma refresh_type now data delta :
  refresh_claims settings now data delta !! "type" = Some (VStr "refresh").
Proof. unfold refresh_claims. by rewrite lookup_insert_eq. Qed.

Lemma refresh_claims_keeps now data delta k :
  k ≠ "type" → k ≠ "exp" → refresh_claims settings now data delta !! k = data !! k.
Proof.
  intros Ht He. unfold refresh_claims.
  rewrite lookup_insert_ne by done. by rewrite lookup_insert_ne.
Qed.

Lemma refresh_decodes now data delta t :
  codec_honours jwt_encode jwt_decode settings (refresh_claims settings now data delta) →
  jwt_decode (create_refresh_token jwt_encode settings now data delta)
    (SECRET_KEY settings) [ALGORITHM settings] t
  = if expiry now delta (REFRESH_TOKEN_EXPIRE_MINUTES settings) <? t
    then None else Some (refresh_claims settings now data delta).
Proof.
  intros codec. unfold create_refresh_token.
  fold (refresh_claims settings now data delta). rewrite codec.
  unfold claims_expired, refresh_claims.
  rewrite lookup_insert_ne by done. by rewrite lookup_insert_eq.
Qed.

(** X1. A refresh token is no bearer credential.  For every claim set
    with a [sub] and the refresh token issued from it, given that the
    codec decodes that token to its claims until they expire: until its
    expiry the token verifies as a "refresh" token, with a payload that
    keeps every claim of the input other than [exp] and [type]; it never
    verifies as an "access" token, so [get_current_user] answers it with
    401 in every state and at every time. *)
Theorem refresh_token_is_no_bearer (now : Z) (data : gmap string pyval)
    (delta : option Z) (sub : pyval) :
  codec_honours jwt_encode jwt_decode settings (refresh_claims settings now data delta) →
  data !! "sub" = Some sub → sub ≠ VNone →
  let tok := create_refresh_token jwt_encode settings now data delta in
  (∀ t, t ≤ expiry now delta (REFRESH_TOKEN_EXPIRE_MINUTES settings) →
     ∃ payload,
       verify_token jwt_decode settings t tok "refresh" = Some payload
       ∧ ∀ k, k ≠ "type" → k ≠ "exp" → payload !! k = data !! k)
  ∧ (∀ t, verify_token jwt_decode settings t tok "access" = None)
  ∧ (∀ t (st : AppState), get_current_user jwt_decode settings t tok st
             = HTTPException 401 "Could not validate credentials").
Proof.
  intros codec Hsub Hnone tok.
  assert (∀ t, verify_token jwt_decode settings t tok "access" = None) as Hacc.
  { intros t. unfold verify_token, tok. rewrite refresh_decodes by done.
    destruct (_ <? t); [reflexivity|].
    unfold dict_get. by rewrite refresh_type. }
  split; [|split; [exact Hacc|]].
  - intros t Ht. exists (refresh_claims settings now data delta). split.
    + unfold verify_token, tok. rewrite refresh_decodes by done.
      destruct (Z.ltb_spec (expiry now delta (REFRESH_TOKEN_EXPIRE_MINUTES settings)) t);
        [lia|].
      unfold dict_get. rewrite refresh_type. simpl.
      rewrite refresh_claims_keeps by done. rewrite Hsub. simpl.
      by destruct sub.
    + intros k Hk1 Hk2. by apply refresh_claims_keeps.
  - intros t st. unfold get_current_user. by rewrite Hacc.
Qed.
End Bearer.

Lemma refresh_token_is_no_bearer_witness :
  let s := demo_settings in
  let tok := create_refresh_token refresh_encode s 1000 login_claims None in
  (∀ t, t ≤ expiry 1000 None (REFRESH_TOKEN_EXPIRE_MINUTES s) →
     ∃ payload,
       verify_token refresh_decode s t tok "refresh" = Some payload
       ∧ ∀ k, k ≠ "type" → k ≠ "exp" → payload !! k = login_claims !! k)
  ∧ (∀ t, verify_token refresh_decode s t tok "access" = None)
  ∧ (∀ t (st : AppState), get_current_user refresh_decode s t tok st
             = HTTPException 401 "Could not validate credentials").
Proof.
  apply (refresh_token_is_no_bearer refresh_encode refresh_decode demo_settings
           1000 login_claims None (VStr "alice")).
  - intros t. unfold refresh_decode, refresh_encode.
    rewrite String.eqb_refl. simpl.
    by destruct (claims_expired _ t).
  - reflexivity.
  - discriminate.
Defined.

Section Resolver.
Context {token : Type} `{Countable token}.
Variable jwt_decode : token → string → list string → Z → option (gmap string pyval).
Variable settings : Settings.

(** X2. The resolver with the blacklist check honours a revocation.
    Once [logout_user] has run on a token, that token is answered 401
    "Token has been revoked" at every later time, whatever other tokens
    are revoked afterwards; for every other token the answer is the one
    [get_current_user] gave before, unless that token was revoked
    already. *)
Theorem blacklist_check_revokes (tok : token) (st : AppState) :
  let st' := logout_user tok st in
  (∀ t, get_current_user_with_blacklist_check jwt_decode settings t tok st'
        = HTTPException 401 "Token has been revoked")
  ∧ (∀ t other, get_current_user_with_blacklist_check jwt_decode settings t tok
                  (logout_user other st')
                = HTTPException 401 "Token has been revoked")
  ∧ (∀ t other, other ≠ tok →
       get_current_user_with_blacklist_check jwt_decode settings t other st'
       = get_current_user_with_blacklist_check jwt_decode settings t other st)
  ∧ users st' = users st ∧ user_sessions st' = user_sessions st.
Proof.
  intros st'. subst st'.
  unfold get_current_user_with_blacklist_check, is_blacklisted, logout_user,
    blacklist_token. simpl.
  split; [|split; [|split; [|done]]].
  - intros t. rewrite bool_decide_eq_true_2; [reflexivity|].
    apply elem_of_union. left. by apply elem_of_singleton.
  - intros t other. rewrite bool_decide_eq_true_2; [reflexivity|].
    apply elem_of_union. right. apply elem_of_union. left. by apply elem_of_singleton.
  - intros t other Hne.
    assert (bool_decide (other ∈ {[tok]} ∪ _blacklisted_tokens st)
            = bool_decide (other ∈ _blacklisted_tokens st)) as ->.
    { apply bool_decide_ext. rewrite elem_of_union, elem_of_singleton. tauto. }
    reflexivity.
Qed.

(** X3. Whom a bearer token resolves to.  When
    [get_current_active_user] returns a user, the token verified as an
    unexpired "access" token at that time, the user is the first row of
    the user table whose username is the token's [sub], and the user is
    active.  Every refusal is a 401, except for an inactive user, which
    is a 400. *)
Theorem resolved_user_matches_token (now : Z) (tok : token) (st : AppState) :
  match get_current_active_user jwt_decode settings now tok st with
  | Ok u =>
      ∃ payload,
        verify_token jwt_decode settings now tok "access" = Some payload
        ∧ payload !! "type" = Some (VStr "access")
        ∧ payload !! "sub" = Some (VStr (username u))
        ∧ find (λ u', String.eqb (username u) (username u')) (users st) = Some u
        ∧ is_active u = true
  | HTTPException c d =>
      (c = 401 ∧ d = "Could not validate credentials")
      ∨ (c = 400 ∧ d = "Inactive user"
         ∧ ∃ u, get_current_user jwt_decode settings now tok st = Ok u
                ∧ is_active u = false)
  end.
Proof.
  unfold get_current_active_user, get_current_user.
  destruct (verify_token jwt_decode settings now tok "access") as [payload|] eqn:Hv;
    [|by left].
  assert (payload !! "type" = Some (VStr "access")) as Hty.
  { unfold verify_token in Hv.
    destruct (jwt_decode _ _ _ _) as [p|]; [|done].
    unfold dict_get in Hv.
    destruct (p !! "type") as [[]|] eqn:Hp; simpl in Hv; try done.
    destruct (String.eqb_spec s "access"); simpl in Hv; [|done].
    destruct (is_none _); [done|]. by simplify_eq. }
  unfold dict_get, query_user_by_username.
  destruct (payload !! "sub") as [[]|] eqn:Hsub; simpl;
    try (by left);
    try (destruct (find _ (users st)) eqn:Hf;
         [apply find_some in Hf as [_ Hf]; discriminate|by left]).
  destruct (find _ (users st)) as [u|] eqn:Hfind; [|by left].
  pose proof (find_some _ _ Hfind) as [_ Hname].
  apply String.eqb_eq in Hname. subst s.
  destruct (is_active u) eqn:Hact; simpl.
  - exists payload. by repeat split.
  - right. repeat split; try done. by exists u.
Qed.

(** X4. Role checks.  [RoleChecker] returns a user only when
    [get_current_active_user] returned that user and the user's role is
    on the list; a user with another role gets 403, and a failed
    authentication keeps its own 401 or 400.  Widening the list never
    turns an accepted caller away, so whoever passes [require_admin]
    passes [require_admin_or_manager], and whoever passes that passes
    [require_any_role]. *)
Theorem role_checker_gates (allowed : list string) (now : Z) (tok : token)
    (st : AppState) :
  (∀ u, RoleChecker jwt_decode settings allowed now tok st = Ok u ↔
        get_current_active_user jwt_decode settings now tok st = Ok u
        ∧ In (role u) allowed)
  ∧ (∀ u, get_current_active_user jwt_decode settings now tok st = Ok u →
          ¬ In (role u) allowed →
          RoleChecker jwt_decode settings allowed now tok st
          = HTTPException 403 "Operation not permitted")
  ∧ (∀ c d, get_current_active_user jwt_decode settings now tok st = HTTPException c d →
            RoleChecker jwt_decode settings allowed now tok st = HTTPException c d)
  ∧ (∀ wider u, (∀ r, In r allowed → In r wider) →
        RoleChecker jwt_decode settings allowed now tok st = Ok u →
        RoleChecker jwt_decode settings wider now tok st = Ok u)
  ∧ (∀ u, require_admin jwt_decode settings now tok st = Ok u →
          require_admin_or_manager jwt_decode settings now tok st = Ok u)
  ∧ (∀ u, require_admin_or_manager jwt_decode settings now tok st = Ok u →
          require_any_role jwt_decode settings now tok st = Ok u).
Proof.
  assert (∀ l u, RoleChecker jwt_decode settings l now tok st = Ok u ↔
                 get_current_active_user jwt_decode settings now tok st = Ok u
                 ∧ In (role u) l) as Hiff.
  { intros l u. unfold RoleChecker.
    destruct (get_current_active_user _ _ _ _ _) as [v|c d]; [|split; [done|by intros [? _]]].
    destruct (existsb (String.eqb (role v)) l) eqn:Hex; simpl.
    - apply existsb_exists in Hex as (r & Hin & Hr). apply String.eqb_eq in Hr.
      split.
      + intros [= ->]. split; [done|]. by rewrite Hr.
      + by intros [-> _].
    - split; [done|]. intros [[= ->] Hin].
      assert (existsb (String.eqb (role u)) l = true) as Hex'
        by (apply existsb_exists; exists (role u); split; [done|apply String.eqb_refl]).
      congruence. }
  assert (∀ l wider u, (∀ r, In r l → In r wider) →
            RoleChecker jwt_decode settings l now tok st = Ok u →
            RoleChecker jwt_decode settings wider now tok st = Ok u) as Hmono.
  { intros l wider u Hsub Hok. apply Hiff. apply Hiff in Hok as [Hu Hin]. auto. }
  split; [apply Hiff|]. split; [|split; [|split; [|split]]].
  - intros u Hu Hnot. unfold RoleChecker. rewrite Hu.
    destruct (existsb (String.eqb (role u)) allowed) eqn:Hex; [|done].
    apply existsb_exists in Hex as (r & Hin & Hr). apply String.eqb_eq in Hr.
    subst r. contradiction.
  - intros c d Hu. unfold RoleChecker. by rewrite Hu.
  - intros wider u. apply Hmono.
  - intros u. apply Hmono. simpl. intuition.
  - intros u. apply Hmono. simpl. intuition.
Qed.
End Resolver.

End SecurityMoreProps.

Module AuthRoutesProps.
Import Security Access AuthRoutes.

Section Refresh.
Context {token : Type} `{Countable token}.
Variable jwt_encode : gmap string pyval → string → string → token.
Variable jwt_decode : token → string → list string → Z → option (gmap string pyval).
Variable settings : Settings.

Lemma query_by_own_name (u : User) (name : pyval) (st : @AppState token _ _) :
  query_user_by_username name st = Some u → name = VStr (username u).
Proof.
  unfold query_user_by_username. intros Hfind.
  apply find_some in Hfind as [_ Heq]. destruct name; try discriminate.
  simpl in Heq. apply String.eqb_eq in Heq. by subst.
Qed.

(** X5. What [POST /auth/refresh] hands out.  The route changes no
    state.  When it answers with a token pair, the refresh token is the
    one presented, and the user named by its [sub] is active; and, given
    that the codec decodes the new access token to its claims, that
    access token resolves through [get_current_active_user] to this same
    user at every time up to [expires_in] seconds later, in the state
    the route ran in. *)
Theorem refresh_reissues_for_subject (now : Z) (presented : token) (st : AppState)
    (pair : Token token) :
  (∀ u, In u (users st) →
        codec_honours jwt_encode jwt_decode settings
          (access_claims settings now (user_claims u)
             (Some (minutes (ACCESS_TOKEN_EXPIRE_MINUTES settings))))) →
  0 ≤ ACCESS_TOKEN_EXPIRE_MINUTES settings →
  refresh_token jwt_encode jwt_decode settings now presented st = Ok pair →
  refresh_token_kept pair = presented
  ∧ ∃ payload u,
      verify_token jwt_decode settings now presented "refresh" = Some payload
      ∧ payload !! "sub" = Some (VStr (username u))
      ∧ is_active u = true
      ∧ ∀ t, t ≤ now + expires_in pair →
             get_current_active_user jwt_decode settings t (access_token pair) st = Ok u.
Proof.
  intros codec Hpos. unfold refresh_token.
  destruct (verify_token jwt_decode settings now presented "refresh")
    as [payload|] eqn:Hv; [|discriminate].
  destruct (query_user_by_username (dict_get payload "sub") st) as [u|] eqn:Hq;
    [|discriminate].
  destruct (is_active u) eqn:Hact; simpl; [|discriminate].
  intros [= <-]. simpl. split; [reflexivity|]. exists payload, u.
  pose proof (query_by_own_name u _ st Hq) as Hname.
  split; [reflexivity|]. split.
  { unfold dict_get in Hname. destruct (payload !! "sub"); simpl in Hname; congruence. }
  split; [exact Hact|].
  intros t Ht. unfold get_current_active_user, get_current_user, verify_token.
  unfold create_access_token.
  set (claims := access_claims settings now (user_claims u)
                   (Some (minutes (ACCESS_TOKEN_EXPIRE_MINUTES settings)))).
  cbv zeta.
  change (jwt_encode _ _ _)
    with (jwt_encode claims (SECRET_KEY settings) (ALGORITHM settings)).
  assert (In u (users st)) as Hin
    by (unfold query_user_by_username in Hq; by apply find_some in Hq as [? _]).
  pose proof (codec u Hin t) as Hc. fold claims in Hc. rewrite Hc.
  assert (claims_expired claims t = false) as ->.
  { unfold claims_expired, claims, access_claims.
    rewrite lookup_insert_ne by done. rewrite lookup_insert_eq.
    apply Z.ltb_ge. unfold expiry, minutes in *.
    destruct (60 * ACCESS_TOKEN_EXPIRE_MINUTES settings =? 0); lia. }
  assert (dict_get claims "type" = VStr "access") as ->
    by (unfold dict_get, claims, access_claims; by rewrite lookup_insert_eq).
  assert (dict_get claims "sub" = VStr (username u)) as Hsubc.
  { unfold dict_get, claims, access_claims, user_claims.
    rewrite !lookup_insert_ne by done. by rewrite lookup_insert_eq. }
  assert (query_user_by_username (VStr (username u)) st = Some u) as Hq'
    by (rewrite <- Hname; exact Hq).
  cbn [eq_str negb]. rewrite String.eqb_refl. cbn [negb].
  rewrite Hsubc. cbn [is_none]. rewrite Hsubc. cbn [is_none].
  rewrite Hq'. by rewrite Hact.
Qed.
End Refresh.

Lemma refresh_reissues_for_subject_witness :
  ∃ pair,
    refresh_token reissue_encode reissue_decode demo_settings 2000
      Access.alice_refresh_token demo_state = Ok pair
    ∧ refresh_token_kept pair = Access.alice_refresh_token
    ∧ ∃ payload u,
        verify_token reissue_decode demo_settings 2000 Access.alice_refresh_token
          "refresh" = Some payload
        ∧ payload !! "sub" = Some (VStr (username u))
        ∧ is_active u = true
        ∧ ∀ t, t ≤ 2000 + expires_in pair →
               get_current_active_user reissue_decode demo_settings t
                 (access_token pair) demo_state = Ok u.
Proof.
  eexists. split; [vm_compute; reflexivity|].
  apply (refresh_reissues_for_subject reissue_encode reissue_decode demo_settings
           2000 Access.alice_refresh_token demo_state).
  - intros u [<-|[<-|[]]] t; reflexivity.
  - vm_compute. discriminate.
  - vm_compute. reflexivity.
Defined.

Section Sessions.
Context {token : Type} `{Countable token}.
Variable jwt_decode : token → string → list string → Z → option (gmap string pyval).
Variable settings : Settings.

Lemma no_session_with_id session l :
  ¬ In session (map session_id l) → map (revoked_in session) l = l.
Proof.
  induction l as [|s l IH]; [done|]. simpl. intros Hnot.
  unfold revoked_in at 1. destruct (Z.eqb_spec (session_id s) session) as [E|E].
  - exfalso. apply Hnot. by left.
  - f_equal. apply IH. intros Hin. apply Hnot. by right.
Qed.

Lemma replace_first_session session uid found l :
  NoDup (map session_id l) →
  find (λ s, (session_id s =? session) && (session_user_id s =? uid)) l = Some found →
  Routers.replace_first (λ s, (session_id s =? session) && (session_user_id s =? uid))
    (deactivate found) l
  = map (revoked_in session) l.
Proof.
  induction l as [|s l IH]; [done|]. simpl. intros Hnd Hfind.
  apply NoDup_cons in Hnd as [Hnot Hnd]. rewrite list_elem_of_In in Hnot.
  unfold revoked_in at 1.
  destruct (Z.eqb_spec (session_id s) session) as [E|E]; simpl in *.
  - destruct (session_user_id s =? uid) eqn:Hu.
    + injection Hfind as <-. f_equal. symmetry. apply no_session_with_id. by rewrite <- E.
    + exfalso. apply find_some in Hfind as [Hin Hp].
      apply andb_true_iff in Hp as [Hid _]. apply Z.eqb_eq in Hid.
      apply Hnot. rewrite E, <- Hid. by apply in_map.
  - f_equal. by apply IH.
Qed.

(** X6. Revoking a session.  With session ids unique: a caller who is
    authenticated but names a session that is not theirs, or no session
    at all, is answered 404 and nothing changes; when the route
    succeeds, the named session is the caller's, exactly that session
    is set inactive while every other session row, the users and the
    revocation list stay as they were, and the session is no longer
    among those [GET /auth/sessions] lists for the caller, at any
    later time. *)
Theorem revoke_session_effect (now : Z) (session : Z) (tok : token) (st : AppState) :
  NoDup (map session_id (user_sessions st)) →
  let out := revoke_session jwt_decode settings now session tok st in
  (∀ u, get_current_active_user jwt_decode settings now tok st = Ok u →
        (∀ s, In s (user_sessions st) → session_id s = session →
              session_user_id s ≠ user_id u) →
        out = (HTTPException 404 "Session not found", st))
  ∧ (∀ c d, fst out = HTTPException c d → snd out = st)
  ∧ (∀ msg, fst out = Ok msg →
       ∃ u, get_current_active_user jwt_decode settings now tok st = Ok u
            ∧ (∃ s, In s (user_sessions st) ∧ session_id s = session
                    ∧ session_user_id s = user_id u)
            ∧ user_sessions (snd out) = map (revoked_in session) (user_sessions st)
            ∧ users (snd out) = users st
            ∧ _blacklisted_tokens (snd out) = _blacklisted_tokens st
            ∧ ∀ t listed,
                get_user_sessions jwt_decode settings t tok (snd out) = Ok listed →
                ¬ In session listed).
Proof.
  intros Hnd out. subst out. unfold revoke_session.
  destruct (get_current_active_user jwt_decode settings now tok st) as [u|c d] eqn:Hu.
  2:{ split; [intros ? [=]|]. split; [done|]. intros msg [=]. }
  set (mine := λ s, (session_id s =? session) && (session_user_id s =? user_id u)).
  destruct (find mine (user_sessions st)) as [found|] eqn:Hfind.
  - pose proof (find_some _ _ Hfind) as [Hin Hmine].
    apply andb_true_iff in Hmine as [Hid Huid].
    apply Z.eqb_eq in Hid. apply Z.eqb_eq in Huid.
    split.
    { intros u' [= <-] Hother. exfalso. by apply (Hother found). }
    split; [intros c d [=]|].
    intros msg _. exists u. simpl. split; [reflexivity|].
    split; [by exists found|].
    split; [exact (replace_first_session session (user_id u) found _ Hnd Hfind)|].
    split; [reflexivity|].
    split; [reflexivity|].
    intros t listed. unfold get_user_sessions.
    destruct (get_current_active_user jwt_decode settings t tok _) as [v|]; [|done].
    intros [= <-]. cbn [user_sessions]. unfold mine.
    rewrite (replace_first_session session (user_id u) found _ Hnd Hfind).
    intros Hl. apply in_map_iff in Hl as (s & Hs & Hl).
    apply filter_In in Hl as [Hl Hp]. apply in_map_iff in Hl as (s0 & <- & _).
    unfold revoked_in in *.
    destruct (Z.eqb_spec (session_id s0) session) as [E|E]; [|done].
    simpl in Hp. by rewrite andb_false_r in Hp.
  - split; [done|]. split; [done|]. intros msg [=].
Qed.
End Sessions.

Lemma revoke_session_effect_witness :
  let out := revoke_session demo_decode demo_settings 1500 3 alice_token demo_state in
  (∀ u, get_current_active_user demo_decode demo_settings 1500 alice_token demo_state
        = Ok u →
        (∀ s, In s (user_sessions demo_state) → session_id s = 3 →
              session_user_id s ≠ user_id u) →
        out = (HTTPException 404 "Session not found", demo_state))
  ∧ (∀ c d, fst out = HTTPException c d → snd out = demo_state)
  ∧ (∀ msg, fst out = Ok msg →
       ∃ u, get_current_active_user demo_decode demo_settings 1500 alice_token demo_state
            = Ok u
            ∧ (∃ s, In s (user_sessions demo_state) ∧ session_id s = 3
                    ∧ session_user_id s = user_id u)
            ∧ user_sessions (snd out) = map (revoked_in 3) (user_sessions demo_state)
            ∧ users (snd out) = users demo_state
            ∧ _blacklisted_tokens (snd out) = _blacklisted_tokens demo_state
            ∧ ∀ t listed,
                get_user_sessions demo_decode demo_settings t alice_token (snd out)
                = Ok listed →
                ¬ In 3 listed).
Proof.
  apply (revoke_session_effect demo_decode demo_settings 1500 3 alice_token demo_state).
  apply (bool_decide_unpack _). vm_compute. exact I.
Defined.

Section Register.
Context {token : Type} `{Countable token}.

Lemma user_id_below_next (st : @AppState token _ _) u :
  In u (users st) → user_id u < next_user_id st.
Proof.
  unfold next_user_id. induction (users st) as [|v l IH]; [done|].
  simpl. intros [->|Hin]; [lia|]. specialize (IH Hin). lia.
Qed.

Lemma find_none_not_in {A} (f : A → string) (name : string) (l : list A) :
  find (λ u, String.eqb (f u) name) l = None → ¬ In name (map f l).
Proof.
  intros Hfind Hin. apply in_map_iff in Hin as (u & Hu & Hin).
  apply (find_none _ _ Hfind) in Hin. simpl in Hin.
  rewrite Hu, String.eqb_refl in Hin. discriminate.
Qed.

Lemma find_after_none {A} (p : A → bool) (l l' : list A) :
  find p l = None → find p (l ++ l') = find p l'.
Proof.
  induction l as [|x l IH]; [done|]. simpl. destruct (p x); [done|exact IH].
Qed.

(** X7. Registration keeps the user table's keys unique.  On a table
    whose ids, usernames and e-mail addresses are unique, [register_user]
    either refuses with 400 and changes nothing (exactly when the
    username or the address is taken), or appends one active user with
    the requested username, address and role under a fresh id; the table
    is unique again, the rows before are untouched, and registering the
    same username once more is refused. *)
Theorem register_keeps_unique (name mail rol : string) (st : @AppState token _ _) :
  unique_users (users st) →
  let out := register_user name mail rol st in
  unique_users (users (snd out))
  ∧ user_sessions (snd out) = user_sessions st
  ∧ _blacklisted_tokens (snd out) = _blacklisted_tokens st
  ∧ match fst out with
    | HTTPException c d =>
        c = 400 ∧ snd out = st
        ∧ (In name (map username (users st)) ∨ In mail (map email (users st)))
    | Ok u =>
        users (snd out) = users st ++ [u]
        ∧ username u = name ∧ email u = mail ∧ role u = rol ∧ is_active u = true
        ∧ ¬ In (user_id u) (map user_id (users st))
        ∧ ¬ In name (map username (users st))
        ∧ ¬ In mail (map email (users st))
        ∧ ∀ mail' rol',
            fst (register_user name mail' rol' (snd out))
            = HTTPException 400 "Username already registered"
    end.
Proof.
  intros (Hid & Hname & Hmail) out. subst out. unfold register_user.
  destruct (find (λ u, String.eqb (username u) name) (users st)) as [u|] eqn:Hu.
  { simpl. repeat split; try done. left.
    apply find_some in Hu as [Hin Heq]. apply String.eqb_eq in Heq.
    rewrite <- Heq. by apply in_map. }
  destruct (find (λ u, String.eqb (email u) mail) (users st)) as [u|] eqn:Hm.
  { simpl. repeat split; try done. right.
    apply find_some in Hm as [Hin Heq]. apply String.eqb_eq in Heq.
    rewrite <- Heq. by apply in_map. }
  pose proof (find_none_not_in username name _ Hu) as Hfresh_name.
  pose proof (find_none_not_in email mail _ Hm) as Hfresh_mail.
  assert (¬ In (next_user_id st) (map user_id (users st))) as Hfresh_id.
  { intros Hin. apply in_map_iff in Hin as (u & Heq & Hin).
    apply user_id_below_next in Hin. lia. }
  simpl. split.
  { unfold unique_users. rewrite !map_app. simpl.
    repeat split; apply NoDup_app; repeat split; try done;
      try (apply NoDup_singleton);
      intros x Hx Hx'; apply list_elem_of_singleton in Hx'; subst x;
      apply list_elem_of_In in Hx; contradiction. }
  repeat split; try done.
  intros mail' rol'. rewrite (find_after_none _ _ _ Hu).
  simpl. by rewrite String.eqb_refl.
Qed.
End Register.

Lemma register_keeps_unique_witness :
  let out := register_user "carol" "c@x.com" "admin" demo_state in
  unique_users (users (snd out))
  ∧ user_sessions (snd out) = user_sessions demo_state
  ∧ _blacklisted_tokens (snd out) = _blacklisted_tokens demo_state
  ∧ match fst out with
    | HTTPException c d =>
        c = 400 ∧ snd out = demo_state
        ∧ (In "carol" (map username (users demo_state))
           ∨ In "c@x.com" (map email (users demo_state)))
    | Ok u =>
        users (snd out) = users demo_state ++ [u]
        ∧ username u = "carol" ∧ email u = "c@x.com" ∧ role u = "admin"
        ∧ is_active u = true
        ∧ ¬ In (user_id u) (map user_id (users demo_state))
        ∧ ¬ In "carol" (map username (users demo_state))
        ∧ ¬ In "c@x.com" (map email (users demo_state))
        ∧ ∀ mail' rol',
            fst (register_user "carol" mail' rol' (snd out))
            = HTTPException 400 "Username already registered"
    end.
Proof.
  apply (register_keeps_unique "carol" "c@x.com" "admin" demo_state).
  unfold unique_users.
  repeat split; apply (bool_decide_unpack _); vm_compute; exact I.
Defined.

End AuthRoutesProps.

Module ApiKeysProps.
Import Security ApiKeys.

Lemma find_by_unique_id (l : list User) (u : User) :
  NoDup (map user_id l) → In u l → find (has_id (VInt (user_id u))) l = Some u.
Proof.
  induction l as [|v l IH]; [done|]. simpl. intros Hnd Hin.
  apply NoDup_cons in Hnd as [Hnot Hnd]. rewrite list_elem_of_In in Hnot.
  destruct (Z.eqb_spec (user_id v) (user_id u)) as [E|E].
  - destruct Hin as [->|Hin]; [done|].
    exfalso. apply Hnot. rewrite E. by apply in_map.
  - destruct Hin as [->|Hin]; [done|]. by apply IH.
Qed.

(** X8. Whom an API key authenticates.  [get_api_key_user] returns a
    user only when an active key row holds the presented key, the row's
    owner is that user, and the user is active; every refusal is
    401 "Invalid API key".  The key's [expires_at] is never read: with
    unique user ids, an active key of an active user authenticates at
    every time, its expiry included, and the call stamps [last_used] on
    that row and changes nothing else. *)
Theorem api_key_resolution (now : Z) (credentials : string) (db : KeyStore) :
  let out := get_api_key_user now credentials db in
  accounts (snd out) = accounts db
  ∧ map api_key_id (api_keys (snd out)) = map api_key_id (api_keys db)
  ∧ match fst out with
    | Ok u =>
        In u (accounts db) ∧ is_active u = true
        ∧ ∃ k, In k (api_keys db) ∧ key k = credentials
               ∧ api_key_is_active k = true ∧ api_key_user_id k = user_id u
               ∧ In (touch now k) (api_keys (snd out))
    | HTTPException c d => c = 401 ∧ d = "Invalid API key"
    end
  ∧ (NoDup (map user_id (accounts db)) →
     ∀ k u, find (active_with_key credentials) (api_keys db) = Some k →
            In u (accounts db) → user_id u = api_key_user_id k →
            is_active u = true →
            fst out = Ok u).
Proof.
  intros out. subst out. unfold get_api_key_user, verify_api_key.
  assert (∀ (p : ApiKey → bool) k l, find p l = Some k →
            map api_key_id (Routers.replace_first p (touch now k) l)
            = map api_key_id l
            ∧ In (touch now k) (Routers.replace_first p (touch now k) l)) as Hrep.
  { intros p k l. induction l as [|x l IH]; [done|]. simpl.
    destruct (p x) eqn:Hp.
    - intros [= ->]. simpl. split; [done|by left].
    - intros Hf. destruct (IH Hf) as [IH1 IH2]. simpl. split; [by f_equal|by right]. }
  destruct (find (active_with_key credentials) (api_keys db)) as [k|] eqn:Hk.
  2:{ simpl. repeat split; try done. }
  pose proof (find_some _ _ Hk) as [Hin Hact].
  apply andb_true_iff in Hact as [Hkey Hact]. apply String.eqb_eq in Hkey.
  destruct (Hrep _ _ _ Hk) as [Hids Htouched].
  unfold dict_get. rewrite lookup_insert_eq. simpl.
  split; [|split; [|split]].
  - by destruct (find _ (accounts db)) as [u|]; [destruct (is_active u)|].
  - by destruct (find _ (accounts db)) as [u|]; [destruct (is_active u)|].
  - destruct (find _ (accounts db)) as [u|] eqn:Hu; [|done].
    pose proof (find_some _ _ Hu) as [Hinu Hid]. simpl in Hid.
    apply Z.eqb_eq in Hid.
    destruct (is_active u) eqn:Hau; simpl; [|done].
    split; [done|]. split; [done|]. exists k. by repeat split.
  - intros Hnd k' u [= <-] Hinu Hid Hau.
    rewrite <- Hid. rewrite (find_by_unique_id _ u Hnd Hinu). by rewrite Hau.
Qed.

Lemma delete_first_sub {A} (p : A → bool) (l : list A) x :
  In x (Routers.delete_first p l) → In x l.
Proof.
  induction l as [|y l IH]; [done|]. simpl. destruct (p y); [by right|].
  intros [->|Hin]; [by left|right; by apply IH].
Qed.

Lemma delete_first_gone (id uid : Z) (l : list ApiKey) k :
  NoDup (map api_key_id l) →
  find (owned_key id uid) l = Some k →
  ∀ x, In x (Routers.delete_first (owned_key id uid) l) ↔ In x l ∧ api_key_id x ≠ id.
Proof.
  induction l as [|y l IH]; [done|]. simpl. intros Hnd Hfind x.
  apply NoDup_cons in Hnd as [Hnot Hnd]. rewrite list_elem_of_In in Hnot.
  destruct (owned_key id uid y) eqn:Hy.
  - apply andb_true_iff in Hy as [Hid _]. apply Z.eqb_eq in Hid. split.
    + intros Hin. split; [by right|]. intros E. apply Hnot.
      rewrite Hid, <- E. by apply in_map.
    + intros [[->|Hin] Hne]; [done|done].
  - assert (api_key_id y ≠ id) as Hyid.
    { intros E. apply find_some in Hfind as [Hin Hp].
      apply andb_true_iff in Hp as [Hid _]. apply Z.eqb_eq in Hid.
      apply Hnot. rewrite E, <- Hid. by apply in_map. }
    simpl. rewrite (IH Hnd Hfind x). split.
    + intros [->|[Hin Hne]]; [split; [by left|done]|split; [by right|done]].
    + intros [[->|Hin] Hne]; [by left|by right].
Qed.

(** X9. Deleting an API key.  With unique key ids and key strings:
    a key that is not the caller's, or does not exist, gives 404 and no
    change; on success the row with that id, which is the caller's, is
    removed and all other rows stay, and the deleted key string no
    longer authenticates anyone, at any time. *)
Theorem deleted_api_key_is_dead (id : Z) (caller : User) (db : KeyStore) :
  unique_keys db →
  let out := delete_api_key id caller db in
  ((∀ k, In k (api_keys db) → api_key_id k = id →
         api_key_user_id k ≠ user_id caller) →
   out = (HTTPException 404 "API key not found", db))
  ∧ (∀ c d, fst out = HTTPException c d → snd out = db)
  ∧ (∀ msg, fst out = Ok msg →
       ∃ k, In k (api_keys db) ∧ api_key_id k = id
            ∧ api_key_user_id k = user_id caller
            ∧ accounts (snd out) = accounts db
            ∧ (∀ x, In x (api_keys (snd out)) ↔ In x (api_keys db) ∧ api_key_id x ≠ id)
            ∧ ∀ now, fst (get_api_key_user now (key k) (snd out))
                     = HTTPException 401 "Invalid API key").
Proof.
  intros (Hids & Hkeys & _) out. subst out. unfold delete_api_key.
  destruct (find (owned_key id (user_id caller)) (api_keys db)) as [k|] eqn:Hk.
  - pose proof (find_some _ _ Hk) as [Hin Hp].
    apply andb_true_iff in Hp as [Hid Hu].
    apply Z.eqb_eq in Hid. apply Z.eqb_eq in Hu.
    split. { intros Hother. exfalso. by apply (Hother k). }
    split; [intros c d [=]|].
    intros msg _. exists k. simpl.
    pose proof (delete_first_gone id (user_id caller) _ k Hids Hk) as Hgone.
    split; [exact Hin|]. split; [exact Hid|]. split; [exact Hu|].
    split; [reflexivity|]. split; [exact Hgone|].
    intros now. unfold get_api_key_user, verify_api_key. simpl.
    destruct (find (active_with_key (key k)) _) as [k'|] eqn:Hk'; [|done].
    exfalso. apply find_some in Hk' as [Hin' Hp'].
    apply andb_true_iff in Hp' as [Hkey _]. apply String.eqb_eq in Hkey.
    apply Hgone in Hin' as [Hin' Hne]. apply Hne. rewrite <- Hid.
    f_equal. clear -Hkeys Hin Hin' Hkey.
    induction (api_keys db) as [|y l IH]; [done|].
    simpl in Hkeys. apply NoDup_cons in Hkeys as [Hnot Hnd].
    rewrite list_elem_of_In in Hnot.
    destruct Hin as [->|Hin], Hin' as [->|Hin']; try done.
    + exfalso. apply Hnot. rewrite <- Hkey. by apply in_map.
    + exfalso. apply Hnot. rewrite Hkey. by apply in_map.
    + by apply IH.
  - split; [done|]. split; [done|]. intros msg [=].
Qed.

Lemma deleted_api_key_is_dead_witness :
  let out := delete_api_key 1 alice demo_keys in
  ((∀ k, In k (api_keys demo_keys) → api_key_id k = 1 →
         api_key_user_id k ≠ user_id alice) →
   out = (HTTPException 404 "API key not found", demo_keys))
  ∧ (∀ c d, fst out = HTTPException c d → snd out = demo_keys)
  ∧ (∀ msg, fst out = Ok msg →
       ∃ k, In k (api_keys demo_keys) ∧ api_key_id k = 1
            ∧ api_key_user_id k = user_id alice
            ∧ accounts (snd out) = accounts demo_keys
            ∧ (∀ x, In x (api_keys (snd out)) ↔
                    In x (api_keys demo_keys) ∧ api_key_id x ≠ 1)
            ∧ ∀ now, fst (get_api_key_user now (key k) (snd out))
                     = HTTPException 401 "Invalid API key").
Proof.
  apply (deleted_api_key_is_dead 1 alice demo_keys).
  unfold unique_keys. repeat split; apply (bool_decide_unpack _); vm_compute; exact I.
Defined.

End ApiKeysProps.

Module HistoryProps.
Import Routers History.

Lemma find_delete_first_other {A} (p q : A → bool) (l : list A) :
  (∀ x, p x = true → q x = false) → find q (delete_first p l) = find q l.
Proof.
  intros Hpq. induction l as [|y l IH]; [done|]. simpl.
  destruct (p y) eqn:Hp.
  - by rewrite (Hpq y Hp).
  - simpl. by rewrite IH.
Qed.

Lemma find_replace_first_other {A} (p q : A → bool) (new : A) (l : list A) :
  (∀ x, p x = true → q x = false) → q new = false →
  find q (replace_first p new l) = find q l.
Proof.
  intros Hpq Hnew. induction l as [|y l IH]; [done|]. simpl.
  destruct (p y) eqn:Hp.
  - simpl. by rewrite Hnew, (Hpq y Hp).
  - simpl. by rewrite IH.
Qed.

Lemma find_replace_first_same {A} (p : A → bool) (new old : A) (l : list A) :
  find p l = Some old → p new = true → find p (replace_first p new l) = Some new.
Proof.
  intros Hfind Hnew. induction l as [|y l IH]; [done|]. simpl in *.
  destruct (p y) eqn:Hp.
  - simpl. by rewrite Hnew.
  - simpl. rewrite Hp. by apply IH.
Qed.

Lemma other_id_not_selected db uid uid' id id' r :
  id' ≠ id → owned_with_id db uid id r = true → owned_with_id db uid' id' r = false.
Proof.
  unfold owned_with_id. intros Hne Hp. apply andb_prop in Hp as [Hid _].
  apply RouterProps.col_eq_int_attr in Hid.
  destruct (col_eq_int r "id" id') eqn:Hid'; [|done].
  apply RouterProps.col_eq_int_attr in Hid'. congruence.
Qed.

Lemma delete_first_no_id (p : row → bool) (l : list row) (found : row) (id : Z) :
  unique_ids l → find p l = Some found → attr found "id" = VInt id →
  ∀ r, In r (delete_first p l) → col_eq_int r "id" id = false.
Proof.
  unfold unique_ids. induction l as [|y l IH]; [done|]. simpl.
  intros Hnd Hfind Hid r.
  apply NoDup_cons in Hnd as [Hnot Hnd]. rewrite list_elem_of_In in Hnot.
  destruct (p y) eqn:Hp.
  - injection Hfind as ->. intros Hin.
    destruct (col_eq_int r "id" id) eqn:Hr; [|done].
    apply RouterProps.col_eq_int_attr in Hr. exfalso. apply Hnot.
    rewrite Hid, <- Hr. by apply (in_map (λ r, attr r "id")).
  - intros [<-|Hin]; [|by apply (IH Hnd Hfind Hid)].
    destruct (col_eq_int y "id" id) eqn:Hy; [|done].
    apply RouterProps.col_eq_int_attr in Hy. exfalso. apply Hnot.
    apply find_some in Hfind as [Hin _].
    rewrite Hy, <- Hid. by apply (in_map (λ r, attr r "id")).
Qed.


Lemma demo_documents_unique : unique_ids (documents demo_db).
Proof.
  unfold unique_ids. vm_compute.
  apply NoDup_cons_2; [|apply NoDup_singleton].
  rewrite list_elem_of_In. simpl. intros [[=]|[]].
Qed.


Lemma updated_row_selected db uid id (update old : row) now :
  keeps_keys update → owned_with_id db uid id old = true →
  owned_with_id db uid id (<["updated_at" := VInt now]> (update ∪ old)) = true.
Proof.
  intros [Hid Hpid] Hold.
  assert (∀ k, k = "id" ∨ k = "project_id" →
            attr (<["updated_at" := VInt now]> (update ∪ old)) k = attr old k) as Hattr.
  { intros k Hk. unfold attr. rewrite lookup_insert_ne by (destruct Hk; by subst).
    rewrite lookup_union_r; [done|]. by destruct Hk; subst. }
  unfold owned_with_id, owned_by, col_eq_int in *.
  rewrite !Hattr by auto. exact Hold.
Qed.

(** X11. Reading back an update.  For a request body that sets neither
    [id] nor [project_id]: when [PUT /documents/{id}] succeeds, a
    following [GET /documents/{id}] by the same user returns exactly the
    body the update returned; in it every field the request set has the
    requested value, [updated_at] is the time of the update and every
    other field is as [GET] showed it before; the answers for other
    document ids do not change. *)
Theorem update_document_reads_back (now id : Z) (update : gmap string pyval)
    (u : Security.User) (db : Database) (body : gmap string pyval) :
  keeps_keys update → update !! "updated_at" = None →
  fst (update_document now id update u db) = Ok body →
  let db' := snd (update_document now id update u db) in
  get_document id u db' = Ok body
  ∧ body !! "updated_at" = Some (VInt now)
  ∧ (∀ k v, In k Document_columns → update !! k = Some v → body !! k = Some v)
  ∧ (∀ k, In k Document_columns → update !! k = None → k ≠ "updated_at" →
          ∃ before, get_document id u db = Ok before ∧ body !! k = before !! k)
  ∧ (∀ id' u', id' ≠ id → get_document id' u' db' = get_document id' u' db).
Proof.
  intros Hkeys Hupd. unfold update_document, get_document, query_owned_document.
  destruct (find (owned_with_id db (Security.user_id u) id) (documents db))
    as [doc|] eqn:Hq; [|discriminate].
  simpl. intros [= <-].
  pose proof (find_some _ _ Hq) as [Hin Hp].
  pose proof (updated_row_selected db _ id update doc now Hkeys Hp) as Hp'.
  split; [|split; [|split; [|split]]].
  - match goal with
    | |- context [find ?q (replace_first ?p ?new ?l)] =>
        change (find q (replace_first p new l)) with (find p (replace_first p new l));
        rewrite (find_replace_first_same p new doc l Hq Hp')
    end. reflexivity.
  - unfold Document_to_dict. rewrite RouterProps.to_dict_of_lookup.
    + unfold attr. by rewrite lookup_insert_eq.
    + vm_compute. tauto.
  - intros k v Hk Hv. unfold Document_to_dict.
    rewrite RouterProps.to_dict_of_lookup by done. unfold attr.
    assert (k ≠ "updated_at") by congruence.
    rewrite lookup_insert_ne by done.
    by rewrite (lookup_union_Some_l _ _ _ _ Hv).
  - intros k Hk Hnone Hne. eexists. split; [reflexivity|].
    unfold Document_to_dict. rewrite !RouterProps.to_dict_of_lookup by done.
    unfold attr. rewrite lookup_insert_ne by done.
    by rewrite lookup_union_r.
  - intros id' u' Hne.
    match goal with
    | |- context [find ?q (replace_first ?p ?new ?l)] =>
        rewrite (find_replace_first_other p q new l); [done| |]
    end.
    + intros x Hx.
      exact (other_id_not_selected db _ (Security.user_id u') id id' x Hne Hx).
    + exact (other_id_not_selected db _ (Security.user_id u') id id' _ Hne Hp').
Qed.

Lemma update_document_reads_back_witness :
  let update : gmap string pyval := <["title" := VStr "alice-v2.txt"]> ∅ in
  let body := Document_to_dict
                (<["updated_at" := VInt 900]> (update ∪ demo_document 1 1 "alice.txt")) in
  let db' := snd (update_document 900 1 update Security.alice demo_db) in
  get_document 1 Security.alice db' = Ok body
  ∧ body !! "updated_at" = Some (VInt 900)
  ∧ (∀ k v, In k Document_columns → update !! k = Some v → body !! k = Some v)
  ∧ (∀ k, In k Document_columns → update !! k = None → k ≠ "updated_at" →
          ∃ before, get_document 1 Security.alice demo_db = Ok before
                    ∧ body !! k = before !! k)
  ∧ (∀ id' u', id' ≠ 1 → get_document id' u' db' = get_document id' u' demo_db).
Proof.
  intros update body.
  apply (update_document_reads_back 900 1 update Security.alice demo_db body).
  - split; reflexivity.
  - reflexivity.
  - vm_compute. reflexivity.
Defined.

(** *** Listings *)
Lemma paginate_tiles {A} (skip a b : nat) (l : list A) :
  paginate skip a l ++ paginate (skip + a) b l = paginate skip (a + b) l.
Proof.
  unfold paginate. rewrite <- (drop_drop l a skip).
  generalize (drop skip l) as rest.
  induction a as [|a IH]; intros [|x rest]; simpl; try done.
  - by destruct b.
  - by rewrite IH.
Qed.

Lemma paginate_length {A} (skip limit : nat) (l : list A) :
  length (paginate skip limit l) = Nat.min limit (length l - skip).
Proof. unfold paginate. by rewrite length_firstn, length_skipn. Qed.

Lemma newest_first_cons x l :
  newest_first (x :: l) ↔ (∀ y, In y l → created_at y ≤ created_at x) ∧ newest_first l.
Proof.
  split.
  - intros Hs. split.
    + intros y Hy. apply list_elem_of_In, list_elem_of_lookup in Hy as [j Hj].
      by apply (Hs 0%nat (S j) x y); [lia| |].
    + intros i j a b Hij Ha Hb. by apply (Hs (S i) (S j) a b); [lia| |].
  - intros [Hx Hl] i j a b Hij Ha Hb. destruct j as [|j]; [lia|]. simpl in Hb.
    destruct i as [|i]; simpl in Ha.
    + injection Ha as <-. apply Hx. apply list_elem_of_In. by eapply list_elem_of_lookup_2.
    + by apply (Hl i j a b); [lia| |].
Qed.

Lemma insert_desc_sorted x l : newest_first l → newest_first (insert_desc x l).
Proof.
  induction l as [|y l IH]; simpl; intros Hs.
  - apply newest_first_cons. split; [done|]. intros i j a b _ Ha. by destruct i.
  - apply newest_first_cons in Hs as Hyl. destruct Hyl as [Hy Hl].
    destruct (Z.ltb_spec (created_at y) (created_at x)).
    + apply newest_first_cons. split; [|done].
      intros z [<-|Hz]; [lia|]. specialize (Hy z Hz). lia.
    + apply newest_first_cons. split; [|by apply IH].
      intros z Hz. apply RouterProps.In_insert_desc in Hz as [->|Hz]; [lia|by apply Hy].
Qed.

Lemma order_by_created_desc_sorted l : newest_first (order_by_created_desc l).
Proof.
  induction l as [|x l IH]; simpl.
  - intros i j a b _ Ha. by destruct i.
  - by apply insert_desc_sorted.
Qed.

Lemma order_by_created_desc_length l :
  length (order_by_created_desc l) = length l.
Proof.
  induction l as [|x l IH]; [done|]. simpl. rewrite <- IH.
  generalize (order_by_created_desc l) as s. clear.
  induction s as [|y s IHs]; [done|]. simpl.
  destruct (created_at y <? created_at x); simpl; [done|by rewrite IHs].
Qed.

Lemma paginate_sorted skip limit l : newest_first l → newest_first (paginate skip limit l).
Proof.
  intros Hs i j a b Hij Ha Hb. unfold paginate in *.
  rewrite lookup_take_Some in Ha, Hb. destruct Ha as [Ha _], Hb as [Hb _].
  rewrite lookup_drop in Ha, Hb. by apply (Hs (skip + i)%nat (skip + j)%nat a b); [lia| |].
Qed.

Lemma listed_at_to_dict r : listed_at (Document_to_dict r) = created_at r.
Proof.
  unfold listed_at, created_at, Document_to_dict.
  rewrite RouterProps.to_dict_of_lookup by (vm_compute; tauto). reflexivity.
Qed.

Section Listing.
Variable ilike : pyval → string → bool.

End Listing.

(** *** Version history *)
Lemma insert_newest (v x : UserStoryVersion) (l : list UserStoryVersion) :
  version_number x < version_number v →
  insert_version x (v :: l) = v :: insert_version x l.
Proof.
  intros Hlt. simpl.
  by destruct (Z.ltb_spec (version_number v) (version_number x)); [lia|].
Qed.

Lemma newest_goes_first (v : UserStoryVersion) (l : list UserStoryVersion) :
  (∀ x, In x l → version_number x < version_number v) →
  order_by_number_desc (l ++ [v]) = v :: order_by_number_desc l.
Proof.
  unfold order_by_number_desc. induction l as [|x l IH]; [done|].
  intros Hlt. simpl. rewrite IH by (intros y Hy; apply Hlt; by right).
  apply insert_newest. apply Hlt. by left.
Qed.

Lemma numbered_below (numbers : list Z) (n : nat) :
  numbers = map Z.of_nat (seq 1 n) → ∀ x, In x numbers → x < Z.of_nat n + 1.
Proof.
  intros -> x Hx. apply in_map_iff in Hx as (k & <- & Hk).
  apply in_seq in Hk. lia.
Qed.


Lemma demo_story_numbered : well_numbered demo_db 1.
Proof. reflexivity. Qed.


End HistoryProps.

Module RelationshipsProps.
Import KnowledgeGraph Relationships.

Lemma entity_names_sound entities names v :
  entity_names entities = Returns names →
  existsb (key_eq v) names = true → names_entity v entities.
Proof.
  revert names. induction entities as [|e entities IH]; intros names; simpl.
  - intros [= <-]. discriminate.
  - destruct (subscript e "name") as [name|] eqn:Hname; [|discriminate].
    destruct (hashable name); simpl; [|discriminate].
    destruct (entity_names entities) as [rest|]; [|discriminate].
    intros [= <-]. simpl. intros Hex. apply orb_prop in Hex as [Hex|Hex].
    + exists e, name. split; [by left|]. by split.
    + destruct (IH rest eq_refl Hex) as (e' & name' & Hin & Hn & Hk).
      exists e', name'. split; [by right|]. by split.
Qed.

Lemma required_means_object rel :
  check_required relationship_fields rel = Returns true → ∃ d, rel = VDict d.
Proof.
  destruct rel as [|b|n|q|s|l|d]; simpl; try discriminate.
  - by destruct (negb (is_substring "source_entity" s)).
  - by destruct (negb (existsb _ l)).
  - eauto.
Qed.

Lemma validated_relationship_sound rel names rel' entities :
  entity_names entities = Returns names →
  _validate_relationship rel names = Returns (true, rel') →
  ∃ d source target ty,
    rel' = VDict d
    ∧ d !! "source_entity" = Some source ∧ names_entity source entities
    ∧ d !! "target_entity" = Some target ∧ names_entity target entities
    ∧ d !! "relationship_type" = Some (VStr ty) ∧ In ty RelationshipType_values
    ∧ ∀ c, d !! "confidence" = Some c →
           is_int_or_float c = true ∧ outside_unit_interval c = false.
Proof.
  intros Hnames. unfold _validate_relationship.
  destruct (check_required relationship_fields rel) as [[|]|] eqn:Hreq;
    try discriminate.
  destruct (required_means_object rel Hreq) as [d ->]. cbn [subscript].
  destruct (d !! "source_entity") as [source|] eqn:Hs; [|discriminate].
  unfold not_a_name.
  destruct (hashable source); cbn [negb]; [|discriminate].
  destruct (existsb (key_eq source) names) eqn:Hsn; cbn [negb]; [|discriminate].
  destruct (d !! "target_entity") as [target|] eqn:Ht; [|discriminate].
  destruct (hashable target); cbn [negb]; [|discriminate].
  destruct (existsb (key_eq target) names) eqn:Htn; cbn [negb]; [|discriminate].
  destruct (d !! "relationship_type") as [ty|] eqn:Hty; [|discriminate].
  destruct (existsb (eq_str ty) RelationshipType_values) eqn:Hin; cbn [negb]; [|discriminate].
  apply existsb_exists in Hin as (name & Hname & Heq).
  destruct ty as [|b|n|q|ty|l|d0]; try discriminate. cbn [eq_str] in Heq.
  apply String.eqb_eq in Heq. subst name.
  pose proof (entity_names_sound _ _ _ Hnames Hsn) as Hsource.
  pose proof (entity_names_sound _ _ _ Hnames Htn) as Htarget.
  unfold dict_get_default.
  destruct (negb (is_int_or_float (default one_half (d !! "confidence")))
            || outside_unit_interval (default one_half (d !! "confidence"))) eqn:Hc.
  - intros [= <-]. exists (<["confidence" := one_half]> d), source, target, ty.
    rewrite !lookup_insert_ne by done.
    do 7 (split; [done|]).
    intros c Hconf. rewrite lookup_insert_eq in Hconf. by injection Hconf as <-.
  - intros [= <-]. exists d, source, target, ty.
    do 7 (split; [done|]).
    intros c Hconf. rewrite Hconf in Hc. simpl in Hc.
    apply orb_false_elim in Hc as [Hc1 Hc2].
    by apply negb_false_iff in Hc1.
Qed.

Lemma validate_relationships_sound project_id extracted_at entities names rels acc out :
  entity_names entities = Returns names →
  Forall (sound_relationship entities project_id extracted_at) acc →
  validate_relationships project_id extracted_at names rels acc = Returns out →
  Forall (sound_relationship entities project_id extracted_at) out.
Proof.
  intros Hnames. revert acc. induction rels as [|rel rels IH]; intros acc Hacc; simpl.
  - by intros [= <-].
  - destruct (_validate_relationship rel names) as [[[|] rel']|] eqn:Hv;
      [|by apply IH|discriminate].
    destruct (validated_relationship_sound _ _ _ _ Hnames Hv)
      as (d & source & target & ty & -> & Hs & Hsn & Ht & Htn & Hty & Hin & Hc).
    simpl. apply IH. apply Forall_app. split; [done|]. constructor; [|constructor].
    exists (<["extracted_at" := VStr extracted_at]> (<["project_id" := VInt project_id]> d)),
      source, target, ty.
    rewrite !lookup_insert_ne by done. rewrite !lookup_insert_eq.
    do 9 (split; [done|]).
    intros c Hconf. rewrite !lookup_insert_ne in Hconf by done. by apply Hc.
Qed.

Section Extraction.
Variable json_loads : string → option pyval.
Variable generate : unit → outcome string.

End Extraction.

(** Of the three relationships of the reply, the one between known
    entities with an upper-case type is kept, its confidence coerced. *)
Example relations_run :
  extract_relationships_from_text demo_relations_loads
    (λ _, Returns "[three relations]") demo_entities 7 "2024-01-01T00:00:00"
  = [ VDict (<["extracted_at" := VStr "2024-01-01T00:00:00"]>
            (<["project_id" := VInt 7]>
            (<["confidence" := one_half]>
            (<["source_entity" := VStr "Checkout"]>
            (<["target_entity" := VStr "Ledger"]>
            (<["relationship_type" := VStr "DEPENDS_ON"]>
            (<["confidence" := VFloat (17 # 10)]> ∅))))))) ].
Proof. vm_compute. reflexivity. Qed.

End RelationshipsProps.

Module AgentStoriesProps.
Import Agent AgentProps AgentStories.

Lemma settled_set sv s k v :
  k ≠ "stories_generated" → k ≠ "generated_stories" →
  settled sv s → settled sv (<[k := v]> s).
Proof.
  intros H1 H2. unfold settled. by rewrite !lookup_insert_ne.
Qed.

Ltac leaf_settled := intros; by apply settled_set.

Ltac keep_settled H Hk :=
  match type of H with
  | ?m ?s = _ =>
      match type of Hk with
      | settled ?sv s =>
          let Hp := fresh "Hp" in
          assert (preserves (settled sv) m) as Hp
            by solve_preserves leaf_settled;
          specialize (Hp s Hk); rewrite H in Hp; simpl in Hp
      end
  end.

Section Settled.
Variable sv : Services.
Variable completion_time : string.

Lemma quality_body_settled : preserves (settled sv) (quality_body sv).
Proof. unfold quality_body. solve_preserves leaf_settled. Qed.

Lemma quality_handler_settled e : preserves (settled sv) (quality_handler e).
Proof. unfold quality_handler. solve_preserves leaf_settled. Qed.

Lemma finalize_body_settled : preserves (settled sv) (finalize_body sv completion_time).
Proof. unfold finalize_body. solve_preserves leaf_settled. Qed.

Lemma finalize_handler_settled e : preserves (settled sv) (finalize_handler e).
Proof. unfold finalize_handler. solve_preserves leaf_settled. Qed.

Lemma generate_body_settles s s' u :
  generate_body sv s = (s', Returns u) → settled sv s'.
Proof.
  unfold generate_body. intros H. do 7 peel H.
  peel H. rename Hm into Hreply.
  do 2 peel H.
  destruct (_ && _).
  - peel H. rename Hm into Hdata. peel H. rename Hm into Hstories.
    do 2 peel H.
    match type of H with
    | _ ?s0 = _ =>
        assert (settled sv s0) as Hk
    end.
    { right. split; [by rewrite lookup_insert_eq|].
      eexists. split; [rewrite lookup_insert_ne by done; by rewrite lookup_insert_eq|].
      unfold from_service. eauto 10. }
    keep_settled H Hk. exact Hp.
  - do 2 peel H.
    match type of H with
    | _ ?s0 = _ =>
        assert (settled sv s0) as Hk
    end.
    { left. split; [by rewrite lookup_insert_eq|].
      rewrite lookup_insert_ne by done. by rewrite lookup_insert_eq. }
    keep_settled H Hk. exact Hp.
Qed.

Lemma generate_stage_settles s s' :
  shape s → _generate_stories sv s = Returns s' → settled sv s'.
Proof.
  intros Hs Hrun. apply run_fst in Hrun. subst s'.
  unfold bind, try_except.
  pose proof (generate_body_shape sv s Hs) as Hb.
  destruct (generate_body sv s) as [s1 [u|e]] eqn:Hbody; simpl in *.
  - apply settled_set; [done|done|]. by eapply generate_body_settles.
  - unfold generate_handler.
    destruct (append_errors_runs s1 (VStr ("Story generation failed: " +:+ e))
                (set_item "generated_stories" (VList []) >>
                 set_item "stories_generated" (VBool false)) Hb) as (l & He & ->).
    simpl. apply settled_set; [done|done|]. left.
    split; [by rewrite lookup_insert_eq|].
    rewrite lookup_insert_ne by done. by rewrite lookup_insert_eq.
Qed.
End Settled.

(** X15. Where returned stories come from.  For every input and every
    behaviour of the services, the bundle [generate_user_stories]
    returns has a boolean [success]; when it is false, [user_stories]
    is the empty list; when it is true, [user_stories] is, unaltered,
    the [user_stories] entry (or the default [[]]) of the
    [parsed_stories] of a reply that [generate_user_story] gave during
    this run. *)
Theorem stories_come_from_service (sv : Services)
    (start_time completion_time requirements : string)
    (project_id user_id : Z) (persona additional_context : option string)
    (generation_options : option (gmap string pyval)) :
  let result := generate_user_stories sv start_time completion_time requirements
                  project_id user_id persona additional_context generation_options in
  (result !! "success" = Some (VBool false)
   ∧ result !! "user_stories" = Some (VList []))
  ∨ (result !! "success" = Some (VBool true)
     ∧ ∃ stories, result !! "user_stories" = Some stories ∧ from_service sv stories).
Proof.
  intros result.
  set (s0 := initial_state start_time requirements project_id user_id persona
               additional_context generation_options).
  destruct (analyze_stage sv s0) as (s1 & R1 & Sh1 & _);
    [apply initial_shape|].
  destruct (retrieve_stage sv s1 Sh1) as (s2 & R2 & Sh2 & _).
  destruct (extract_stage sv s2 Sh2) as (s3 & R3 & Sh3 & _).
  destruct (generate_stage sv s3 Sh3) as (s4 & R4 & Sh4 & _ & _ & (g & n & Hg & Hn) & _).
  destruct (quality_stage sv s4 Sh4) as (s5 & R5 & Sh5 & _).
  destruct (finalize_stage sv completion_time s5 Sh5) as (s6 & R6 & Sh6 & _).
  pose proof (generate_stage_settles sv s3 s4 Sh3 R4) as Hset4.
  assert (settled sv s6) as Hset6.
  { eapply (node_keeps (settled sv)); [apply finalize_body_settled
      |apply finalize_handler_settled| |
      |exact R6].
    - intros s v. by apply settled_set.
    - eapply (quality_keeps sv (settled sv)); [apply quality_body_settled
        |apply quality_handler_settled| |exact Hset4|exact R5].
      intros s v. by apply settled_set. }
  assert (stories_ok s6) as Ok6.
  { exists g, n. split; [|done].
    eapply finalize_keeps_stories; [|exact R6].
    eapply quality_keeps_stories; [exact Hg|exact R5]. }
  pose proof (ainvoke_chain sv completion_time s0 s1 s2 s3 s4 s5 s6 R1 R2 R3 R4 R5 R6)
    as Hrun.
  destruct Sh6 as (_ & _ & (msgs & Hm & Hall) & _).
  destruct (message_contents_returns msgs Hall) as (cs & Hcs).
  destruct Ok6 as (g6 & n6 & Hg6 & Hn6).
  assert (result !! "success" = Some (default (VBool false) (s6 !! "stories_generated"))
          ∧ result !! "user_stories" = Some g6) as [Hsucc Hstories].
  { unfold result, generate_user_stories. fold s0. rewrite Hrun.
    unfold package. rewrite Hm, Hg6. cbn [default from_option id]. rewrite Hcs, Hn6.
    by rewrite !lookup_literal. }
  rewrite Hsucc, Hstories.
  destruct Hset6 as [[Hflag Hnone]|[Hflag (stories & Hst & Hfrom)]]; rewrite Hflag.
  - left. split; [done|]. congruence.
  - right. split; [done|]. exists stories. split; [congruence|done].
Qed.

(** With the text endpoint down the run still succeeds, and its story
    is the one the generation service returned. *)
Example text_down_stories :
  demo_run text_down !! "success" = Some (VBool true)
  ∧ demo_run text_down !! "user_stories" = Some (VList [demo_story])
  ∧ from_service text_down (VList [demo_story]).
Proof.
  split; [vm_compute; reflexivity|]. split; [vm_compute; reflexivity|].
  exists VNone, "", VNone, VNone, VNone. eexists. eexists.
  split; [reflexivity|]. split; vm_compute; reflexivity.
Qed.

End AgentStoriesProps.

Module KeywordsProps.
Import TextProcessing Keywords.

Lemma text_eqb_refl a : text_eqb a a = true.
Proof. induction a as [|x a IH]; [done|]. simpl. by rewrite Ascii.eqb_refl. Qed.

Lemma text_eqb_spec a b : text_eqb a b = true ↔ a = b.
Proof.
  split; [apply TextProps.text_eqb_eq|]. intros ->. apply text_eqb_refl.
Qed.

Lemma text_eqb_sym a b : text_eqb a b = text_eqb b a.
Proof.
  destruct (text_eqb a b) eqn:E.
  - apply text_eqb_spec in E as ->. symmetry. apply text_eqb_refl.
  - destruct (text_eqb b a) eqn:E'; [|done].
    apply text_eqb_spec in E' as ->. by rewrite text_eqb_refl in E.
Qed.

(** *** The frequency table *)
Lemma freq_of_count_word w word freq :
  freq_of w (count_word word freq)
  = (freq_of w freq + if text_eqb w word then 1 else 0)%nat.
Proof.
  unfold freq_of. induction freq as [|[x n] freq IH]; simpl.
  - rewrite (text_eqb_sym word w). destruct (text_eqb w word); reflexivity.
  - destruct (text_eqb x word) eqn:Ex; simpl.
    + apply text_eqb_spec in Ex as ->. rewrite (text_eqb_sym word w).
      destruct (text_eqb w word); simpl; lia.
    + destruct (text_eqb x w) eqn:Exw; simpl.
      * apply text_eqb_spec in Exw as ->. rewrite Ex. lia.
      * exact IH.
Qed.

Lemma count_word_keys_nodup word freq :
  NoDup (map fst freq) → NoDup (map fst (count_word word freq)).
Proof.
  induction freq as [|[x n] freq IH]; simpl; intros Hnd.
  - apply NoDup_singleton.
  - apply NoDup_cons in Hnd as [Hnot Hnd].
    destruct (text_eqb x word) eqn:Ex; simpl.
    + by apply NoDup_cons.
    + apply NoDup_cons. split; [|by apply IH].
      rewrite list_elem_of_In in *. intros Hin.
      apply in_map_iff in Hin as (item & Hfst & Hin).
      apply TextProps.count_word_keys in Hin as [Hw|[m Hm]].
      * assert (x = word) as -> by congruence. by rewrite text_eqb_refl in Ex.
      * apply Hnot. rewrite <- Hfst. by apply (in_map fst) in Hm.
Qed.

Lemma count_word_positive word freq item :
  (∀ it, In it freq → (1 <= snd it)%nat) →
  In item (count_word word freq) → (1 <= snd item)%nat.
Proof.
  induction freq as [|[x n] freq IH]; simpl; intros Hpos.
  - by intros [<-|[]].
  - destruct (text_eqb x word); simpl.
    + intros [<-|Hin]; simpl; [lia|]. apply Hpos. by right.
    + intros [<-|Hin]; [apply (Hpos (x, n)); by left|].
      apply IH; [|done]. intros it Hit. apply Hpos. by right.
Qed.

Lemma word_frequencies_spec min_len words :
  let table := word_frequencies min_len words in
  NoDup (map fst table)
  ∧ (∀ item, In item table → (1 <= snd item)%nat)
  ∧ ∀ w, freq_of w table = occurrences w (List.filter (counted min_len) words).
Proof.
  unfold word_frequencies.
  assert (∀ acc,
    NoDup (map fst acc) → (∀ it, In it acc → (1 <= snd it)%nat) →
    let table := fold_left (λ word_freq word,
                   if negb (is_stop_word word) && (min_len <=? length word)%nat
                   then count_word word word_freq else word_freq) words acc in
    NoDup (map fst table)
    ∧ (∀ item, In item table → (1 <= snd item)%nat)
    ∧ ∀ w, freq_of w table
           = (freq_of w acc + occurrences w (List.filter (counted min_len) words))%nat)
    as Hgen.
  { induction words as [|word words IH]; intros acc Hnd Hpos; simpl.
    - split; [done|]. split; [done|]. intros w. unfold occurrences. simpl. lia.
    - fold (counted min_len word).
      destruct (counted min_len word) eqn:Hc.
      + destruct (IH (count_word word acc)) as (H1 & H2 & H3).
        * by apply count_word_keys_nodup.
        * intros it. by apply count_word_positive.
        * split; [done|]. split; [done|]. intros w. rewrite H3, freq_of_count_word.
          unfold occurrences. simpl. destruct (text_eqb w word); simpl; lia.
      + by apply IH. }
  destruct (Hgen [] (NoDup_nil_2) (λ it (H : In it []), match H with end))
    as (H1 & H2 & H3).
  split; [done|]. split; [done|]. intros w. by rewrite H3.
Qed.

Lemma freq_of_member w c table :
  NoDup (map fst table) → In (w, c) table → freq_of w table = c.
Proof.
  unfold freq_of. induction table as [|[x n] table IH]; [done|]. simpl.
  intros Hnd Hin. apply NoDup_cons in Hnd as [Hnot Hnd].
  rewrite list_elem_of_In in Hnot.
  destruct (text_eqb x w) eqn:E.
  - apply text_eqb_spec in E as ->. destruct Hin as [[= ->]|Hin]; [done|].
    exfalso. apply Hnot. by apply (in_map fst) in Hin.
  - destruct Hin as [[= -> ->]|Hin]; [by rewrite text_eqb_refl in E|by apply IH].
Qed.

(** *** Sorting, truncating and filtering *)
Lemma descending_index {A} (f : A → nat) (l : list A) :
  descending f l →
  ∀ i j a b, (i < j)%nat → l !! i = Some a → l !! j = Some b → (f b <= f a)%nat.
Proof.
  induction l as [|x l IH]; simpl; [by intros _ [|i]|].
  intros [Hx Hl] i j a b Hij Ha Hb. destruct j as [|j]; [lia|]. simpl in Hb.
  destruct i as [|i]; simpl in Ha.
  - injection Ha as <-. apply Hx. apply list_elem_of_In. by eapply list_elem_of_lookup_2.
  - by apply (IH Hl i j a b); [lia| |].
Qed.

Lemma insert_by_freq_descending x l :
  descending snd l → descending snd (insert_by_freq x l).
Proof.
  induction l as [|y l IH]; simpl; [by intros _|]. intros [Hy Hl].
  destruct (Nat.leb_spec (snd y) (snd x)); simpl.
  - split; [|done]. intros z [<-|Hz]; [done|]. specialize (Hy z Hz). lia.
  - split; [|by apply IH].
    intros z Hz. apply TextProps.In_insert_by_freq in Hz as [->|Hz]; [lia|by apply Hy].
Qed.

Lemma sorted_by_freq_descending l : descending snd (sorted_by_freq l).
Proof.
  unfold sorted_by_freq. induction l as [|x l IH]; [done|]. simpl.
  by apply insert_by_freq_descending.
Qed.

Lemma insert_by_freq_keys x l :
  NoDup (map fst (x :: l)) → NoDup (map fst (insert_by_freq x l)).
Proof.
  induction l as [|y l IH]; simpl; [done|]. intros Hnd.
  destruct (snd y <=? snd x)%nat; [done|]. simpl.
  apply NoDup_cons in Hnd as [Hx Hnd]. apply NoDup_cons in Hnd as [Hy Hnd].
  rewrite list_elem_of_In in *. simpl in Hx.
  apply NoDup_cons. split.
  - rewrite list_elem_of_In. intros Hin. apply in_map_iff in Hin as (z & Hz & Hin).
    apply TextProps.In_insert_by_freq in Hin as [->|Hin].
    + apply Hx. by left.
    + apply Hy. rewrite <- Hz. by apply in_map.
  - apply IH. simpl. apply NoDup_cons. split; [|done].
    rewrite list_elem_of_In. intros Hin. apply Hx. by right.
Qed.

Lemma sorted_by_freq_keys l : NoDup (map fst l) → NoDup (map fst (sorted_by_freq l)).
Proof.
  induction l as [|x l IH]; [done|]. intros Hnd.
  change (sorted_by_freq (x :: l)) with (insert_by_freq x (sorted_by_freq l)).
  apply insert_by_freq_keys. simpl in *.
  apply NoDup_cons in Hnd as [Hx Hnd]. apply NoDup_cons. split; [|by apply IH].
  rewrite list_elem_of_In in *. intros Hin. apply Hx.
  apply in_map_iff in Hin as (z & Hz & Hin). rewrite TextProps.In_sorted_by_freq in Hin.
  rewrite <- Hz. by apply in_map.
Qed.

Lemma descending_firstn {A} (f : A → nat) n (l : list A) :
  descending f l → descending f (firstn n l).
Proof.
  revert l. induction n as [|n IH]; intros [|x l]; simpl; try done.
  intros [Hx Hl]. split; [|by apply IH].
  intros y Hy. apply Hx. by apply TextProps.In_firstn_text in Hy.
Qed.

Lemma descending_filter {A} (f : A → nat) (p : A → bool) (l : list A) :
  descending f l → descending f (List.filter p l).
Proof.
  induction l as [|x l IH]; simpl; [done|]. intros [Hx Hl].
  destruct (p x); simpl; [|by apply IH].
  split; [|by apply IH]. intros y Hy. apply Hx. by apply filter_In in Hy as [Hy _].
Qed.

Lemma descending_map {A B} (f : A → nat) (g : B → nat) (h : A → B) (l : list A) :
  (∀ x, In x l → g (h x) = f x) → descending f l → descending g (map h l).
Proof.
  induction l as [|x l IH]; simpl; [done|]. intros Heq [Hx Hl].
  split; [|apply IH; auto].
  intros y Hy. apply in_map_iff in Hy as (z & <- & Hz).
  rewrite !Heq by auto. by apply Hx.
Qed.

Lemma nodup_keys_firstn {A B} (f : A → B) n (l : list A) :
  NoDup (map f l) → NoDup (map f (firstn n l)).
Proof.
  revert l. induction n as [|n IH]; intros [|x l]; simpl; try done.
  - intros _. apply NoDup_nil_2.
  - intros Hnd. apply NoDup_cons in Hnd as [Hx Hnd]. apply NoDup_cons.
    split; [|by apply IH]. rewrite list_elem_of_In in *. intros Hin. apply Hx.
    apply in_map_iff in Hin as (z & Hz & Hin). apply TextProps.In_firstn_text in Hin.
    rewrite <- Hz. by apply in_map.
Qed.

Lemma nodup_keys_filter {A B} (f : A → B) (p : A → bool) (l : list A) :
  NoDup (map f l) → NoDup (map f (List.filter p l)).
Proof.
  induction l as [|x l IH]; simpl; [done|]. intros Hnd.
  apply NoDup_cons in Hnd as [Hx Hnd]. destruct (p x); simpl; [|by apply IH].
  apply NoDup_cons. split; [|by apply IH]. rewrite list_elem_of_In in *.
  intros Hin. apply Hx. apply in_map_iff in Hin as (z & Hz & Hin).
  apply filter_In in Hin as [Hin _]. rewrite <- Hz. by apply in_map.
Qed.

(** *** The words counted *)
Lemma word_runs_chars run t w c :
  In w (word_runs run t) → In c w → In c run ∨ In c t.
Proof.
  revert run. induction t as [|x t IH]; intros run; simpl.
  - destruct (nonempty run); [|done]. intros [<-|[]] Hc. left. by apply in_rev.
  - destruct (is_word_char x).
    + intros Hw Hc. destruct (IH _ Hw Hc) as [[->|Hr]|Ht]; auto.
    + destruct (nonempty run).
      * intros [<-|Hw] Hc; [left; by apply in_rev|].
        destruct (IH _ Hw Hc) as [[]|Ht]. auto.
      * intros Hw Hc. destruct (IH _ Hw Hc) as [[]|Ht]. auto.
Qed.

Lemma lowered_letter c :
  is_ascii_letter (lower_char c) = true → is_lower_letter (lower_char c) = true.
Proof. destruct c as [[] [] [] [] [] [] [] []]; vm_compute; intros; congruence. Qed.

Lemma found_words_lower t w :
  In w (findall_words (lower t)) →
  forallb is_lower_letter w = true ∧ (3 <= length w)%nat.
Proof.
  unfold findall_words. intros Hin. apply filter_In in Hin as [Hin Hp].
  apply andb_prop in Hp as [Hletters Hlen]. apply Nat.leb_le in Hlen.
  split; [|done]. apply forallb_forall. intros c Hc.
  destruct (word_runs_chars _ _ _ c Hin Hc) as [[]|Hl].
  unfold lower in Hl. apply in_map_iff in Hl as (c' & <- & _).
  apply lowered_letter. rewrite forallb_forall in Hletters. by apply Hletters.
Qed.

Lemma occurrences_counted min_len w words :
  counted min_len w = true →
  occurrences w (List.filter (counted min_len) words) = occurrences w words.
Proof.
  intros Hw. unfold occurrences. induction words as [|x words IH]; [done|]. simpl.
  destruct (text_eqb w x) eqn:E.
  - apply text_eqb_spec in E as <-. rewrite Hw. simpl. rewrite text_eqb_refl.
    simpl. by rewrite IH.
  - destruct (counted min_len x); simpl; [by rewrite E|done].
Qed.

Lemma table_keys_counted min_len words item :
  In item (word_frequencies min_len words) → counted min_len (fst item) = true.
Proof.
  unfold word_frequencies.
  assert (∀ acc, (∀ it, In it acc → counted min_len (fst it) = true) →
            In item (fold_left (λ word_freq word,
                       if negb (is_stop_word word) && (min_len <=? length word)%nat
                       then count_word word word_freq else word_freq) words acc) →
            counted min_len (fst item) = true) as Hgen.
  { induction words as [|w words IH]; intros acc Hacc; simpl; [by apply Hacc|].
    apply IH. intros it Hit. fold (counted min_len w) in Hit.
    destruct (counted min_len w) eqn:Hc; [|by apply Hacc].
    apply TextProps.count_word_keys in Hit as [->|[m Hm]]; [done|].
    by apply (Hacc (fst it, m)). }
  apply Hgen. intros it [].
Qed.

Lemma table_holds min_len words w :
  (0 < freq_of w (word_frequencies min_len words))%nat →
  In (w, freq_of w (word_frequencies min_len words)) (word_frequencies min_len words).
Proof.
  unfold freq_of.
  destruct (find _ (word_frequencies min_len words)) as [[x c]|] eqn:Hf; [|simpl; lia].
  intros _. apply find_some in Hf as [Hin Heq]. simpl in *.
  by apply text_eqb_spec in Heq as ->.
Qed.

(** X16. What [extract_keywords] returns.  For every text and limit,
    with [words] the lower-cased text's alphabetic words of at least
    three letters: the result has at most [max_keywords] entries and no
    duplicates; every keyword is made of the letters a-z, has at least
    four of them, is no stop word and occurs at least twice in [words];
    keywords are listed by non-increasing number of occurrences; and
    when the frequency table has at most [max_keywords] entries, every
    word of [words] with at least four letters that is no stop word and
    occurs at least twice is returned. *)
Theorem keywords_characterised (t : text) (max_keywords : nat) :
  let words := findall_words (lower t) in
  let keywords := extract_keywords t max_keywords in
  (length keywords <= max_keywords)%nat
  ∧ NoDup keywords
  ∧ (∀ w, In w keywords →
          forallb is_lower_letter w = true ∧ (4 <= length w)%nat
          ∧ is_stop_word w = false ∧ (2 <= occurrences w words)%nat)
  ∧ descending (λ w, occurrences w words) keywords
  ∧ ((length (word_frequencies 4 words) <= max_keywords)%nat →
     ∀ w, In w words → (4 <= length w)%nat → is_stop_word w = false →
          (2 <= occurrences w words)%nat → In w keywords).
Proof.
  intros words keywords. subst keywords. unfold extract_keywords, keywords_with.
  destruct (nonempty t) eqn:Ht.
  2:{ destruct t; [|done]. simpl. repeat split; try done; try lia.
      apply NoDup_nil_2. }
  fold words.
  destruct (word_frequencies_spec 4 words) as (Hnd & Hpos & Hfreq).
  set (table := word_frequencies 4 words) in *.
  set (items := List.filter (λ item, (1 <? snd item)%nat)
                  (firstn max_keywords (sorted_by_freq table))).
  assert (∀ item, In item items → In item table ∧ (2 <= snd item)%nat) as Hitems.
  { intros item Hin. apply filter_In in Hin as [Hin Hc].
    apply TextProps.In_firstn_text in Hin. rewrite TextProps.In_sorted_by_freq in Hin.
    apply Nat.ltb_lt in Hc. split; [done|lia]. }
  assert (∀ item, In item table →
            snd item = occurrences (fst item) words
            ∧ counted 4 (fst item) = true ∧ In (fst item) words) as Htable.
  { intros [w c] Hin. simpl.
    pose proof (table_keys_counted 4 words (w, c) Hin) as Hc. simpl in Hc.
    pose proof (freq_of_member w c table Hnd Hin) as Hf.
    rewrite Hfreq, (occurrences_counted 4 w words Hc) in Hf.
    split; [done|]. split; [done|].
    pose proof (Hpos (w, c) Hin) as Hp. simpl in Hp.
    unfold occurrences in Hf.
    destruct (List.filter (text_eqb w) words) as [|x rest] eqn:Hfilter; [simpl in Hf; lia|].
    assert (In x (List.filter (text_eqb w) words)) as Hx by (rewrite Hfilter; by left).
    apply filter_In in Hx as [Hx Heq]. by apply text_eqb_spec in Heq as ->. }
  split; [|split; [|split; [|split]]].
  - rewrite length_map. etransitivity; [apply filter_length_le|].
    rewrite length_firstn. lia.
  - apply nodup_keys_filter, nodup_keys_firstn. by apply sorted_by_freq_keys.
  - intros w Hw. apply in_map_iff in Hw as (item & <- & Hin).
    destruct (Hitems item Hin) as [Hin' Hc].
    destruct (Htable item Hin') as (Hocc & Hcounted & Hword).
    apply andb_prop in Hcounted as [Hstop Hlen].
    apply negb_true_iff in Hstop. apply Nat.leb_le in Hlen.
    split; [by apply (found_words_lower t)|]. split; [done|]. split; [done|lia].
  - apply (descending_map snd).
    + intros item Hin. destruct (Hitems item Hin) as [Hin' _].
      by destruct (Htable item Hin') as (-> & _).
    + apply descending_filter, descending_firstn, sorted_by_freq_descending.
  - intros Hsmall w Hw Hlen Hstop Hocc.
    assert (counted 4 w = true) as Hc.
    { unfold counted. rewrite Hstop. cbn [negb andb]. by apply Nat.leb_le. }
    assert (freq_of w table = occurrences w words) as Hf
      by (rewrite Hfreq; by apply occurrences_counted).
    assert (In (w, occurrences w words) table) as Hin.
    { rewrite <- Hf. apply table_holds. fold table. lia. }
    apply in_map_iff. exists (w, occurrences w words). split; [done|].
    apply filter_In. split.
    + rewrite firstn_all2.
      * by rewrite TextProps.In_sorted_by_freq.
      * clear -Hsmall.
        assert (∀ l, length (sorted_by_freq l) = length l) as Hlen.
        { induction l as [|x l IH]; [done|].
          change (sorted_by_freq (x :: l)) with (insert_by_freq x (sorted_by_freq l)).
          simpl. rewrite <- IH. generalize (sorted_by_freq l) as s.
          induction s as [|y s IHs]; [done|]. simpl.
          destruct (snd y <=? snd x)%nat; simpl; [done|by rewrite IHs]. }
        rewrite Hlen. exact Hsmall.
    + simpl. apply Nat.ltb_lt. lia.
Qed.

End KeywordsProps.
